(** * The virtualised list widget of [widget/list.go]

    A shallow embedding of the list widget: the facade [List] with its
    selection and scroll operations, the visible-range computation
    [visibleItemHeights], and the reconciliation pass [updateList] of
    [listLayout] with its pool of recycled rows and its separators.

    Conventions of the embedding.
    - Go's [float32] quantities (sizes, positions, offsets, heights) are
      exact rationals [Q]: [+ - * /] are exact and [math.Floor] /
      [math.Ceil] are [Qfloor] / [Qceiling].  Comparisons are the boolean
      ones of [Q].  Rounding, infinities and NaN are not represented: the
      embedding computes what the program computes wherever the [float32]
      operations are exact, as on the integer sizes and offsets of the
      examples.  Elsewhere the program rounds every intermediate result,
      and two expressions that are equal here (the closed formula of
      [scrollTo] and its loop, the height of [MinSize] and the sum of the
      rows, an offset and the floor it was made from) can differ there.
      None of the further properties at the end of this file equates two
      such expressions: each is stated over one computation of the
      program at a time.
    - Go's [int] (item identifiers, counts, loop indices) is [Z].
    - [*listItem] pointers are addresses [nat] into a heap [gmap nat listItem].
    - Go maps are [gmap]; a [nil] map and an empty map are the same value.
      Iteration over a map follows [map_to_list] (Go leaves the order open).
    - A run-time panic (nil dereference, negative [make], index out of
      range) is the outcome [Panic], which keeps the state reached so far.
    - Caller-supplied callbacks are opaque: invoking one appends an event to
      the trace and does not touch the widget.  [Length] and [CreateItem]
      answer the same way on every call until the field is assigned again.
    - The scroll container, the canvas with its focus and the theme are
      collaborators outside [list.go]; they appear as the fields the list
      reads and writes. *)

From Stdlib Require Import ZArith QArith Qround Lqa.
From stdpp Require Import gmap list.

(** ** Geometry *)

Definition ListItemID := Z.

Record Size := NewSize { Width : Q; Height : Q }.
Record Position := NewPos { X : Q; Y : Q }.

Definition IsZero (s : Size) : bool :=
  Qeq_bool (Width s) 0 && Qeq_bool (Height s) 0.

Definition Size_eqb (a b : Size) : bool :=
  Qeq_bool (Width a) (Width b) && Qeq_bool (Height a) (Height b).

(** [x < y] on floats. *)
Definition Qlt_bool (x y : Q) : bool := negb (Qle_bool y x).

(** ** The objects of the scene *)

Inductive Color := HoverColor | SelectionColor.

(** [canvas.Rectangle], as far as [listItem] uses it. *)
Record Rectangle := mkRectangle { FillColor : Color; rectVisible : bool }.

(** [listItem]: one recyclable row.  [onTapped] is the closure
    [func() { l.list.Select(id) }], represented by the [id] it captures. *)
Record listItem := mkListItem {
  itemPos : Position;
  itemSize : Size;
  onTapped : option ListItemID;
  background : option Rectangle;
  hovered : bool;
  itemSelected : bool
}.

(** [newListItem(child, tapped)] with [tapped == nil]. *)
Definition newListItem : listItem :=
  mkListItem (NewPos 0 0) (NewSize 0 0) None None false false.

(** A separator widget, recorded by what the list has done to it: the last
    [Move], the last [Resize], and whether [Show] has been applied. *)
Record Separator := mkSeparator {
  sepPos : option Position;
  sepSize : option Size;
  sepShown : bool
}.

Definition NewSeparator : Separator := mkSeparator None None false.

Inductive CanvasObject :=
| ObjItem (p : nat)
| ObjSeparator (s : Separator).

(** [widget.Scroll], as far as the list reads and writes it. *)
Record Scroll := mkScroll {
  Offset : Position;
  scrollSize : Size;
  Content : list CanvasObject
}.

(** The theme provider. *)
Record Theme := mkTheme { Padding : Q; SeparatorThicknessSize : Q }.

(** ** The widget *)

(** [List].  A callback field is [None] / [false] when it is [nil].
    [Length] returns the item count; [CreateItem] builds a template whose
    minimum size is the given one. *)
Record List := mkList {
  Length : option Z;
  CreateItem : option Size;
  UpdateItem : bool;
  OnSelected : bool;
  OnUnselected : bool;
  baseSize : Size;
  scroller : option Scroll;
  selected : list ListItemID;
  itemMin : Size;
  itemHeights : gmap Z Q;
  offsetY : Q
}.

(** [listLayout]. *)
Record listLayout := mkLayout {
  separators : list Separator;
  children : list nat;
  itemPool : list nat;
  visible : gmap Z nat
}.

Inductive Event :=
| EvLogError
| EvUpdateItem (id : ListItemID) (item : nat)
| EvRefresh
| EvCanvasRefresh
| EvOnSelected (id : ListItemID)
| EvOnUnselected (id : ListItemID).

Record World := mkWorld {
  theme : Theme;
  widget : List;
  layout : listLayout;
  heap : gmap nat listItem;
  nextItem : nat;
  canvasFocus : option nat;
  trace : list Event
}.

(** *** Field updates *)

Definition withScroller (v : option Scroll) (l : List) : List :=
  mkList (Length l) (CreateItem l) (UpdateItem l) (OnSelected l) (OnUnselected l)
         (baseSize l) v (selected l) (itemMin l) (itemHeights l) (offsetY l).
Definition withSelected (v : list ListItemID) (l : List) : List :=
  mkList (Length l) (CreateItem l) (UpdateItem l) (OnSelected l) (OnUnselected l)
         (baseSize l) (scroller l) v (itemMin l) (itemHeights l) (offsetY l).
Definition withItemMin (v : Size) (l : List) : List :=
  mkList (Length l) (CreateItem l) (UpdateItem l) (OnSelected l) (OnUnselected l)
         (baseSize l) (scroller l) (selected l) v (itemHeights l) (offsetY l).
Definition withItemHeights (v : gmap Z Q) (l : List) : List :=
  mkList (Length l) (CreateItem l) (UpdateItem l) (OnSelected l) (OnUnselected l)
         (baseSize l) (scroller l) (selected l) (itemMin l) v (offsetY l).
Definition withOffsetY (v : Q) (l : List) : List :=
  mkList (Length l) (CreateItem l) (UpdateItem l) (OnSelected l) (OnUnselected l)
         (baseSize l) (scroller l) (selected l) (itemMin l) (itemHeights l) v.
Definition withBaseSize (v : Size) (l : List) : List :=
  mkList (Length l) (CreateItem l) (UpdateItem l) (OnSelected l) (OnUnselected l)
         v (scroller l) (selected l) (itemMin l) (itemHeights l) (offsetY l).

(** Assigning the public hooks [OnSelected] and [OnUnselected]. *)
Definition withHooks (onSelected onUnselected : bool) (l : List) : List :=
  mkList (Length l) (CreateItem l) (UpdateItem l) onSelected onUnselected
         (baseSize l) (scroller l) (selected l) (itemMin l) (itemHeights l) (offsetY l).

Definition withSeparators (v : list Separator) (ly : listLayout) : listLayout :=
  mkLayout v (children ly) (itemPool ly) (visible ly).
Definition withChildren (v : list nat) (ly : listLayout) : listLayout :=
  mkLayout (separators ly) v (itemPool ly) (visible ly).
Definition withItemPool (v : list nat) (ly : listLayout) : listLayout :=
  mkLayout (separators ly) (children ly) v (visible ly).
Definition withVisible (v : gmap Z nat) (ly : listLayout) : listLayout :=
  mkLayout (separators ly) (children ly) (itemPool ly) v.

Definition withWidget (f : List -> List) (w : World) : World :=
  mkWorld (theme w) (f (widget w)) (layout w) (heap w) (nextItem w)
          (canvasFocus w) (trace w).
Definition withLayout (f : listLayout -> listLayout) (w : World) : World :=
  mkWorld (theme w) (widget w) (f (layout w)) (heap w) (nextItem w)
          (canvasFocus w) (trace w).
Definition withHeap (f : gmap nat listItem -> gmap nat listItem) (w : World) : World :=
  mkWorld (theme w) (widget w) (layout w) (f (heap w)) (nextItem w)
          (canvasFocus w) (trace w).
Definition withNextItem (v : nat) (w : World) : World :=
  mkWorld (theme w) (widget w) (layout w) (heap w) v (canvasFocus w) (trace w).
Definition withCanvasFocus (v : option nat) (w : World) : World :=
  mkWorld (theme w) (widget w) (layout w) (heap w) (nextItem w) v (trace w).
Definition withTrace (f : list Event -> list Event) (w : World) : World :=
  mkWorld (theme w) (widget w) (layout w) (heap w) (nextItem w)
          (canvasFocus w) (f (trace w)).

(** ** Computations that may panic *)

Inductive Res (A : Type) : Type :=
| Ok (a : A) (w : World)
| Panic (w : World).
Arguments Ok {A} a w.
Arguments Panic {A} w.

Definition M (A : Type) : Type := World -> Res A.

Definition stateOf {A} (r : Res A) : World :=
  match r with Ok _ w => w | Panic w => w end.

#[global] Instance M_ret : MRet M := fun A a w => Ok a w.
#[global] Instance M_bind : MBind M := fun A B f m w =>
  match m w with
  | Ok a w' => f a w'
  | Panic w' => Panic w'
  end.

Definition get : M World := fun w => Ok w w.
Definition modify (f : World -> World) : M unit := fun w => Ok tt (f w).
Definition panic {A} : M A := fun w => Panic w.
Definition emit (e : Event) : M unit := modify (withTrace (fun t => t ++ [e])).

(** [defer]: the deferred call runs when the body returns and also when it
    panics; a panic of the body keeps propagating afterwards. *)
Definition defer (deferred body : M unit) : M unit := fun w =>
  match body w with
  | Ok _ w' => deferred w'
  | Panic w' => Panic (stateOf (deferred w'))
  end.

(** ** The visible range: [List.visibleItemHeights] *)

Section VisibleRows.
Variables (padding : Q) (heights : gmap Z Q) (scrollY viewHeight itemHeight : Q).

(** The body of [for i := 0; i < length; i++], with [n] iterations left.
    [rowOffset] is the running sum of the loop; it is exact here and
    rounded at every addition in the program. *)
Fixpoint scanRows (n : nat) (i : Z) (rowOffset : Q) (isVisible : bool)
    (visibleRows : list Q) (offY : Q) (minRow : Z) : list Q * Q * Z :=
  match n with
  | O => (visibleRows, offY, minRow)
  | S n' =>
    let height := default itemHeight (heights !! i) in
    let '(minRow, offY, isVisible) :=
      if Qle_bool rowOffset (scrollY - height - padding)%Q
      then (minRow, offY, isVisible)
      else if Qle_bool rowOffset scrollY
           then (i, rowOffset, true)
           else (minRow, offY, isVisible) in
    if Qle_bool (scrollY + viewHeight)%Q rowOffset
    then (visibleRows, offY, minRow)
    else
      let rowOffset := (rowOffset + (height + padding))%Q in
      let visibleRows :=
        if isVisible then visibleRows ++ [height] else visibleRows in
      scanRows n' (i + 1)%Z rowOffset isVisible visibleRows offY minRow
  end.

(** The branch [len(l.itemHeights) == 0]; [None] is the panic of [make]
    with a negative length.  The quotients are exact here; the program
    rounds them before [math.Floor] and [math.Ceil].  The three clamps that
    follow are integer comparisons in the program as well. *)
Definition uniformRows (length : Z) : option (list Q * Q * Z) :=
  let paddedItemHeight := (itemHeight + padding)%Q in
  let offY :=
    (inject_Z (Qfloor (scrollY / paddedItemHeight)) * paddedItemHeight)%Q in
  let minRow := Qfloor (offY / paddedItemHeight) in
  let maxRow := Qceiling ((offY + viewHeight) / paddedItemHeight) in
  let minRow := if (length - 1 <? minRow)%Z then (length - 1)%Z else minRow in
  let '(minRow, offY) :=
    if (minRow <? 0)%Z then (0%Z, 0%Q) else (minRow, offY) in
  let maxRow := if (length <? maxRow)%Z then length else maxRow in
  if (maxRow - minRow <? 0)%Z then None
  else Some (replicate (Z.to_nat (maxRow - minRow)) itemHeight, offY, minRow).
End VisibleRows.

Definition visibleItemHeights (th : Theme) (l : List) (itemHeight : Q)
    (length : Z) : option (list Q * Q * Z) :=
  match scroller l with
  | None => None
  | Some sc =>
    if Qle_bool (Height (scrollSize sc)) 0 then Some ([], 0%Q, 0%Z)
    else
      let padding := Padding th in
      if (size (itemHeights l) =? 0)%nat
      then uniformRows padding (offsetY l) (Height (scrollSize sc)) itemHeight length
      else Some (scanRows padding (itemHeights l) (offsetY l)
                          (Height (scrollSize sc)) itemHeight
                          (Z.to_nat length) 0%Z 0%Q false [] 0%Q 0%Z)
  end.

(** ** Row positions: the target of [scrollTo] and [listLayout.MinSize] *)

Section RowSums.
Variables (separatorThickness : Q) (heights : gmap Z Q) (templateHeight : Q).

(** [for i := 0; i < id; i++ { y += height + separatorThickness }]. *)
Fixpoint rowsAbove (n : nat) (i : Z) (y : Q) : Q :=
  match n with
  | O => y
  | S n' =>
    let height := default templateHeight (heights !! i) in
    rowsAbove n' (i + 1)%Z (y + (height + separatorThickness))%Q
  end.

(** [for item := 0; item < items; item++ { height += ... }]. *)
Fixpoint sumHeights (n : nat) (item : Z) (height : Q) : Q :=
  match n with
  | O => height
  | S n' =>
    sumHeights n' (item + 1)%Z
               (height + default templateHeight (heights !! item))%Q
  end.
End RowSums.

(** The [y] that [scrollTo] computes for row [id]: two products for a list
    without overrides, the running sum of the loop otherwise.  The two are
    different computations; they are equal in exact arithmetic only. *)
Definition rowY (th : Theme) (l : List) (id : ListItemID) : Q :=
  let separatorThickness := Padding th in
  if (size (itemHeights l) =? 0)%nat
  then (inject_Z id * Height (itemMin l) + inject_Z id * separatorThickness)%Q
  else rowsAbove separatorThickness (itemHeights l) (Height (itemMin l))
                 (Z.to_nat id) 0%Z 0%Q.

(** The offset that [scrollTo] leaves in the scroller. *)
Definition scrolledOffsetY (y templateHeight : Q) (sc : Scroll) : Q :=
  if Qlt_bool y (Y (Offset sc)) then y
  else if Qlt_bool (Y (Offset sc) + Height (scrollSize sc))%Q
                   (y + templateHeight)%Q
       then (y + templateHeight - Height (scrollSize sc))%Q
       else Y (Offset sc).

(** [listLayout.MinSize]: a product for a list without overrides, a sum of
    the heights plus a product of the paddings otherwise.  Neither is the running sum of
    [scrollTo]; they are equal to it in exact arithmetic only. *)
Definition layoutMinSize (th : Theme) (l : List) : Size :=
  match Length l with
  | None => NewSize 0 0
  | Some items =>
    let separatorThickness := Padding th in
    if (size (itemHeights l) =? 0)%nat
    then NewSize (Width (itemMin l))
                 ((Height (itemMin l) + separatorThickness) * inject_Z items
                  - separatorThickness)%Q
    else
      let height := sumHeights (itemHeights l) (Height (itemMin l))
                               (Z.to_nat items) 0%Z 0%Q in
      NewSize (Width (itemMin l))
              (height + separatorThickness * inject_Z (items - 1))%Q
  end.

(** [length := 0; if f := l.Length; f != nil { length = f() }]. *)
Definition lengthOf (l : List) : Z :=
  match Length l with Some n => n | None => 0%Z end.

(** ** Rows on the heap *)

Definition withItemPos (v : Position) (it : listItem) : listItem :=
  mkListItem v (itemSize it) (onTapped it) (background it) (hovered it) (itemSelected it).
Definition withItemSize (v : Size) (it : listItem) : listItem :=
  mkListItem (itemPos it) v (onTapped it) (background it) (hovered it) (itemSelected it).
Definition withOnTapped (v : option ListItemID) (it : listItem) : listItem :=
  mkListItem (itemPos it) (itemSize it) v (background it) (hovered it) (itemSelected it).
Definition withBackground (v : option Rectangle) (it : listItem) : listItem :=
  mkListItem (itemPos it) (itemSize it) (onTapped it) v (hovered it) (itemSelected it).
Definition withHovered (v : bool) (it : listItem) : listItem :=
  mkListItem (itemPos it) (itemSize it) (onTapped it) (background it) v (itemSelected it).
Definition withItemSelected (v : bool) (it : listItem) : listItem :=
  mkListItem (itemPos it) (itemSize it) (onTapped it) (background it) (hovered it) v.

Definition deref (w : World) (p : nat) : listItem :=
  default newListItem (heap w !! p).

(** A write through the pointer [p]. *)
Definition updItem (p : nat) (f : listItem -> listItem) : M unit :=
  modify (withHeap (alter f p)).

(** [listItemRenderer.Refresh]; the rectangle is the one that
    [listItem.CreateRenderer] makes (hover colour, hidden) when the row has
    not been rendered before. *)
Definition refreshedBackground (it : listItem) : Rectangle :=
  let bg := default (mkRectangle HoverColor false) (background it) in
  if itemSelected it then mkRectangle SelectionColor true
  else if hovered it then mkRectangle HoverColor true
  else mkRectangle (FillColor bg) false.

Definition itemRefresh (p : nat) : M unit :=
  updItem p (fun it => withBackground (Some (refreshedBackground it)) it).

(** ** The pool of idle rows *)

(** Modelled from the spec: [syncPool] is declared outside [list.go].  The
    pool is a free list of idle rows; [Obtain] pops one idle row if there is
    one and signals a miss otherwise, [Release] returns a row to the idle
    set. *)
Definition Obtain (pool : list nat) : option (nat * list nat) :=
  match pool with
  | p :: pool' => Some (p, pool')
  | [] => None
  end.

(** Modelled from the spec: see [Obtain]. *)
Definition Release (p : nat) (pool : list nat) : list nat := p :: pool.

(** ** [listLayout] *)

(** [listLayout.getItem]: with an empty pool and no [CreateItem] the
    interface value stays [nil] and the type assertion panics. *)
Definition getItem : M nat :=
  w ← get;
  match Obtain (itemPool (layout w)) with
  | Some (p, pool') => modify (withLayout (withItemPool pool'));; mret p
  | None =>
    match CreateItem (widget w) with
    | Some _ =>
      modify (fun w => withNextItem (S (nextItem w))
                         (withHeap (insert (nextItem w) newListItem) w));;
      mret (nextItem w)
    | None => panic
    end
  end.

(** [listLayout.setupListItem]. *)
Definition setupListItem (li : nat) (id : ListItemID) (focus : bool) : M unit :=
  w ← get;
  let previousIndicator := itemSelected (deref w li) in
  let nowSelected := existsb (Z.eqb id) (selected (widget w)) in
  updItem li (withItemSelected nowSelected);;
  (if focus then
     updItem li (withHovered true);; itemRefresh li
   else if xorb previousIndicator nowSelected || hovered (deref w li) then
     updItem li (withHovered false);; itemRefresh li
   else mret tt);;
  (if UpdateItem (widget w) then emit (EvUpdateItem id li) else mret tt);;
  updItem li (withOnTapped (Some id)).

(** The separator at index [i], after [Move], [Resize] and [Show]. *)
Definition placedSeparator (th : Theme) (width childY : Q) : Separator :=
  let separatorThickness := SeparatorThicknessSize th in
  let dividerOff := ((Padding th + separatorThickness) / 2)%Q in
  mkSeparator (Some (NewPos 0 (childY - dividerOff)%Q))
              (Some (NewSize width separatorThickness)) true.

(** [for i, child := range l.children] of [updateSeparators]; [None] is an
    index out of range. *)
Fixpoint placeSeparators (th : Theme) (w : World) (cs : list nat) (i : nat)
    (seps : list Separator) : option (list Separator) :=
  match cs with
  | [] => Some seps
  | child :: cs' =>
    if (i =? 0)%nat then placeSeparators th w cs' (S i) seps
    else
      match seps !! i with
      | None => None
      | Some _ =>
        placeSeparators th w cs' (S i)
          (<[i := placedSeparator th (Width (baseSize (widget w)))
                                  (Y (itemPos (deref w child)))]> seps)
      end
  end.

(** The first half of [updateSeparators]: the slice is cut or grown to the
    number of children, or dropped. *)
Definition resizeSeparators (nChildren : nat) (seps : list Separator)
    : list Separator :=
  if (1 <? nChildren)%nat then
    if (nChildren <? length seps)%nat then take nChildren seps
    else seps ++ replicate (nChildren - length seps) NewSeparator
  else [].

Definition updateSeparators : M unit :=
  w ← get;
  let seps := resizeSeparators (length (children (layout w)))
                               (separators (layout w)) in
  modify (withLayout (withSeparators seps));;
  match placeSeparators (theme w) w (children (layout w)) 0 seps with
  | Some seps' => modify (withLayout (withSeparators seps'))
  | None => panic
  end.

(** The first loop of [updateList]: every visible row takes the view it had
    in [wasVisible], or a view from [getItem].  [getItem] returns a view or
    panics, so the branch [if c == nil { continue }] is never taken and
    [cells] is filled from left to right. *)
Fixpoint mountRows (wasVisible : gmap Z nat) (width separatorThickness : Q)
    (minRow : Z) (rowHeights : list Q) (index : Z) (y : Q)
    (vis : gmap Z nat) (cells : list nat) : M (gmap Z nat * list nat) :=
  match rowHeights with
  | [] => mret (vis, cells)
  | itemHeight :: rest =>
    let row := (index + minRow)%Z in
    let size := NewSize width itemHeight in
    c ← match wasVisible !! row with
        | Some c => mret c
        | None => c ← getItem; updItem c (withItemSize size);; mret c
        end;
    updItem c (withItemPos (NewPos 0 y));;
    updItem c (withItemSize size);;
    mountRows wasVisible width separatorThickness minRow rest (index + 1)%Z
              (y + (itemHeight + separatorThickness))%Q
              (<[row := c]> vis) (cells ++ [c])
  end.

(** [for id, old := range wasVisible]: rows that left the viewport lose the
    focus if they had it and go back to the pool. *)
Fixpoint releaseHidden (focused : option nat) (was : list (Z * nat)) : M unit :=
  match was with
  | [] => mret tt
  | (id, old) :: rest =>
    w ← get;
    match visible (layout w) !! id with
    | Some _ => mret tt
    | None =>
      (if bool_decide (focused = Some old)
       then modify (withCanvasFocus None) else mret tt);;
      modify (withLayout (fun ly => withItemPool (Release old (itemPool ly)) ly))
    end;;
    releaseHidden focused rest
  end.

(** [for row, obj := range visible { l.setupListItem(...) }]. *)
Fixpoint setupRows (focused : option nat) (vis : list (Z * nat)) : M unit :=
  match vis with
  | [] => mret tt
  | (row, obj) :: rest =>
    setupListItem obj row (bool_decide (focused = Some obj));;
    setupRows focused rest
  end.

(** The assignment of [objects] to the [Objects] of the scroller's content. *)
Definition publish : M unit :=
  w ← get;
  match scroller (widget w) with
  | None => panic
  | Some sc =>
    let objects := (ObjItem <$> children (layout w))
                   ++ (ObjSeparator <$> separators (layout w)) in
    modify (withWidget (withScroller
              (Some (mkScroll (Offset sc) (scrollSize sc) objects))))
  end.

(** [listLayout.updateList]. *)
Definition updateList (refresh : bool) : M unit :=
  w ← get;
  let separatorThickness := Padding (theme w) in
  let width := Width (baseSize (widget w)) in
  let length := lengthOf (widget w) in
  (if UpdateItem (widget w) then mret tt else emit EvLogError);;
  let wasVisible := visible (layout w) in
  match visibleItemHeights (theme w) (widget w)
                           (Height (itemMin (widget w))) length with
  | None => panic
  | Some (visibleRowHeights, offY, minRow) =>
    if (List.length visibleRowHeights =? 0)%nat && (0 <? length)%Z
    then mret tt
    else
      '(vis, cells) ← mountRows wasVisible width separatorThickness minRow
                                visibleRowHeights 0%Z offY ∅ [];
      modify (withLayout (withVisible vis));;
      w' ← get;
      let focused := canvasFocus w' in
      releaseHidden focused (map_to_list wasVisible);;
      modify (withLayout (withChildren cells));;
      updateSeparators;;
      publish;;
      setupRows focused (map_to_list vis)
  end.

(** [listLayout.offsetUpdated]. *)
Definition offsetUpdated (pos : Position) : M unit :=
  w ← get;
  if Qeq_bool (offsetY (widget w)) (Y pos) then mret tt
  else
    modify (withWidget (withOffsetY (Y pos)));;
    updateList false.

(** ** The renderer *)

(** [listRenderer.Layout]: [l.scroller.Resize(size)]. *)
Definition rendererLayout (size : Size) : M unit :=
  w ← get;
  match scroller (widget w) with
  | None => panic
  | Some sc =>
    modify (withWidget (withScroller
              (Some (mkScroll (Offset sc) size (Content sc)))))
  end.

(** [List.CreateRenderer].  The container starts with size zero, so
    [layout.Resize(layout.MinSize())] lays out (and runs [updateList]) only
    when the minimum size is not zero. *)
Definition CreateRenderer : M unit :=
  w ← get;
  match CreateItem (widget w) with
  | Some sz =>
    if IsZero (itemMin (widget w))
    then modify (withWidget (withItemMin sz)) else mret tt
  | None => mret tt
  end;;
  modify (withWidget (withScroller
            (Some (mkScroll (NewPos 0 0) (NewSize 0 0) []))));;
  modify (withLayout (fun _ => mkLayout [] [] [] ∅));;
  w' ← get;
  if Size_eqb (layoutMinSize (theme w') (widget w')) (NewSize 0 0)
  then mret tt else updateList true.

(** [listRenderer.Refresh].  The scroll container is an external
    collaborator: [l.scroller.Refresh()] redraws it and is invisible here,
    as is whatever the container does on its own when it is resized.
    [canvas.Refresh] is the event [EvCanvasRefresh]. *)
Definition rendererRefresh : M unit :=
  w ← get;
  match CreateItem (widget w) with
  | Some sz => modify (withWidget (withItemMin sz))
  | None => mret tt
  end;;
  rendererLayout (baseSize (widget w));;
  updateList true;;
  emit EvCanvasRefresh.

(** Modelled from the spec: [BaseWidget.Refresh] is declared outside
    [list.go].  An explicit refresh is an invalidation: the layout engine
    recomputes the visible range and reconciles the mounted views, through
    the renderer, which is made by [CreateRenderer] when the widget has
    none yet.  The call itself is the event [EvRefresh]. *)
Definition Refresh : M unit :=
  emit EvRefresh;;
  w ← get;
  match scroller (widget w) with
  | None => CreateRenderer
  | Some _ => mret tt
  end;;
  rendererRefresh.

(** Modelled from the spec: [BaseWidget.Resize] is declared outside
    [list.go].  A resize to the current size does nothing; otherwise the
    size is stored and the renderer lays the viewport out at that size. *)
Definition baseResize (s : Size) : M unit :=
  w ← get;
  if Size_eqb (baseSize (widget w)) s then mret tt
  else
    modify (withWidget (withBaseSize s));;
    match scroller (widget w) with
    | None => CreateRenderer
    | Some _ => mret tt
    end;;
    rendererLayout s.

(** ** The facade [List] *)

(** [NewList]. *)
Definition NewList (th : Theme) (length : option Z) (createItem : option Size)
    (updateItem : bool) : World :=
  mkWorld th
          (mkList length createItem updateItem false false (NewSize 0 0) None []
                  (NewSize 0 0) ∅ 0%Q)
          (mkLayout [] [] [] ∅) ∅ 0 None [].

(** [List.SetItemHeight]. *)
Definition SetItemHeight (id : ListItemID) (height : Q) : M unit :=
  w ← get;
  let refresh :=
    negb (Qeq_bool (default 0%Q (itemHeights (widget w) !! id)) height) in
  modify (withWidget (fun l => withItemHeights (<[id := height]> (itemHeights l)) l));;
  if refresh then Refresh else mret tt.

(** [List.scrollTo]. *)
Definition scrollTo (id : ListItemID) : M unit :=
  w ← get;
  match scroller (widget w) with
  | None => mret tt
  | Some sc =>
    let y := rowY (theme w) (widget w) id in
    let offset :=
      NewPos (X (Offset sc))
             (scrolledOffsetY y (Height (itemMin (widget w))) sc) in
    modify (withWidget (withScroller
              (Some (mkScroll offset (scrollSize sc) (Content sc)))));;
    offsetUpdated offset
  end.

(** [List.Resize]. *)
Definition Resize (s : Size) : M unit :=
  baseResize s;;
  w ← get;
  match scroller (widget w) with
  | None => mret tt
  | Some sc => offsetUpdated (Offset sc);; updateList true
  end.

(** The deferred function of [Select]. *)
Definition selectCallbacks (old : list ListItemID) (id : ListItemID) : M unit :=
  w ← get;
  match old with
  | o :: _ => if OnUnselected (widget w) then emit (EvOnUnselected o) else mret tt
  | [] => mret tt
  end;;
  if OnSelected (widget w) then emit (EvOnSelected id) else mret tt.

(** [List.Select]. *)
Definition Select (id : ListItemID) : M unit :=
  w ← get;
  if match selected (widget w) with
     | s :: _ => (id =? s)%Z
     | [] => false
     end
  then mret tt
  else
    let length := lengthOf (widget w) in
    if (id <? 0)%Z || (length <=? id)%Z then mret tt
    else
      let old := selected (widget w) in
      modify (withWidget (withSelected [id]));;
      defer (selectCallbacks old id) (scrollTo id;; Refresh).

(** [List.ScrollTo]. *)
Definition ScrollTo (id : ListItemID) : M unit :=
  w ← get;
  let length := lengthOf (widget w) in
  if (id <? 0)%Z || (length <=? id)%Z then mret tt
  else scrollTo id;; Refresh.

(** [List.ScrollToBottom]. *)
Definition ScrollToBottom : M unit :=
  w ← get;
  let length := lengthOf (widget w) in
  let length := if (0 <? length)%Z then (length - 1)%Z else length in
  scrollTo length;; Refresh.

(** [List.ScrollToTop]. *)
Definition ScrollToTop : M unit :=
  scrollTo 0%Z;; Refresh.

(** [for _, id := range selected { f(id) }]. *)
Fixpoint unselectCallbacks (ids : list ListItemID) : M unit :=
  match ids with
  | [] => mret tt
  | id :: rest => emit (EvOnUnselected id);; unselectCallbacks rest
  end.

(** [List.Unselect]. *)
Definition Unselect (id : ListItemID) : M unit :=
  w ← get;
  match selected (widget w) with
  | [] => mret tt
  | s :: _ =>
    if negb (s =? id)%Z then mret tt
    else
      modify (withWidget (withSelected []));;
      Refresh;;
      if OnUnselected (widget w) then emit (EvOnUnselected id) else mret tt
  end.

(** [List.UnselectAll]. *)
Definition UnselectAll : M unit :=
  w ← get;
  match selected (widget w) with
  | [] => mret tt
  | _ :: _ =>
    let was := selected (widget w) in
    modify (withWidget (withSelected []));;
    Refresh;;
    if OnUnselected (widget w) then unselectCallbacks was else mret tt
  end.

(** [listItem.Tapped] on the row at address [li]. *)
Definition Tapped (li : nat) : M unit :=
  w ← get;
  match onTapped (deref w li) with
  | None => mret tt
  | Some id =>
    updItem li (withItemSelected true);;
    itemRefresh li;;
    Select id
  end.

(** The scroll container reports a new offset through [OnScrolled], which
    [newListRenderer] binds to [offsetUpdated]. *)
Definition OnScrolled (pos : Position) : M unit :=
  w ← get;
  match scroller (widget w) with
  | None => mret tt
  | Some sc =>
    modify (withWidget (withScroller
              (Some (mkScroll pos (scrollSize sc) (Content sc)))));;
    offsetUpdated pos
  end.

(** The operations a client can apply to the widget. *)
Inductive Op :=
| OpSelect (id : ListItemID)
| OpUnselect (id : ListItemID)
| OpUnselectAll
| OpScrollTo (id : ListItemID)
| OpScrollToTop
| OpScrollToBottom
| OpSetItemHeight (id : ListItemID) (height : Q)
| OpResize (s : Size)
| OpRefresh
| OpTapped (li : nat)
| OpScrolled (pos : Position).

Definition runOp (o : Op) : M unit :=
  match o with
  | OpSelect id => Select id
  | OpUnselect id => Unselect id
  | OpUnselectAll => UnselectAll
  | OpScrollTo id => ScrollTo id
  | OpScrollToTop => ScrollToTop
  | OpScrollToBottom => ScrollToBottom
  | OpSetItemHeight id height => SetItemHeight id height
  | OpResize s => Resize s
  | OpRefresh => Refresh
  | OpTapped li => Tapped li
  | OpScrolled pos => OnScrolled pos
  end.

(** A client that keeps calling after a panic it recovered from still sees
    the state the panic left behind. *)
Fixpoint runOps (os : list Op) (w : World) : World :=
  match os with
  | [] => w
  | o :: rest => runOps rest (stateOf (runOp o w))
  end.

(** ** Vocabulary of the properties *)

(** *** Rows and the viewport *)

(** Height of row [i]: its override, or the template height. *)
Definition rowHeight (l : List) (i : Z) : Q :=
  default (Height (itemMin l)) (itemHeights l !! i).

(** Top of row [i] in content coordinates: the heights of the rows above
    it, each followed by one separator padding. *)
Definition rowTop (th : Theme) (l : List) (i : Z) : Q :=
  rowsAbove (Padding th) (itemHeights l) (Height (itemMin l)) (Z.to_nat i) 0%Z 0%Q.

(** The rectangle of row [i] meets [[top, top + extent)]. *)
Definition rowIntersects (th : Theme) (l : List) (top extent : Q) (i : Z) : Prop :=
  (rowTop th l i < top + extent)%Q /\ (top < rowTop th l i + rowHeight l i)%Q.

(** The rectangle of row [i] lies inside [[top, top + extent)]. *)
Definition rowWithin (th : Theme) (l : List) (top extent : Q) (i : Z) : Prop :=
  (top <= rowTop th l i)%Q /\
  (rowTop th l i + rowHeight l i <= top + extent)%Q.

(** The indices that a result of [visibleItemHeights] stands for. *)
Definition returnedRow (r : list Q * Q * Z) (i : Z) : Prop :=
  let '(rows, _, minRow) := r in
  (minRow <= i < minRow + Z.of_nat (length rows))%Z.

(** *** Events *)

Definition isSelection (e : Event) : bool :=
  match e with
  | EvOnSelected _ | EvOnUnselected _ => true
  | _ => false
  end.

(** The selection callbacks among some events, in order. *)
Definition selectionCallbacks (evs : list Event) : list Event :=
  List.filter isSelection evs.

Definition isQuiet (e : Event) : bool :=
  match e with
  | EvLogError | EvUpdateItem _ _ => true
  | _ => false
  end.


(** *** What a reconciliation pass leaves alone *)

(** Two scrollers that differ at most in the published content. *)
Definition sameViewport (a b : option Scroll) : Prop :=
  match a, b with
  | None, None => True
  | Some sa, Some sb => Offset sb = Offset sa /\ scrollSize sb = scrollSize sa
  | _, _ => False
  end.

(** [w'] comes after [w] by steps that touch only the layout, the rows, the
    focus and the published content, and that call nothing but [UpdateItem]
    and the logger. *)
Record Frame (w w' : World) : Prop := mkFrame {
  frame_theme : theme w' = theme w;
  frame_widget : withScroller None (widget w') = withScroller None (widget w);
  frame_viewport : sameViewport (scroller (widget w)) (scroller (widget w'));
  frame_trace : exists evs,
      trace w' = trace w ++ evs /\ forallb isQuiet evs = true
}.

(** [w'] comes after [w] by steps that leave the callbacks, the selection
    and the height overrides alone and fire no selection callback. *)
Record SelFrame (w w' : World) : Prop := mkSelFrame {
  sel_theme : theme w' = theme w;
  sel_Length : Length (widget w') = Length (widget w);
  sel_CreateItem : CreateItem (widget w') = CreateItem (widget w);
  sel_UpdateItem : UpdateItem (widget w') = UpdateItem (widget w);
  sel_OnSelected : OnSelected (widget w') = OnSelected (widget w);
  sel_OnUnselected : OnUnselected (widget w') = OnUnselected (widget w);
  sel_selected : selected (widget w') = selected (widget w);
  sel_itemHeights : itemHeights (widget w') = itemHeights (widget w);
  sel_trace : exists evs,
      trace w' = trace w ++ evs /\ selectionCallbacks evs = []
}.

(** Every state reached by [m], also through a panic, is [R]-related to
    the state it started from. *)
Definition Keeps {A} (R : World -> World -> Prop) (m : M A) : Prop :=
  forall w, R w (stateOf (m w)).

(** *** States in which no operation panics *)


(** *** Selection *)

Definition atMostOneSelected (w : World) : Prop :=
  (length (selected (widget w)) <= 1)%nat.

(** If the selection had at most one index before, it has at most one after. *)
Definition keepsOne (w w' : World) : Prop :=
  atMostOneSelected w -> atMostOneSelected w'.


(** *** Passes *)

(** [m] never panics. *)
Definition Total {A} (m : M A) : Prop :=
  forall w, exists a w', m w = Ok a w'.

(** Row [row] is one of the [n] rows mounted from loop index [index]. *)
Definition mountedRow (minRow index : Z) (n : nat) (row : Z) : Prop :=
  (index + minRow <= row < index + minRow + Z.of_nat n)%Z.

(** [w'] comes after [w] by steps that keep the layout, the allocator, the
    focus and the place of every row. *)
Record Settled (w w' : World) : Prop := mkSettled {
  settled_theme : theme w' = theme w;
  settled_layout : layout w' = layout w;
  settled_nextItem : nextItem w' = nextItem w;
  settled_focus : canvasFocus w' = canvasFocus w;
  settled_pos : forall p, itemPos (deref w' p) = itemPos (deref w p)
}.

(** [w'] comes after [w] by steps that only return rows to the pool and
    clear the focus. *)
Record Released (w w' : World) : Prop := mkReleased {
  released_theme : theme w' = theme w;
  released_widget : widget w' = widget w;
  released_heap : heap w' = heap w;
  released_nextItem : nextItem w' = nextItem w;
  released_trace : trace w' = trace w;
  released_separators : separators (layout w') = separators (layout w);
  released_children : children (layout w') = children (layout w);
  released_visible : visible (layout w') = visible (layout w)
}.

(** [w'] comes after [w] by steps that leave the slice of separators alone. *)
Definition sameSeparators (w w' : World) : Prop :=
  separators (layout w') = separators (layout w).

(** The state in which [updateList] starts its work: the warning about a
    missing [UpdateItem] has been logged. *)
Definition logged (w : World) : World :=
  if UpdateItem (widget w) then w
  else withTrace (fun t => t ++ [EvLogError]) w.

(** *** Separators *)

(** How many separators the layout keeps for [n] children. *)
Definition separatorCount (n : nat) : nat := if (1 <? n)%nat then n else 0%nat.

(** ** Pointer and key events on a row *)

(** [listItem.FocusGained] and [listItem.MouseIn]:
    [li.hovered = true; li.Refresh()]. *)
Definition FocusGained (li : nat) : M unit :=
  updItem li (withHovered true);; itemRefresh li.

Definition MouseIn (li : nat) : M unit :=
  updItem li (withHovered true);; itemRefresh li.

(** [listItem.FocusLost] and [listItem.MouseOut]:
    [li.hovered = false; li.Refresh()]. *)
Definition FocusLost (li : nat) : M unit :=
  updItem li (withHovered false);; itemRefresh li.

Definition MouseOut (li : nat) : M unit :=
  updItem li (withHovered false);; itemRefresh li.

(** [listItem.TypedKey]; [space] tells whether the key is [fyne.KeySpace]. *)
Definition TypedKey (space : bool) (li : nat) : M unit :=
  if space then
    updItem li (withItemSelected true);;
    itemRefresh li;;
    w ← get;
    match onTapped (deref w li) with
    | Some id => Select id
    | None => mret tt
    end
  else mret tt.

(** [listLayout.Layout]. *)
Definition Layout : M unit := updateList true.

(** ** More vocabulary *)

(** [w'] has the selection of [w]. *)
Definition sameSelected (w w' : World) : Prop :=
  selected (widget w') = selected (widget w).

(** [w'] has the theme, the template size and the overrides of [w]: the
    rows are where they were. *)
Record SameRows (w w' : World) : Prop := mkSameRows {
  rows_theme : theme w' = theme w;
  rows_itemMin : itemMin (widget w') = itemMin (widget w);
  rows_itemHeights : itemHeights (widget w') = itemHeights (widget w)
}.

(** The scroller of [w'], when [w] has one, is at the offset of the
    scroller of [w]. *)
Definition sameOffset (w w' : World) : Prop :=
  match scroller (widget w), scroller (widget w') with
  | Some a, Some b => Offset b = Offset a
  | Some _, None => False
  | None, _ => True
  end.

(** The views that a map of mounted rows holds. *)
Definition viewsOf (vis : gmap Z nat) : list nat := (map_to_list vis).*2.

(** Every view ever created is either idle in the pool or mounted at one
    row, and never both; every view is on the heap; and no view exists
    before the renderer does. *)
Record Recycling (w : World) : Prop := mkRecycling {
  recycling_views :
    itemPool (layout w) ++ viewsOf (visible (layout w)) ≡ₚ seq 0 (nextItem w);
  recycling_heap : forall p, (p < nextItem w)%nat -> is_Some (heap w !! p);
  recycling_start : scroller (widget w) = None -> nextItem w = 0%nat
}.

(** A sequence of operations that all return. *)
Fixpoint runOpsOk (os : list Op) (w : World) : option World :=
  match os with
  | [] => Some w
  | o :: rest =>
    match runOp o w with
    | Ok _ w' => runOpsOk rest w'
    | Panic _ => None
    end
  end.

(** [m], when it returns, keeps [I]. *)
Definition Maintains {A} (I : World -> Prop) (m : M A) : Prop :=
  forall w a w', I w -> m w = Ok a w' -> I w'.

(** The fields that [setupListItem] leaves in the view bound to [row]. *)
Definition boundTo (l : List) (focused : option nat) (row : ListItemID)
    (c : nat) (it : listItem) : Prop :=
  itemSelected it = existsb (Z.eqb row) (selected l) /\
  onTapped it = Some row /\
  hovered it = bool_decide (focused = Some c).

(** The scroll position that the list records is the offset of its
    scroller; without a scroller it is zero. *)
Definition Synced (w : World) : Prop :=
  match scroller (widget w) with
  | Some sc => (offsetY (widget w) == Y (Offset sc))%Q
  | None => (offsetY (widget w) == 0)%Q
  end.

(** If the recorded position agreed with the scroller before, it does after. *)
Definition keepsSynced (w w' : World) : Prop := Synced w -> Synced w'.

(** The lazy creation of the renderer by the base widget. *)
Definition ensureRenderer : M unit :=
  w ← get;
  match scroller (widget w) with
  | None => CreateRenderer
  | Some _ => mret tt
  end.

(** ** Vocabulary of a reconciliation pass *)

(** The [y] of the cell at place [j] of a column of cells of heights [hs]
    that starts at [y0], each cell followed by [sep]. *)
Fixpoint cellY (sep : Q) (y0 : Q) (hs : list Q) (j : nat) : Q :=
  match j, hs with
  | S j', h :: hs' => cellY sep (y0 + (h + sep))%Q hs' j'
  | _, _ => y0
  end.

(** The state of the first loop of [updateList] when [cells] holds the
    views of the first rows: every view ever created is idle in the pool,
    or mounted in [vis], or waits in [was] for its row; [vis] holds the
    views of [cells] at the rows from [minRow] on. *)
Record Mounting (was : gmap Z nat) (minRow : Z) (vis : gmap Z nat)
    (cells : list nat) (w : World) : Prop := mkMounting {
  mounting_views :
    itemPool (layout w) ++ viewsOf (vis ∪ was) ≡ₚ seq 0 (nextItem w);
  mounting_heap : forall p, (p < nextItem w)%nat -> is_Some (heap w !! p);
  mounting_cells : forall j, vis !! (minRow + Z.of_nat j)%Z = cells !! j;
  mounting_keys : forall k, is_Some (vis !! k) ->
    (minRow <= k < minRow + Z.of_nat (length cells))%Z
}.

(** Every cell has the size of its row and lies in the column that starts
    at [y0]. *)
Definition Placed (width sep y0 : Q) (hs : list Q) (cells : list nat)
    (w : World) : Prop :=
  forall j c h, cells !! j = Some c -> hs !! j = Some h ->
    itemPos (deref w c) = NewPos 0 (cellY sep y0 hs j) /\
    itemSize (deref w c) = NewSize width h.

(** Every mounted view taps for the row it is mounted at. *)
Definition Bound (w : World) : Prop :=
  forall row c, visible (layout w) !! row = Some c ->
    onTapped (deref w c) = Some row.

(** [w'] comes after [w] by steps that leave the layout, the allocator, the
    set of views and their tap handlers alone, and that do not drop the
    scroller. *)
Record SameViews (w w' : World) : Prop := mkSameViews {
  views_layout : layout w' = layout w;
  views_nextItem : nextItem w' = nextItem w;
  views_scroller : scroller (widget w') = None -> scroller (widget w) = None;
  views_heap : forall p, is_Some (heap w' !! p) <-> is_Some (heap w !! p);
  views_onTapped : forall p, onTapped (deref w' p) = onTapped (deref w p)
}.



(** No event between [w] and [w']. *)
Definition sameTrace (w w' : World) : Prop := trace w' = trace w.

(** The focus is where it was. *)
Definition sameFocus (w w' : World) : Prop := canvasFocus w' = canvasFocus w.

(** Every view is accounted for and taps for its row. *)
Definition Coherent (w : World) : Prop := Recycling w /\ Bound w.

(** ** Example states *)

(** Separator padding 1, separator thickness 1. *)
Definition theme1 : Theme := mkTheme 1 1.

(** A list of 100 rows with a 100 x 20 template, laid out in a viewport of
    height 50, with both selection hooks installed. *)
Definition list100 : World :=
  stateOf (Resize (NewSize 100 50)
    (withWidget (withHooks true true)
       (NewList theme1 (Some 100%Z) (Some (NewSize 100 20)) true))).

(** The same list after the user has scrolled down by 20. *)
Definition list100_scrolled : World :=
  stateOf (OnScrolled (NewPos 0 20) list100).

(** The same list after [SetItemHeight(5, 40)], still at offset 0. *)
Definition list100_tall5 : World :=
  stateOf (SetItemHeight 5%Z 40%Q list100).

(** The list with the tall row 5, scrolled to offset 120, inside the span
    [[105, 145)] of row 5. *)
Definition list100_tall5_inside : World :=
  stateOf (OnScrolled (NewPos 0 120) list100_tall5).

(** The list of 100 rows after [Select(3)]. *)
Definition list100_selected3 : World :=
  stateOf (Select 3%Z list100).

(** A new list of 100 rows with a 100 x 20 template. *)
Definition list100_new : World :=
  NewList theme1 (Some 100%Z) (Some (NewSize 100 20)) true.

(** A session on the new list: it is laid out in a viewport of height 50,
    row 5 is made 40 high, the user scrolls to offset 120 and selects row
    7. *)
Definition session1 : list Op :=
  [OpResize (NewSize 100 50); OpSetItemHeight 5%Z 40%Q;
   OpScrolled (NewPos 0 120); OpSelect 7%Z].

Definition list100_session1 : World := runOps session1 list100_new.


(** The laid-out list of 100 rows when the view of row 1 has the focus and
    the scroll offset 120 has just been recorded: the state in which
    [offsetUpdated] starts its pass. *)
Definition list100_focused : World :=
  withWidget (withOffsetY 120) (withCanvasFocus (Some 1%nat) list100).

(** * Properties *)

(** ** Evaluation of closed goals *)

(** Splits conjunctions only, then evaluates closed goals. *)
Ltac split_conj := repeat match goal with |- _ /\ _ => split end.
Ltac by_evaluation :=
  split_conj;
  lazymatch goal with
  | |- ex _ => idtac
  | |- ~ _ => idtac
  | |- _ => vm_compute; first [reflexivity|discriminate|split; reflexivity]
  end.

(** ** Comparisons *)

Lemma Qlt_bool_true (x y : Q) : Qlt_bool x y = true -> (x < y)%Q.
Proof.
  unfold Qlt_bool. intros H. apply negb_true_iff in H.
  apply Qnot_le_lt. intros Hle. apply Qle_bool_iff in Hle. congruence.
Qed.

Lemma Qlt_bool_false (x y : Q) : Qlt_bool x y = false -> (y <= x)%Q.
Proof.
  unfold Qlt_bool. intros H. apply negb_false_iff in H.
  apply Qle_bool_iff, H.
Qed.

Lemma Qle_bool_false (x y : Q) : Qle_bool x y = false -> (y < x)%Q.
Proof.
  intros H. apply Qnot_le_lt. intros Hle. apply Qle_bool_iff in Hle. congruence.
Qed.

(** ** Sequencing *)

Lemma bind_run {A B} (m : M A) (k : A -> M B) (w : World) :
  (m ≫= k) w = match m w with
               | Ok a w' => k a w'
               | Panic w' => Panic w'
               end.
Proof. reflexivity. Qed.

Lemma bind_ok {A B} (m : M A) (k : A -> M B) (w w' : World) (a : A) :
  m w = Ok a w' -> (m ≫= k) w = k a w'.
Proof. intros H. rewrite bind_run, H. reflexivity. Qed.

Section KeepsRules.
Context (R : World -> World -> Prop) `{!PreOrder R}.

Lemma Keeps_ret {A} (a : A) : Keeps R (mret a).
Proof. intros w. simpl. reflexivity. Qed.

Lemma Keeps_get : Keeps R get.
Proof. intros w. simpl. reflexivity. Qed.

Lemma Keeps_panic {A} : Keeps R (@panic A).
Proof. intros w. simpl. reflexivity. Qed.

Lemma Keeps_modify (f : World -> World) :
  (forall w, R w (f w)) -> Keeps R (modify f).
Proof. intros H w. apply H. Qed.

Lemma Keeps_bind {A B} (m : M A) (k : A -> M B) :
  Keeps R m -> (forall a, Keeps R (k a)) -> Keeps R (m ≫= k).
Proof.
  intros Hm Hk w. rewrite bind_run.
  specialize (Hm w). destruct (m w) as [a w'|w']; simpl in *; [|exact Hm].
  etransitivity; [exact Hm|apply Hk].
Qed.

Lemma Keeps_defer (d b : M unit) : Keeps R b -> Keeps R d -> Keeps R (defer d b).
Proof.
  intros Hb Hd w. unfold defer. specialize (Hb w).
  destruct (b w) as [a w'|w']; simpl in *.
  - etransitivity; [exact Hb|apply Hd].
  - etransitivity; [exact Hb|apply Hd].
Qed.
End KeepsRules.

(** Splits a goal [Keeps R m] along the structure of [m]. *)
Ltac keeps_step :=
  lazymatch goal with
  | |- Keeps _ (mbind _ _) => apply Keeps_bind; [try apply _| |intros ?]
  | |- Keeps _ (mret _) => apply Keeps_ret; try apply _
  | |- Keeps _ get => apply Keeps_get; try apply _
  | |- Keeps _ panic => apply Keeps_panic; try apply _
  | |- Keeps _ (match ?x with _ => _ end) => destruct x eqn:?
  | |- Keeps _ (defer _ _) => apply Keeps_defer; [try apply _| |]
  end.
Ltac keeps := repeat keeps_step.

(** ** The frame relations *)

#[global] Instance sameViewport_preorder : PreOrder sameViewport.
Proof.
  split.
  - intros [a|]; simpl; auto.
  - intros [a|] [b|] [c|]; simpl; try tauto.
    intros [H1 H2] [H3 H4]. split; congruence.
Qed.

Lemma forallb_app_true {A} (f : A -> bool) (l1 l2 : list A) :
  forallb f l1 = true -> forallb f l2 = true -> forallb f (l1 ++ l2) = true.
Proof. intros H1 H2. rewrite forallb_app, H1, H2. reflexivity. Qed.

Lemma selectionCallbacks_app (l1 l2 : list Event) :
  selectionCallbacks (l1 ++ l2) = selectionCallbacks l1 ++ selectionCallbacks l2.
Proof. unfold selectionCallbacks. apply List.filter_app. Qed.

Lemma selectionCallbacks_quiet (evs : list Event) :
  forallb isQuiet evs = true -> selectionCallbacks evs = [].
Proof.
  induction evs as [|e evs IH]; simpl; [reflexivity|].
  intros H. apply andb_prop in H as [He H].
  destruct e; simpl in *; try discriminate; auto.
Qed.

#[global] Instance Frame_preorder : PreOrder Frame.
Proof.
  split.
  - intros w. split; try reflexivity. exists []. rewrite app_nil_r. auto.
  - intros w1 w2 w3 [T1 W1 V1 (e1 & E1 & Q1)] [T2 W2 V2 (e2 & E2 & Q2)].
    split; try congruence.
    + etransitivity; eassumption.
    + exists (e1 ++ e2). rewrite E2, E1, app_assoc.
      split; [reflexivity|]. apply forallb_app_true; assumption.
Qed.

#[global] Instance SelFrame_preorder : PreOrder SelFrame.
Proof.
  split.
  - intros w. split; try reflexivity. exists []. rewrite app_nil_r. auto.
  - intros w1 w2 w3 [? ? ? ? ? ? ? ? (e1 & E1 & Q1)] [? ? ? ? ? ? ? ? (e2 & E2 & Q2)].
    split; try congruence.
    exists (e1 ++ e2). rewrite E2, E1, app_assoc. split; [reflexivity|].
    rewrite selectionCallbacks_app, Q1, Q2. reflexivity.
Qed.

Lemma Frame_SelFrame (w w' : World) : Frame w w' -> SelFrame w w'.
Proof.
  intros [T W V (evs & E & Q)].
  split; try assumption;
    try (apply (f_equal Length) in W; exact W);
    try (apply (f_equal CreateItem) in W; exact W);
    try (apply (f_equal UpdateItem) in W; exact W);
    try (apply (f_equal OnSelected) in W; exact W);
    try (apply (f_equal OnUnselected) in W; exact W);
    try (apply (f_equal selected) in W; exact W);
    try (apply (f_equal itemHeights) in W; exact W).
  exists evs. split; [assumption|]. apply selectionCallbacks_quiet, Q.
Qed.

Lemma Keeps_weaken {A} (R R' : World -> World -> Prop) (m : M A) :
  (forall w w', R w w' -> R' w w') -> Keeps R m -> Keeps R' m.
Proof. intros H Hm w. apply H, Hm. Qed.

(** *** Steps inside the frame *)

Lemma Frame_same_widget (w w' : World) :
  theme w' = theme w -> widget w' = widget w -> trace w' = trace w -> Frame w w'.
Proof.
  intros T W E. split; rewrite ?W; try reflexivity; try assumption.
  exists []. rewrite app_nil_r. auto.
Qed.

Lemma Frame_emit (e : Event) (w : World) :
  isQuiet e = true -> Frame w (withTrace (fun t => t ++ [e]) w).
Proof.
  intros He. split; try reflexivity.
  exists [e]. simpl. rewrite He. auto.
Qed.

Lemma Frame_publish (w : World) (sc : Scroll) (objs : list CanvasObject) :
  scroller (widget w) = Some sc ->
  Frame w (withWidget (withScroller
             (Some (mkScroll (Offset sc) (scrollSize sc) objs))) w).
Proof.
  intros Hsc. split; try reflexivity.
  - simpl. rewrite Hsc. simpl. auto.
  - exists []. rewrite app_nil_r. auto.
Qed.

Lemma Keeps_Frame_emit (e : Event) : isQuiet e = true -> Keeps Frame (emit e).
Proof. intros He. apply Keeps_modify. intros w. apply Frame_emit, He. Qed.

Lemma Keeps_Frame_updItem (p : nat) (f : listItem -> listItem) :
  Keeps Frame (updItem p f).
Proof. apply Keeps_modify. intros w. apply Frame_same_widget; reflexivity. Qed.

Lemma Keeps_Frame_itemRefresh (p : nat) : Keeps Frame (itemRefresh p).
Proof. apply Keeps_Frame_updItem. Qed.

(** Closes the goals that [keeps] leaves for steps inside the frame. *)
Ltac frame_leaf :=
  first
    [ apply Keeps_Frame_updItem
    | apply Keeps_Frame_itemRefresh
    | apply Keeps_Frame_emit; reflexivity
    | apply Keeps_modify; intros ?;
      apply Frame_same_widget; reflexivity ].

Lemma Keeps_Frame_getItem : Keeps Frame getItem.
Proof. unfold getItem. keeps; frame_leaf. Qed.

Lemma Keeps_Frame_setupListItem (li : nat) (id : ListItemID) (focus : bool) :
  Keeps Frame (setupListItem li id focus).
Proof. unfold setupListItem. keeps; frame_leaf. Qed.

Lemma Keeps_Frame_updateSeparators : Keeps Frame updateSeparators.
Proof. unfold updateSeparators. keeps; frame_leaf. Qed.

Lemma Keeps_Frame_mountRows was width sep minRow hs :
  forall index y vis cells,
    Keeps Frame (mountRows was width sep minRow hs index y vis cells).
Proof.
  induction hs as [|h hs IH]; intros index y vis cells; simpl.
  - keeps.
  - keeps; try frame_leaf; try apply Keeps_Frame_getItem. apply IH.
Qed.

Lemma Keeps_Frame_releaseHidden focused was :
  Keeps Frame (releaseHidden focused was).
Proof.
  induction was as [|[id old] was IH]; simpl.
  - keeps.
  - keeps; try frame_leaf. apply IH.
Qed.

Lemma Keeps_Frame_setupRows focused vis : Keeps Frame (setupRows focused vis).
Proof.
  induction vis as [|[row obj] vis IH]; simpl.
  - keeps.
  - keeps; [apply Keeps_Frame_setupListItem|apply IH].
Qed.

Lemma Keeps_Frame_publish : Keeps Frame publish.
Proof.
  intros w. unfold publish. rewrite bind_run. simpl.
  destruct (scroller (widget w)) as [sc|] eqn:Hsc; simpl; [|reflexivity].
  apply Frame_publish, Hsc.
Qed.

Lemma Keeps_Frame_updateList (refresh : bool) : Keeps Frame (updateList refresh).
Proof.
  unfold updateList. keeps; try frame_leaf.
  - apply Keeps_Frame_mountRows.
  - apply Keeps_Frame_releaseHidden.
  - apply Keeps_Frame_updateSeparators.
  - apply Keeps_Frame_publish.
  - apply Keeps_Frame_setupRows.
Qed.

(** *** Steps that leave the selection alone *)

Lemma SelFrame_silent (w w' : World) :
  theme w' = theme w ->
  Length (widget w') = Length (widget w) ->
  CreateItem (widget w') = CreateItem (widget w) ->
  UpdateItem (widget w') = UpdateItem (widget w) ->
  OnSelected (widget w') = OnSelected (widget w) ->
  OnUnselected (widget w') = OnUnselected (widget w) ->
  selected (widget w') = selected (widget w) ->
  itemHeights (widget w') = itemHeights (widget w) ->
  trace w' = trace w ->
  SelFrame w w'.
Proof.
  intros. split; try assumption. exists []. rewrite app_nil_r. auto.
Qed.

Lemma Keeps_SelFrame_emit (e : Event) :
  isSelection e = false -> Keeps SelFrame (emit e).
Proof.
  intros He. apply Keeps_modify. intros w. split; try reflexivity.
  exists [e]. unfold selectionCallbacks. simpl. rewrite He. auto.
Qed.

Lemma Keeps_SelFrame_of_Frame {A} (m : M A) : Keeps Frame m -> Keeps SelFrame m.
Proof. apply Keeps_weaken, Frame_SelFrame. Qed.

Ltac sel_leaf :=
  first
    [ apply Keeps_SelFrame_emit; reflexivity
    | apply Keeps_SelFrame_of_Frame, Keeps_Frame_updateList
    | apply Keeps_SelFrame_of_Frame, Keeps_Frame_updItem
    | apply Keeps_SelFrame_of_Frame, Keeps_Frame_itemRefresh
    | apply Keeps_modify; intros ?; apply SelFrame_silent; reflexivity ].

Lemma Keeps_SelFrame_offsetUpdated pos : Keeps SelFrame (offsetUpdated pos).
Proof. unfold offsetUpdated. keeps; sel_leaf. Qed.

Lemma Keeps_SelFrame_scrollTo id : Keeps SelFrame (scrollTo id).
Proof.
  unfold scrollTo. keeps; try sel_leaf. apply Keeps_SelFrame_offsetUpdated.
Qed.

Lemma Keeps_SelFrame_rendererLayout s : Keeps SelFrame (rendererLayout s).
Proof. unfold rendererLayout. keeps; sel_leaf. Qed.

Lemma Keeps_SelFrame_CreateRenderer : Keeps SelFrame CreateRenderer.
Proof. unfold CreateRenderer. keeps; sel_leaf. Qed.

Lemma Keeps_SelFrame_rendererRefresh : Keeps SelFrame rendererRefresh.
Proof.
  unfold rendererRefresh. keeps; try sel_leaf; apply Keeps_SelFrame_rendererLayout.
Qed.

Lemma Keeps_SelFrame_Refresh : Keeps SelFrame Refresh.
Proof.
  unfold Refresh. keeps; try sel_leaf;
    first [apply Keeps_SelFrame_CreateRenderer|apply Keeps_SelFrame_rendererRefresh].
Qed.

Lemma Keeps_SelFrame_baseResize s : Keeps SelFrame (baseResize s).
Proof.
  unfold baseResize. keeps; try sel_leaf;
    first [apply Keeps_SelFrame_CreateRenderer|apply Keeps_SelFrame_rendererLayout].
Qed.

Lemma Keeps_SelFrame_Resize s : Keeps SelFrame (Resize s).
Proof.
  unfold Resize. keeps; try sel_leaf;
    first [apply Keeps_SelFrame_baseResize|apply Keeps_SelFrame_offsetUpdated].
Qed.

Lemma Keeps_SelFrame_OnScrolled pos : Keeps SelFrame (OnScrolled pos).
Proof.
  unfold OnScrolled. keeps; try sel_leaf. apply Keeps_SelFrame_offsetUpdated.
Qed.

Lemma Keeps_SelFrame_ScrollTo id : Keeps SelFrame (ScrollTo id).
Proof.
  unfold ScrollTo. keeps; try sel_leaf;
    first [apply Keeps_SelFrame_scrollTo|apply Keeps_SelFrame_Refresh].
Qed.

Lemma Keeps_SelFrame_ScrollToTop : Keeps SelFrame ScrollToTop.
Proof.
  unfold ScrollToTop. keeps;
    first [apply Keeps_SelFrame_scrollTo|apply Keeps_SelFrame_Refresh].
Qed.

Lemma Keeps_SelFrame_ScrollToBottom : Keeps SelFrame ScrollToBottom.
Proof.
  unfold ScrollToBottom. keeps;
    first [apply Keeps_SelFrame_scrollTo|apply Keeps_SelFrame_Refresh].
Qed.

(** ** The selection holds at most one index *)

#[global] Instance keepsOne_preorder : PreOrder keepsOne.
Proof. split; unfold keepsOne; [auto|intros x y z; tauto]. Qed.

Lemma SelFrame_keepsOne (w w' : World) : SelFrame w w' -> keepsOne w w'.
Proof. intros H. unfold keepsOne, atMostOneSelected. rewrite (sel_selected _ _ H). auto. Qed.

Lemma Keeps_keepsOne_of_SelFrame {A} (m : M A) : Keeps SelFrame m -> Keeps keepsOne m.
Proof. apply Keeps_weaken, SelFrame_keepsOne. Qed.

Lemma Keeps_keepsOne_emit e : Keeps keepsOne (emit e).
Proof. apply Keeps_modify. intros w. unfold keepsOne. auto. Qed.

Lemma Keeps_keepsOne_unselectCallbacks ids : Keeps keepsOne (unselectCallbacks ids).
Proof.
  induction ids as [|id ids IH]; simpl; keeps; [apply Keeps_keepsOne_emit|apply IH].
Qed.

Ltac one_leaf :=
  first
    [ apply Keeps_keepsOne_emit
    | apply Keeps_keepsOne_unselectCallbacks
    | apply Keeps_keepsOne_of_SelFrame, Keeps_SelFrame_Refresh
    | apply Keeps_keepsOne_of_SelFrame, Keeps_SelFrame_scrollTo
    | apply Keeps_keepsOne_of_SelFrame, Keeps_SelFrame_of_Frame, Keeps_Frame_updItem
    | apply Keeps_keepsOne_of_SelFrame, Keeps_SelFrame_of_Frame, Keeps_Frame_itemRefresh
    | apply Keeps_modify; intros ?; unfold keepsOne, atMostOneSelected; simpl; lia ].

Lemma Keeps_keepsOne_Select id : Keeps keepsOne (Select id).
Proof. unfold Select, selectCallbacks. keeps; one_leaf. Qed.

Lemma Keeps_keepsOne_Unselect id : Keeps keepsOne (Unselect id).
Proof. unfold Unselect. keeps; one_leaf. Qed.

Lemma Keeps_keepsOne_UnselectAll : Keeps keepsOne UnselectAll.
Proof. unfold UnselectAll. keeps; one_leaf. Qed.

Lemma Keeps_keepsOne_SetItemHeight id h : Keeps keepsOne (SetItemHeight id h).
Proof.
  unfold SetItemHeight. keeps; one_leaf.
Qed.

Lemma Keeps_keepsOne_Tapped li : Keeps keepsOne (Tapped li).
Proof. unfold Tapped. keeps; try one_leaf. apply Keeps_keepsOne_Select. Qed.

Lemma Keeps_keepsOne_runOp (o : Op) : Keeps keepsOne (runOp o).
Proof.
  destruct o; simpl.
  - apply Keeps_keepsOne_Select.
  - apply Keeps_keepsOne_Unselect.
  - apply Keeps_keepsOne_UnselectAll.
  - apply Keeps_keepsOne_of_SelFrame, Keeps_SelFrame_ScrollTo.
  - apply Keeps_keepsOne_of_SelFrame, Keeps_SelFrame_ScrollToTop.
  - apply Keeps_keepsOne_of_SelFrame, Keeps_SelFrame_ScrollToBottom.
  - apply Keeps_keepsOne_SetItemHeight.
  - apply Keeps_keepsOne_of_SelFrame, Keeps_SelFrame_Resize.
  - apply Keeps_keepsOne_of_SelFrame, Keeps_SelFrame_Refresh.
  - apply Keeps_keepsOne_Tapped.
  - apply Keeps_keepsOne_of_SelFrame, Keeps_SelFrame_OnScrolled.
Qed.

Lemma NewList_atMostOneSelected th length createItem updateItem :
  atMostOneSelected (NewList th length createItem updateItem).
Proof. unfold atMostOneSelected. simpl. lia. Qed.

(** C7.  The selection never holds more than one index: it is empty in a
    new list, and from any state with at most one selected index, every
    sequence of public operations ([Select], [Unselect], [UnselectAll], the
    scroll operations, [SetItemHeight], [Resize], [Refresh], a tap on a
    row, a scroll of the viewport) ends in a state with at most one
    selected index, also when an operation panics on the way. *)
Theorem selection_at_most_one (w : World) (os : list Op) :
  atMostOneSelected w -> atMostOneSelected (runOps os w).
Proof.
  revert w. induction os as [|o os IH]; intros w Hw; simpl; [exact Hw|].
  apply IH. apply (Keeps_keepsOne_runOp o w), Hw.
Qed.

Lemma selection_at_most_one_witness :
  atMostOneSelected list100 /\
  atMostOneSelected
    (runOps [OpSelect 3%Z; OpSelect 7%Z; OpScrollToBottom; OpUnselect 7%Z;
             OpSelect 2%Z; OpUnselectAll] list100).
Proof.
  assert (H : atMostOneSelected list100)
    by (unfold atMostOneSelected; vm_compute; lia).
  split; [exact H|]. apply (selection_at_most_one list100), H.
Defined.

(** ** Calls that are ignored *)

(** C5.  [Select] and [ScrollTo] with an index outside [[0, length())], and
    [Unselect] with an index that is not the selected one, return the
    state they were given: selection, offsets, layout and rows are the
    same and the trace has no new event, so no callback has fired. *)
Theorem ignored_calls_change_nothing (w : World) (id id' : ListItemID) :
  (id < 0 \/ lengthOf (widget w) <= id)%Z ->
  head (selected (widget w)) <> Some id' ->
  Select id w = Ok tt w /\ ScrollTo id w = Ok tt w /\ Unselect id' w = Ok tt w.
Proof.
  intros Hid Hsel.
  assert (Hout : (id <? 0)%Z || (lengthOf (widget w) <=? id)%Z = true).
  { apply orb_true_iff. destruct Hid; [left; lia|right; lia]. }
  repeat split.
  - unfold Select. rewrite bind_run. simpl.
    destruct (selected (widget w)) as [|s rest]; [|destruct (id =? s)%Z];
      try reflexivity; rewrite Hout; reflexivity.
  - unfold ScrollTo. rewrite bind_run. simpl. rewrite Hout. reflexivity.
  - unfold Unselect. rewrite bind_run. simpl.
    destruct (selected (widget w)) as [|s rest]; [reflexivity|].
    simpl in Hsel. destruct (s =? id')%Z eqn:E; [|reflexivity].
    apply Z.eqb_eq in E. congruence.
Qed.

Lemma ignored_calls_change_nothing_witness :
  ((100 < 0 \/ lengthOf (widget list100) <= 100)%Z /\
   head (selected (widget list100)) <> Some 4%Z) /\
  Select 100%Z list100 = Ok tt list100 /\
  ScrollTo 100%Z list100 = Ok tt list100 /\
  Unselect 4%Z list100 = Ok tt list100.
Proof.
  assert (H1 : (100 < 0 \/ lengthOf (widget list100) <= 100)%Z)
    by (right; vm_compute; discriminate).
  assert (H2 : head (selected (widget list100)) <> Some 4%Z)
    by (vm_compute; discriminate).
  split; [split; assumption|].
  exact (ignored_calls_change_nothing list100 100%Z 4%Z H1 H2).
Defined.

(** ** A pass without a measured viewport *)

(** C8.  When the visible-range computation returns no row although the
    list is not empty, [updateList] returns at once: the mounted views, the
    pool, the children, the separators, the rows on the heap, the focus and
    the scroller with its published content are what they were.  The only
    trace left is the logged warning when [UpdateItem] is missing. *)
Theorem updateList_without_rows_changes_nothing
    (refresh : bool) (w : World) (offY : Q) (minRow : Z) :
  visibleItemHeights (theme w) (widget w) (Height (itemMin (widget w)))
                     (lengthOf (widget w)) = Some ([], offY, minRow) ->
  (0 < lengthOf (widget w))%Z ->
  exists w',
    updateList refresh w = Ok tt w' /\
    layout w' = layout w /\ widget w' = widget w /\ heap w' = heap w /\
    nextItem w' = nextItem w /\ canvasFocus w' = canvasFocus w /\
    theme w' = theme w /\
    trace w' = trace w ++ (if UpdateItem (widget w) then [] else [EvLogError]).
Proof.
  intros Hvis Hlen.
  assert (Hpos : (0 <? lengthOf (widget w))%Z = true) by lia.
  unfold updateList. rewrite bind_run. simpl.
  destruct (UpdateItem (widget w)); rewrite bind_run; simpl;
    rewrite Hvis; simpl; rewrite Hpos; simpl.
  - exists w. rewrite app_nil_r. repeat split; reflexivity.
  - eexists. split; [reflexivity|]. repeat split; reflexivity.
Qed.

Lemma updateList_without_rows_changes_nothing_witness :
  let w := NewList theme1 (Some 100%Z) (Some (NewSize 100 20)) true in
  let w0 := withWidget (withScroller (Some (mkScroll (NewPos 0 0) (NewSize 0 0) []))) w in
  exists w',
    updateList true w0 = Ok tt w' /\
    layout w' = layout w0 /\ widget w' = widget w0 /\ heap w' = heap w0 /\
    nextItem w' = nextItem w0 /\ canvasFocus w' = canvasFocus w0 /\
    theme w' = theme w0 /\
    trace w' = trace w0 ++ (if UpdateItem (widget w0) then [] else [EvLogError]).
Proof.
  intros w w0.
  apply (updateList_without_rows_changes_nothing true w0 0%Q 0%Z).
  - vm_compute. reflexivity.
  - vm_compute. reflexivity.
Defined.

(** ** Height overrides *)

Lemma Refresh_trace (w : World) :
  exists evs,
    trace (stateOf (Refresh w)) = trace w ++ EvRefresh :: evs /\
    selectionCallbacks evs = [] /\
    itemHeights (widget (stateOf (Refresh w))) = itemHeights (widget w) /\
    selected (widget (stateOf (Refresh w))) = selected (widget w).
Proof.
  unfold Refresh. rewrite bind_run. simpl.
  match goal with
  | |- context [stateOf (?k ?w0)] =>
    assert (H : SelFrame w0 (stateOf (k w0)))
  end.
  { match goal with |- SelFrame ?w0 (stateOf (?k ?w0)) => change (SelFrame w0 (stateOf (k w0))) end.
    match goal with |- SelFrame ?w0 (stateOf (?k ?w0)) =>
      enough (Hk : Keeps SelFrame k) by apply Hk end.
    keeps; first [apply Keeps_SelFrame_CreateRenderer|apply Keeps_SelFrame_rendererRefresh]. }
  destruct H as [_ _ _ _ _ _ Hs Hh (evs & E & Q)]. simpl in *.
  exists evs. rewrite E, <- app_assoc. simpl. auto.
Qed.

(** C10.  [SetItemHeight(id, height)] always records the override.  It
    calls [Refresh] exactly when the height stored before, read as 0 when
    there was none, is different from [height]: with the stored height the
    call does nothing but the map write, and so does the first
    [SetItemHeight(id, 0)] for a row without an override. *)
Theorem SetItemHeight_refreshes_iff_changed
    (w : World) (id : ListItemID) (height : Q) :
  let stored := default 0%Q (itemHeights (widget w) !! id) in
  let recorded := withWidget (fun l => withItemHeights (<[id := height]> (itemHeights l)) l) w in
  let w' := stateOf (SetItemHeight id height w) in
  itemHeights (widget w') = <[id := height]> (itemHeights (widget w)) /\
  (exists evs, trace w' = trace w ++ evs /\
               (In EvRefresh evs <-> ~ (stored == height)%Q)) /\
  ((stored == height)%Q -> SetItemHeight id height w = Ok tt recorded) /\
  (itemHeights (widget w) !! id = None -> (height == 0)%Q ->
   SetItemHeight id height w = Ok tt recorded).
Proof.
  intros stored recorded w'.
  assert (Hrun : SetItemHeight id height w =
                 (if negb (Qeq_bool stored height) then Refresh else mret tt)
                   recorded) by reflexivity.
  assert (Hsame : (stored == height)%Q -> SetItemHeight id height w = Ok tt recorded).
  { intros E. rewrite Hrun. apply Qeq_bool_iff in E. rewrite E. reflexivity. }
  repeat split.
  - subst w'. rewrite Hrun. destruct (Qeq_bool stored height); simpl; [reflexivity|].
    destruct (Refresh_trace recorded) as (evs & _ & _ & Hh & _). exact Hh.
  - subst w'. rewrite Hrun. destruct (Qeq_bool stored height) eqn:E; simpl.
    + exists []. rewrite app_nil_r. split; [reflexivity|].
      apply Qeq_bool_iff in E. split; [intros []|tauto].
    + destruct (Refresh_trace recorded) as (evs & Ht & _).
      exists (EvRefresh :: evs). split; [exact Ht|].
      split; [|intros _; left; reflexivity].
      intros _ Heq. apply Qeq_bool_iff in Heq. congruence.
  - exact Hsame.
  - intros Hnone Hz. apply Hsame. subst stored. rewrite Hnone. simpl.
    symmetry. exact Hz.
Qed.

Lemma SetItemHeight_refreshes_iff_changed_witness :
  (default 0%Q (itemHeights (widget list100) !! 5%Z) == 0)%Q /\
  SetItemHeight 5%Z 0%Q list100
  = Ok tt (withWidget (fun l => withItemHeights (<[5%Z := 0%Q]> (itemHeights l)) l)
                      list100).
Proof.
  assert (H : (default 0%Q (itemHeights (widget list100) !! 5%Z) == 0)%Q)
    by (vm_compute; reflexivity).
  split; [exact H|].
  exact (proj1 (proj2 (proj2 (SetItemHeight_refreshes_iff_changed list100 5%Z 0%Q))) H).
Defined.

(** ** The uniform path of the visible range *)

(** C1.  On the list of 100 rows of height 20 with padding 1, scrolled to
    offset 20 in a viewport of height 50, [visibleItemHeights] returns the
    rows 0, 1 and 2.  Row 3 starts at 63 and so meets the viewport
    [[20, 70)], but it is not among the returned rows: the last row is
    computed from the offset rounded down to a row boundary, not from the
    scroll offset. *)
Theorem uniform_rows_miss_bottom_row :
  let th := theme list100_scrolled in
  let l := widget list100_scrolled in
  offsetY l = 20%Q /\
  (scrollSize <$> scroller l) = Some (NewSize 100 50) /\
  itemHeights l = ∅ /\
  exists r,
    visibleItemHeights th l (Height (itemMin l)) (lengthOf l) = Some r /\
    r = ([20%Q; 20%Q; 20%Q], 0%Q, 0%Z) /\
    (0 <= 3 < lengthOf l)%Z /\
    rowTop th l 3 = 63%Q /\
    rowIntersects th l (offsetY l) 50 3 /\
    ~ returnedRow r 3.
Proof.
  intros th l. by_evaluation.
  exists ([20%Q; 20%Q; 20%Q], 0%Q, 0%Z). by_evaluation.
  unfold returnedRow. simpl. lia.
Qed.



(** C2.  The scenario of the claim evaluates as stated: 100 rows of height
    20, padding 1, viewport height 50, offset 0 give three rows of height
    20 from index 0.  At offset 20 the claimed end index
    [ceil((20 + 50) / 21)] is 4, but the code again returns three rows
    from index 0, so its end index is 3. *)
Theorem uniform_rows_end_index :
  visibleItemHeights (theme list100) (widget list100)
                     (Height (itemMin (widget list100)))
                     (lengthOf (widget list100))
  = Some ([20%Q; 20%Q; 20%Q], 0%Q, 0%Z) /\
  offsetY (widget list100_scrolled) = 20%Q /\
  Qfloor (20 / (20 + 1)) = 0%Z /\
  Z.min 100 (Qceiling ((20 + 50) / (20 + 1))) = 4%Z /\
  visibleItemHeights (theme list100_scrolled) (widget list100_scrolled)
                     (Height (itemMin (widget list100_scrolled)))
                     (lengthOf (widget list100_scrolled))
  = Some (replicate (Z.to_nat (3 - 0)) 20%Q, 0%Q, 0%Z).
Proof. by_evaluation. Qed.

(** ** The sparse path of the visible range covers the viewport *)

Section SparseCoverage.
Variables (padding : Q) (heights : gmap Z Q) (scrollY viewHeight itemHeight : Q).
Hypothesis padding_nonneg : (0 <= padding)%Q.
Hypothesis stride_pos :
  forall i, (0 < default itemHeight (heights !! i) + padding)%Q.
Hypothesis scroll_nonneg : (0 <= scrollY)%Q.
Hypothesis view_pos : (0 < viewHeight)%Q.

Let top (i : nat) : Q := rowsAbove padding heights itemHeight i 0%Z 0%Q.
Let h (i : nat) : Q := default itemHeight (heights !! Z.of_nat i).

Lemma rowsAbove_app (n m : nat) :
  forall i y,
    rowsAbove padding heights itemHeight (n + m) i y
    = rowsAbove padding heights itemHeight m (i + Z.of_nat n)%Z
                (rowsAbove padding heights itemHeight n i y).
Proof.
  induction n as [|n IH]; intros i y.
  - simpl. rewrite Z.add_0_r. reflexivity.
  - cbn [Nat.add rowsAbove]. rewrite IH. f_equal. lia.
Qed.

Lemma top_S (i : nat) : top (S i) = (top i + (h i + padding))%Q.
Proof.
  unfold top, h. rewrite <- (Nat.add_1_r i), rowsAbove_app. simpl.
  reflexivity.
Qed.

Lemma top_lt_S (i : nat) : (top i < top (S i))%Q.
Proof. rewrite top_S. pose proof (stride_pos (Z.of_nat i)). fold (h i) in H. lra. Qed.

Lemma top_mono (i j : nat) : (i <= j)%nat -> (top i <= top j)%Q.
Proof.
  induction 1 as [|j Hle IH]; [lra|].
  pose proof (top_lt_S j). lra.
Qed.

(** Row [j] meets the viewport. *)
Let meets (j : nat) : Prop :=
  (top j < scrollY + viewHeight)%Q /\ (scrollY < top j + h j)%Q.

(** What holds when the loop reaches index [i]. *)
Let reached (i : nat) (isVisible : bool) (rows : list Q) (minRow : Z) : Prop :=
  if isVisible
  then exists s, minRow = Z.of_nat s /\ (s < i)%nat /\
                 length rows = (i - s)%nat /\
                 (top s <= scrollY)%Q /\ (scrollY < top (S s))%Q
  else rows = [] /\ (top i <= scrollY)%Q.

Lemma scanRows_covers (n : nat) :
  forall i isVisible rows offY minRow,
    reached i isVisible rows minRow ->
    forall j, (j < i + n)%nat -> meets j ->
      returnedRow (scanRows padding heights scrollY viewHeight itemHeight n
                            (Z.of_nat i) (top i) isVisible rows offY minRow)
                  (Z.of_nat j).
Proof.
  induction n as [|n IH]; intros i isVisible rows offY minRow Hinv j Hj [Hj1 Hj2].
  - (* the loop has run through the list *)
    simpl. destruct isVisible.
    + destruct Hinv as (s & -> & Hs & Hlen & Hs1 & Hs2).
      assert (s <= j)%nat.
      { destruct (Nat.le_gt_cases s j) as [|Hlt]; [assumption|].
        pose proof (top_mono (S j) s Hlt). rewrite top_S in H. lra. }
      lia.
    + destruct Hinv as (_ & Hi).
      pose proof (top_mono (S j) i ltac:(lia)) as H. rewrite top_S in H. lra.
  - cbn [scanRows]. fold (h i).
    pose proof (top_S i) as HS. pose proof (stride_pos (Z.of_nat i)) as Hstr.
    fold (h i) in Hstr.
    assert (HSq : (top (S i) == top i + (h i + padding))%Q)
      by (rewrite HS; reflexivity).
    destruct (Qle_bool (top i) (scrollY - h i - padding)) eqn:Hbefore.
    + (* row i ends above the viewport *)
      apply Qle_bool_iff in Hbefore.
      destruct isVisible.
      { destruct Hinv as (s & _ & Hs & _ & _ & Hs2).
        pose proof (top_mono (S s) i Hs). lra. }
      destruct Hinv as (-> & Hi).
      destruct (Qle_bool (scrollY + viewHeight) (top i)) eqn:Hbreak.
      { apply Qle_bool_iff in Hbreak. lra. }
      replace (Z.of_nat i + 1)%Z with (Z.of_nat (S i)) by lia. rewrite <- HS.
      apply IH; [|lia|split; assumption].
      unfold reached. split; [reflexivity|]. lra.
    + apply Qle_bool_false in Hbefore.
      destruct (Qle_bool (top i) scrollY) eqn:Hstart.
      * (* row i is the first visible row *)
        apply Qle_bool_iff in Hstart.
        destruct isVisible.
        { destruct Hinv as (s & _ & Hs & _ & _ & Hs2).
          pose proof (top_mono (S s) i Hs). lra. }
        destruct Hinv as (-> & _).
        destruct (Qle_bool (scrollY + viewHeight) (top i)) eqn:Hbreak.
        { apply Qle_bool_iff in Hbreak. lra. }
        replace (Z.of_nat i + 1)%Z with (Z.of_nat (S i)) by lia. rewrite <- HS.
        apply IH; [|lia|split; assumption].
        unfold reached. exists i. split; [reflexivity|]. split; [lia|].
        split; [simpl; lia|]. split; [exact Hstart|lra].
      * (* row i starts below the scroll offset *)
        apply Qle_bool_false in Hstart.
        destruct isVisible; [|destruct Hinv as (_ & Hi); lra].
        destruct Hinv as (s & -> & Hs & Hlen & Hs1 & Hs2).
        destruct (Qle_bool (scrollY + viewHeight) (top i)) eqn:Hbreak.
        -- (* and below the viewport: the loop stops *)
           apply Qle_bool_iff in Hbreak. simpl.
           assert (j < i)%nat.
           { destruct (Nat.le_gt_cases i j) as [Hle|]; [|assumption].
             pose proof (top_mono i j Hle). lra. }
           assert (s <= j)%nat.
           { destruct (Nat.le_gt_cases s j) as [|Hlt]; [assumption|].
             pose proof (top_mono (S j) s Hlt) as H'. rewrite top_S in H'. lra. }
           lia.
        -- replace (Z.of_nat i + 1)%Z with (Z.of_nat (S i)) by lia. rewrite <- HS.
           apply IH; [|lia|split; assumption].
           unfold reached. exists s. split; [reflexivity|]. split; [lia|].
           split; [rewrite length_app; simpl; lia|]. split; assumption.
Qed.
End SparseCoverage.

(** With at least one override, non-negative padding and scroll offset and
    rows of positive padded height, [visibleItemHeights] returns every row
    of the list whose rectangle meets the viewport. *)
Lemma sparse_rows_cover (th : Theme) (l : List) (sc : Scroll) (length : Z) :
  scroller l = Some sc ->
  (0 < Height (scrollSize sc))%Q ->
  size (itemHeights l) <> 0%nat ->
  (0 <= Padding th)%Q ->
  (forall i, 0 < rowHeight l i + Padding th)%Q ->
  (0 <= offsetY l)%Q ->
  exists r,
    visibleItemHeights th l (Height (itemMin l)) length = Some r /\
    forall i, (0 <= i < length)%Z ->
      rowIntersects th l (offsetY l) (Height (scrollSize sc)) i ->
      returnedRow r i.
Proof.
  intros Hsc Hview Hsize Hpad Hstride Hscroll.
  unfold visibleItemHeights. rewrite Hsc.
  destruct (Qle_bool (Height (scrollSize sc)) 0) eqn:Hle.
  { apply Qle_bool_iff in Hle. lra. }
  destruct (Nat.eqb_spec (size (itemHeights l)) 0); [contradiction|].
  eexists. split; [reflexivity|].
  intros i Hi Hmeets.
  rewrite <- (Z2Nat.id i) at 1 by lia.
  apply (scanRows_covers (Padding th) (itemHeights l) (offsetY l)
           (Height (scrollSize sc)) (Height (itemMin l)) Hpad Hstride Hview
           (Z.to_nat length) 0%nat false [] 0%Q 0%Z).
  - split; [reflexivity|]. simpl. exact Hscroll.
  - lia.
  - unfold rowIntersects, rowTop, rowHeight in Hmeets.
    rewrite Z2Nat.id by lia. exact Hmeets.
Qed.

(** ** Scrolling to a row with an override *)

(** The new offset brings the span [[y, y + templateHeight)] into a
    viewport that is at least as high as the template. *)
Lemma scrolledOffsetY_shows_template (y templateHeight : Q) (sc : Scroll) :
  (templateHeight <= Height (scrollSize sc))%Q ->
  (scrolledOffsetY y templateHeight sc <= y)%Q /\
  (y + templateHeight
   <= scrolledOffsetY y templateHeight sc + Height (scrollSize sc))%Q.
Proof.
  intros Hfit. unfold scrolledOffsetY.
  destruct (Qlt_bool y (Y (Offset sc))) eqn:E1.
  - apply Qlt_bool_true in E1. lra.
  - apply Qlt_bool_false in E1.
    destruct (Qlt_bool (Y (Offset sc) + Height (scrollSize sc))
                       (y + templateHeight)) eqn:E2.
    + lra.
    + apply Qlt_bool_false in E2. lra.
Qed.

(** C3.  After [SetItemHeight(5, 40)] on the example list (template height
    20, padding 1, viewport height 50, offset 0), row 5 spans [[105, 145)].
    [scrollTo(5)] and [ScrollTo(5)] move the offset to 75, so the viewport
    is [[75, 125)] and the lower 20 of row 5 are outside it: the new
    offset is computed with the template height, not the height of row 5.
    The selection is unchanged.  From an offset inside the span of row 5
    (120), [scrollTo(5)] moves the offset to the top of the row, and then
    the whole row is in view. *)
Theorem scrollTo_cuts_overridden_row :
  let w := list100_tall5 in
  itemHeights (widget w) !! 5%Z = Some 40%Q /\
  (Offset <$> scroller (widget w)) = Some (NewPos 0 0) /\
  (scrollSize <$> scroller (widget w)) = Some (NewSize 100 50) /\
  rowTop (theme w) (widget w) 5 = 105%Q /\
  rowHeight (widget w) 5 = 40%Q /\
  (exists w1 w2,
    scrollTo 5%Z w = Ok tt w1 /\ ScrollTo 5%Z w = Ok tt w2 /\
    (Offset <$> scroller (widget w1)) = Some (NewPos 0 75) /\
    (Offset <$> scroller (widget w2)) = Some (NewPos 0 75) /\
    selected (widget w1) = selected (widget w) /\
    selected (widget w2) = selected (widget w) /\
    ~ rowWithin (theme w1) (widget w1) 75 50 5 /\
    ~ rowWithin (theme w2) (widget w2) 75 50 5) /\
  (Offset <$> scroller (widget list100_tall5_inside)) = Some (NewPos 0 120) /\
  (exists w3,
    scrollTo 5%Z list100_tall5_inside = Ok tt w3 /\
    (Offset <$> scroller (widget w3)) = Some (NewPos 0 105) /\
    rowWithin (theme w3) (widget w3) 105 50 5).
Proof.
  intros w. by_evaluation.
  - destruct (scrollTo 5%Z w) as [[] w1|] eqn:E1;
      [|vm_compute in E1; discriminate E1].
    destruct (ScrollTo 5%Z w) as [[] w2|] eqn:E2;
      [|vm_compute in E2; discriminate E2].
    exists w1, w2.
    assert (H1 : w1 = stateOf (scrollTo 5%Z w)) by (rewrite E1; reflexivity).
    assert (H2 : w2 = stateOf (ScrollTo 5%Z w)) by (rewrite E2; reflexivity).
    split_conj; try reflexivity;
      try (subst w1 w2; vm_compute; reflexivity).
    + intros [_ H]. subst w1. vm_compute in H. apply H. reflexivity.
    + intros [_ H]. subst w2. vm_compute in H. apply H. reflexivity.
  - destruct (scrollTo 5%Z list100_tall5_inside) as [[] w3|] eqn:E3;
      [|vm_compute in E3; discriminate E3].
    exists w3.
    assert (H3 : w3 = stateOf (scrollTo 5%Z list100_tall5_inside))
      by (rewrite E3; reflexivity).
    split; [reflexivity|]. subst w3.
    split; [vm_compute; reflexivity|].
    split; vm_compute; discriminate.
Qed.

(** ** Running the steps of a pass *)

Lemma updItem_run (p : nat) (f : listItem -> listItem) (w : World) :
  updItem p f w = Ok tt (withHeap (alter f p) w).
Proof. reflexivity. Qed.

Lemma getItem_ok (w : World) :
  is_Some (CreateItem (widget w)) ->
  exists p w', getItem w = Ok p w' /\ widget w' = widget w /\ theme w' = theme w.
Proof.
  intros [sz Hsz]. unfold getItem. rewrite bind_run. simpl.
  destruct (itemPool (layout w)) as [|p pool]; simpl.
  - rewrite Hsz. eexists _, _. rewrite bind_run. simpl. eauto.
  - eexists _, _. rewrite bind_run. simpl. eauto.
Qed.

Lemma mountRows_total was width sep minRow hs :
  forall index y vis cells w,
    is_Some (CreateItem (widget w)) ->
    exists r w', mountRows was width sep minRow hs index y vis cells w = Ok r w'.
Proof.
  induction hs as [|h hs IH]; intros index y vis cells w Hc; simpl.
  - eexists _, _. reflexivity.
  - rewrite bind_run.
    destruct (was !! (index + minRow)%Z) as [c|].
    + simpl. rewrite bind_run. simpl. rewrite bind_run. simpl.
      apply IH. exact Hc.
    + destruct (getItem_ok w Hc) as (p & w1 & Hg & Hw & _).
      rewrite (bind_ok _ _ _ _ _ Hg). simpl.
      rewrite bind_run. simpl. rewrite bind_run. simpl.
      apply IH. simpl. rewrite Hw. exact Hc.
Qed.

(** The rows that a completed loop has mounted. *)
Lemma mountRows_vis was width sep minRow hs :
  forall index y vis cells w vis' cells' w',
    mountRows was width sep minRow hs index y vis cells w = Ok (vis', cells') w' ->
    length cells' = (length cells + length hs)%nat /\
    (forall row, mountedRow minRow index (length hs) row -> is_Some (vis' !! row)) /\
    (forall row, ~ mountedRow minRow index (length hs) row -> vis' !! row = vis !! row).
Proof.
  induction hs as [|h hs IH]; intros index y vis cells w vis' cells' w' H; simpl in H.
  - injection H as <- <- <-. split; [simpl; lia|].
    split; [|reflexivity]. unfold mountedRow. simpl. lia.
  - rewrite bind_run in H.
    destruct ((match was !! (index + minRow)%Z with
               | Some c => mret c
               | None => c ← getItem; updItem c (withItemSize (NewSize width h));; mret c
               end) w) as [c w1|w1]; [|discriminate].
    rewrite bind_run in H. simpl in H. rewrite bind_run in H. simpl in H.
    apply IH in H as (Hl & Hin & Hout).
    split; [|split].
    + rewrite Hl, length_app. simpl. lia.
    + intros row Hrow. destruct (decide (row = (index + minRow)%Z)) as [->|Hne].
      * rewrite Hout by (unfold mountedRow; lia).
        rewrite lookup_insert_eq. eauto.
      * apply Hin. unfold mountedRow in *. simpl in *. lia.
    + intros row Hrow. rewrite Hout by (unfold mountedRow in *; simpl in *; lia).
      apply lookup_insert_ne. unfold mountedRow in Hrow. simpl in Hrow. lia.
Qed.

(** When every row to mount was visible before, the loop takes each view
    from [wasVisible]: it asks the pool for nothing and creates nothing. *)
Lemma mountRows_reuse was width sep minRow hs :
  forall index y vis cells w,
    (forall row, mountedRow minRow index (length hs) row -> is_Some (was !! row)) ->
    exists vis' cells' w',
      mountRows was width sep minRow hs index y vis cells w = Ok (vis', cells') w' /\
      layout w' = layout w /\ nextItem w' = nextItem w /\
      (forall row, mountedRow minRow index (length hs) row -> vis' !! row = was !! row).
Proof.
  induction hs as [|h hs IH]; intros index y vis cells w Hwas; simpl.
  - exists vis, cells, w. split; [reflexivity|]. split; [reflexivity|].
    split; [reflexivity|]. unfold mountedRow. simpl. lia.
  - rewrite bind_run.
    destruct (Hwas (index + minRow)%Z) as [c Hc]; [unfold mountedRow; simpl; lia|].
    rewrite Hc. simpl. rewrite bind_run. simpl. rewrite bind_run. simpl.
    match goal with
    | |- context [mountRows _ _ _ _ _ _ _ ?v ?cs ?w2] =>
      destruct (IH (index + 1)%Z (y + (h + sep))%Q v cs w2)
        as (vis' & cells' & w' & Hm & Hly & Hn & Hin)
    end.
    { intros row Hrow. apply Hwas. unfold mountedRow in *. simpl. lia. }
    exists vis', cells', w'. split; [exact Hm|].
    split; [exact Hly|]. split; [exact Hn|].
    intros row Hrow. destruct (decide (row = (index + minRow)%Z)) as [->|Hne].
    + apply mountRows_vis in Hm as (_ & _ & Hout).
      rewrite Hout by (unfold mountedRow; lia).
      rewrite lookup_insert_eq. symmetry. exact Hc.
    + apply Hin. unfold mountedRow in *. simpl in *. lia.
Qed.

(** *** Steps that never panic *)

Lemma Total_ret {A} (a : A) : Total (mret a).
Proof. intros w. exists a, w. reflexivity. Qed.

Lemma Total_get : Total get.
Proof. intros w. exists w, w. reflexivity. Qed.

Lemma Total_modify (f : World -> World) : Total (modify f).
Proof. intros w. exists tt, (f w). reflexivity. Qed.

Lemma Total_bind {A B} (m : M A) (k : A -> M B) :
  Total m -> (forall a, Total (k a)) -> Total (m ≫= k).
Proof.
  intros Hm Hk w. destruct (Hm w) as (a & w1 & E).
  rewrite (bind_ok _ _ _ _ _ E). apply Hk.
Qed.

Ltac total_step :=
  lazymatch goal with
  | |- Total (mbind _ _) => apply Total_bind; [|intros ?]
  | |- Total (mret _) => apply Total_ret
  | |- Total get => apply Total_get
  | |- Total (modify _) => apply Total_modify
  | |- Total (emit _) => apply Total_modify
  | |- Total (updItem _ _) => apply Total_modify
  | |- Total (itemRefresh _) => apply Total_modify
  | |- Total (match ?x with _ => _ end) => destruct x eqn:?
  end.
Ltac total := repeat total_step.

Lemma Total_setupListItem li id focus : Total (setupListItem li id focus).
Proof. unfold setupListItem. total. Qed.

Lemma Total_setupRows focused vis : Total (setupRows focused vis).
Proof.
  induction vis as [|[row obj] vis IH]; simpl; total.
  - apply Total_setupListItem.
  - apply IH.
Qed.

Lemma Total_releaseHidden focused was : Total (releaseHidden focused was).
Proof. induction was as [|[id old] was IH]; simpl; total; apply IH. Qed.

(** The result of a step that never panics, with what it keeps. *)
Lemma Total_Keeps {A} (R : World -> World -> Prop) (m : M A) (w : World) :
  Total m -> Keeps R m -> exists a w', m w = Ok a w' /\ R w w'.
Proof.
  intros Ht Hk. destruct (Ht w) as (a & w' & E). exists a, w'.
  split; [exact E|]. specialize (Hk w). rewrite E in Hk. exact Hk.
Qed.

(** *** Rows keep their place *)

#[global] Instance Settled_preorder : PreOrder Settled.
Proof.
  split.
  - intros w. split; reflexivity.
  - intros w1 w2 w3 [] []. split; congruence.
Qed.

Lemma itemPos_alter (f : listItem -> listItem) (p q : nat) (h : gmap nat listItem) :
  (forall it, itemPos (f it) = itemPos it) ->
  itemPos (default newListItem (alter f p h !! q))
  = itemPos (default newListItem (h !! q)).
Proof.
  intros Hf. destruct (decide (p = q)) as [->|Hne].
  - rewrite lookup_alter_eq. destruct (h !! q); simpl; [apply Hf|reflexivity].
  - rewrite lookup_alter_ne by assumption. reflexivity.
Qed.

Lemma Keeps_Settled_updItem p f :
  (forall it, itemPos (f it) = itemPos it) -> Keeps Settled (updItem p f).
Proof.
  intros Hf. apply Keeps_modify. intros w. split; try reflexivity.
  intros q. unfold deref. simpl. apply itemPos_alter, Hf.
Qed.

Lemma Keeps_Settled_emit e : Keeps Settled (emit e).
Proof. apply Keeps_modify. intros w. split; reflexivity. Qed.

Lemma Keeps_Settled_setupListItem li id focus :
  Keeps Settled (setupListItem li id focus).
Proof.
  unfold setupListItem, itemRefresh.
  keeps; first [apply Keeps_Settled_emit|apply Keeps_Settled_updItem; reflexivity].
Qed.

Lemma Keeps_Settled_setupRows focused vis : Keeps Settled (setupRows focused vis).
Proof.
  induction vis as [|[row obj] vis IH]; simpl; keeps;
    [apply Keeps_Settled_setupListItem|apply IH].
Qed.

Lemma setupRows_run focused vis w :
  exists w', setupRows focused vis w = Ok tt w' /\ Settled w w' /\ Frame w w'.
Proof.
  destruct (Total_setupRows focused vis w) as ([] & w' & E).
  exists w'. split; [exact E|]. split.
  - generalize (Keeps_Settled_setupRows focused vis w). rewrite E. auto.
  - generalize (Keeps_Frame_setupRows focused vis w). rewrite E. auto.
Qed.

(** *** Mounting leaves the separators alone *)

#[global] Instance sameSeparators_preorder : PreOrder sameSeparators.
Proof.
  split.
  - intros w. reflexivity.
  - intros w1 w2 w3 H1 H2. unfold sameSeparators in *. congruence.
Qed.

Lemma Keeps_sameSeparators_updItem (p : nat) (f : listItem -> listItem) :
  Keeps sameSeparators (updItem p f).
Proof. apply Keeps_modify. intros w. reflexivity. Qed.

Lemma Keeps_sameSeparators_getItem : Keeps sameSeparators getItem.
Proof.
  unfold getItem. keeps; apply Keeps_modify; intros ?; reflexivity.
Qed.

Lemma Keeps_sameSeparators_mountRows was width sep minRow hs :
  forall index y vis cells,
    Keeps sameSeparators (mountRows was width sep minRow hs index y vis cells).
Proof.
  induction hs as [|h hs IH]; intros index y vis cells; simpl.
  - keeps.
  - keeps; try apply Keeps_sameSeparators_updItem;
      try apply Keeps_sameSeparators_getItem.
    apply IH.
Qed.

(** *** Releasing the rows that left the viewport *)

#[global] Instance Released_preorder : PreOrder Released.
Proof.
  split.
  - intros w. split; reflexivity.
  - intros w1 w2 w3 [] []. split; congruence.
Qed.

Lemma Keeps_Released_releaseHidden focused was :
  Keeps Released (releaseHidden focused was).
Proof.
  induction was as [|[id old] was IH]; simpl; keeps;
    try (apply Keeps_modify; intros ?; split; reflexivity).
  apply IH.
Qed.

Lemma releaseHidden_run focused was w :
  exists w', releaseHidden focused was w = Ok tt w' /\ Released w w'.
Proof.
  destruct (Total_Keeps Released _ w (Total_releaseHidden focused was)
                        (Keeps_Released_releaseHidden focused was))
    as ([] & w' & E & H).
  exists w'. auto.
Qed.

(** When every row of [was] is still mounted, nothing is released. *)
Lemma releaseHidden_mounted focused was w :
  (forall id old, In (id, old) was -> is_Some (visible (layout w) !! id)) ->
  releaseHidden focused was w = Ok tt w.
Proof.
  induction was as [|[id old] was IH]; intros Hin; simpl; [reflexivity|].
  rewrite bind_run. simpl. rewrite bind_run.
  destruct (Hin id old (or_introl eq_refl)) as [c Hc]. rewrite Hc. simpl.
  apply IH. intros id' old' H. apply (Hin id' old'). right. exact H.
Qed.

(** *** Separators *)

Lemma resizeSeparators_length (n : nat) (seps : list Separator) :
  length (resizeSeparators n seps) = separatorCount n.
Proof.
  unfold resizeSeparators, separatorCount.
  destruct (Nat.ltb_spec 1 n); [|reflexivity].
  destruct (Nat.ltb_spec n (length seps)).
  - rewrite length_take. lia.
  - rewrite length_app, length_replicate. lia.
Qed.

Lemma placeSeparators_spec (th : Theme) (w : World) (cs : list nat) :
  forall (i : nat) (seps : list Separator),
    (forall j, (j < length cs)%nat -> (i + j <> 0)%nat -> (i + j < length seps)%nat) ->
    exists seps',
      placeSeparators th w cs i seps = Some seps' /\
      length seps' = length seps /\
      (forall j, (j < i)%nat -> seps' !! j = seps !! j) /\
      (forall j c, cs !! j = Some c -> (i + j <> 0)%nat ->
         seps' !! (i + j)%nat
         = Some (placedSeparator th (Width (baseSize (widget w)))
                                 (Y (itemPos (deref w c))))).
Proof.
  induction cs as [|c cs IH]; intros i seps Hlen; simpl.
  - exists seps. repeat split; auto. intros j c Hj. discriminate.
  - destruct (Nat.eqb_spec i 0) as [->|Hi].
    + destruct (IH 1%nat seps) as (seps' & E & L & Hlow & Hat).
      { intros j Hj _. apply (Hlen (S j)); simpl; lia. }
      exists seps'. split; [exact E|]. split; [exact L|]. split; [intros j Hj; lia|].
      intros [|j] c' Hc Hne; [simpl in Hne; lia|].
      simpl in Hc. apply (Hat j c' Hc). lia.
    + assert (Hin : (i < length seps)%nat).
      { specialize (Hlen 0%nat). simpl in Hlen. rewrite Nat.add_0_r in Hlen.
        apply Hlen; lia. }
      destruct (lookup_lt_is_Some_2 seps i Hin) as [s Hs]. rewrite Hs.
      match goal with
      | |- context [placeSeparators _ _ _ _ ?seps1] =>
        destruct (IH (S i) seps1) as (seps' & E & L & Hlow & Hat)
      end.
      { intros j Hj _. rewrite length_insert.
        specialize (Hlen (S j)). simpl in Hlen. rewrite Nat.add_succ_r in Hlen.
        apply Hlen; lia. }
      rewrite length_insert in L.
      exists seps'. split; [exact E|]. split; [exact L|]. split.
      * intros j Hj. rewrite Hlow by lia. apply list_lookup_insert_ne. lia.
      * intros [|j] c' Hc _.
        -- simpl in Hc. injection Hc as <-. rewrite Nat.add_0_r.
           rewrite Hlow by lia. apply list_lookup_insert_eq. exact Hin.
        -- simpl in Hc. rewrite Nat.add_succ_r.
           apply (Hat j c' Hc). lia.
Qed.

(** The loop writes no separator below its index, and never the one at
    index 0. *)
Lemma placeSeparators_keeps (th : Theme) (w : World) (cs : list nat) :
  forall (i : nat) (seps seps' : list Separator) (j : nat),
    placeSeparators th w cs i seps = Some seps' ->
    (j < i)%nat \/ j = 0%nat ->
    seps' !! j = seps !! j.
Proof.
  induction cs as [|c cs IH]; intros i seps seps' j E Hj; simpl in E.
  - injection E as <-. reflexivity.
  - destruct (Nat.eqb_spec i 0) as [->|Hi].
    + apply (IH 1%nat seps seps' j E). lia.
    + destruct (seps !! i) as [s|] eqn:Hs; [|discriminate E].
      rewrite (IH (S i) _ seps' j E) by lia.
      apply list_lookup_insert_ne. lia.
Qed.

(** Cutting or growing the slice keeps the separator at index 0, or makes a
    fresh one there. *)
Lemma resizeSeparators_first (n : nat) (seps : list Separator) (s : Separator) :
  resizeSeparators n seps !! 0%nat = Some s ->
  seps !! 0%nat = Some s \/ s = NewSeparator.
Proof.
  unfold resizeSeparators.
  destruct (Nat.ltb_spec 1 n) as [Hn|Hn]; [|discriminate].
  destruct (Nat.ltb_spec n (length seps)) as [Hl|Hl].
  - rewrite lookup_take_lt by lia. auto.
  - destruct seps as [|s0 seps]; simpl.
    + destruct n as [|n]; [lia|]. simpl. intros [= <-]. auto.
    + auto.
Qed.

Lemma updateSeparators_run (w : World) :
  exists seps',
    updateSeparators w = Ok tt (withLayout (withSeparators seps') w) /\
    length seps' = separatorCount (length (children (layout w))) /\
    (forall i c, (1 <= i)%nat -> children (layout w) !! i = Some c ->
       seps' !! i = Some (placedSeparator (theme w) (Width (baseSize (widget w)))
                                          (Y (itemPos (deref w c))))) /\
    seps' !! 0%nat
    = resizeSeparators (length (children (layout w))) (separators (layout w)) !! 0%nat.
Proof.
  unfold updateSeparators. rewrite bind_run. simpl. rewrite bind_run. simpl.
  set (n := length (children (layout w))).
  set (seps := resizeSeparators n (separators (layout w))).
  destruct (placeSeparators_spec (theme w) w (children (layout w)) 0 seps)
    as (seps' & E & L & _ & Hat).
  { intros j Hj Hne. subst seps. rewrite resizeSeparators_length.
    unfold separatorCount. fold n in Hj. destruct (Nat.ltb_spec 1 n); lia. }
  rewrite E. exists seps'. split; [reflexivity|].
  split; [rewrite L; apply resizeSeparators_length|].
  split; [intros i c Hi Hc; apply (Hat i c Hc); lia|].
  apply (placeSeparators_keeps _ _ _ _ _ _ _ E). right. reflexivity.
Qed.

Lemma publish_run (w : World) (sc : Scroll) :
  scroller (widget w) = Some sc ->
  publish w = Ok tt (withWidget (withScroller
                 (Some (mkScroll (Offset sc) (scrollSize sc)
                          ((ObjItem <$> children (layout w))
                           ++ (ObjSeparator <$> separators (layout w)))))) w).
Proof. intros H. unfold publish. rewrite bind_run. simpl. rewrite H. reflexivity. Qed.

(** ** One reconciliation pass *)

Lemma log_missing_run (w : World) :
  (if UpdateItem (widget w) then mret tt else emit EvLogError) w = Ok tt (logged w).
Proof. unfold logged. destruct (UpdateItem (widget w)); reflexivity. Qed.

Lemma logged_widget w : widget (logged w) = widget w.
Proof. unfold logged. destruct (UpdateItem (widget w)); reflexivity. Qed.

Lemma logged_layout w : layout (logged w) = layout w.
Proof. unfold logged. destruct (UpdateItem (widget w)); reflexivity. Qed.

Lemma logged_nextItem w : nextItem (logged w) = nextItem w.
Proof. unfold logged. destruct (UpdateItem (widget w)); reflexivity. Qed.

(** The visible range reads nothing that a pass changes. *)
Lemma visibleItemHeights_Frame (w w' : World) :
  Frame w w' ->
  visibleItemHeights (theme w') (widget w') (Height (itemMin (widget w')))
                     (lengthOf (widget w'))
  = visibleItemHeights (theme w) (widget w) (Height (itemMin (widget w)))
                       (lengthOf (widget w)).
Proof.
  intros [T W V _].
  pose proof (f_equal itemMin W) as Hmin.
  pose proof (f_equal itemHeights W) as Hh.
  pose proof (f_equal offsetY W) as Ho.
  pose proof (f_equal Length W) as Hl.
  simpl in Hmin, Hh, Ho, Hl.
  unfold visibleItemHeights, lengthOf. rewrite T, Hmin, Hh, Ho, Hl.
  destruct (scroller (widget w)) as [sc|], (scroller (widget w')) as [sc'|];
    simpl in V; try contradiction; [|reflexivity].
  destruct V as [_ ->]. reflexivity.
Qed.

(** The part of [updateList] after its first loop never panics, and this is
    the state it ends in. *)
Lemma updateList_after_mount refresh w rows offY minRow vis cells wa :
  visibleItemHeights (theme w) (widget w) (Height (itemMin (widget w)))
                     (lengthOf (widget w)) = Some (rows, offY, minRow) ->
  (length rows =? 0)%nat && (0 <? lengthOf (widget w))%Z = false ->
  mountRows (visible (layout w)) (Width (baseSize (widget w)))
            (Padding (theme w)) minRow rows 0%Z offY ∅ [] (logged w)
  = Ok (vis, cells) wa ->
  exists wb seps' w',
    releaseHidden (canvasFocus wa) (map_to_list (visible (layout w)))
                  (withLayout (withVisible vis) wa) = Ok tt wb /\
    updateList refresh w = Ok tt w' /\
    layout w' = mkLayout seps' cells (itemPool (layout wb)) vis /\
    nextItem w' = nextItem wa /\
    length seps' = separatorCount (length cells) /\
    (forall i c, (1 <= i)%nat -> cells !! i = Some c ->
       seps' !! i = Some (placedSeparator (theme w') (Width (baseSize (widget w')))
                                          (Y (itemPos (deref w' c))))) /\
    seps' !! 0%nat = resizeSeparators (length cells) (separators (layout w)) !! 0%nat.
Proof.
  intros Hvis Hgo Em.
  assert (Hsc : is_Some (scroller (widget w))).
  { unfold visibleItemHeights in Hvis.
    destruct (scroller (widget w)); [eauto|discriminate]. }
  assert (Fa : Frame (logged w) wa).
  { generalize (Keeps_Frame_mountRows (visible (layout w))
                  (Width (baseSize (widget w))) (Padding (theme w))
                  minRow rows 0%Z offY ∅ [] (logged w)).
    rewrite Em. auto. }
  destruct (releaseHidden_run (canvasFocus wa) (map_to_list (visible (layout w)))
              (withLayout (withVisible vis) wa)) as (wb & Er & Hr).
  set (wc := withLayout (withChildren cells) wb).
  destruct (updateSeparators_run wc) as (seps' & Es & Ls & Hat & Hfirst).
  set (wd := withLayout (withSeparators seps') wc) in *.
  assert (Hscd : is_Some (scroller (widget wd))).
  { simpl. rewrite (released_widget _ _ Hr). simpl.
    destruct Fa as [_ _ V _]. rewrite logged_widget in V.
    destruct Hsc as [sc0 Hsc0]. rewrite Hsc0 in V.
    destruct (scroller (widget wa)); [eauto|contradiction]. }
  destruct Hscd as [sc Hscd].
  pose proof (publish_run wd sc Hscd) as Ep.
  match type of Ep with publish _ = Ok tt ?x => set (we := x) in * end.
  destruct (setupRows_run (canvasFocus wa) (map_to_list vis) we)
    as (w' & Eu & Su & Fu).
  exists wb, seps', w'.
  split; [exact Er|]. split.
  { unfold updateList. rewrite bind_run. cbn [get].
    rewrite (bind_ok _ _ _ _ _ (log_missing_run w)).
    rewrite Hvis. cbv beta iota. rewrite Hgo.
    rewrite (bind_ok _ _ _ _ _ Em). cbv beta iota.
    rewrite bind_run. cbn [modify]. rewrite bind_run. cbn [get].
    rewrite (bind_ok _ _ _ _ _ Er).
    rewrite bind_run. cbn [modify]. fold wc.
    rewrite (bind_ok _ _ _ _ _ Es). fold wd.
    rewrite (bind_ok _ _ _ _ _ Ep). exact Eu. }
  destruct Su as [St Sl Sn _ Sp].
  split.
  { rewrite Sl. pose proof (released_visible _ _ Hr) as Hv. simpl in Hv.
    rewrite <- Hv. reflexivity. }
  split.
  { rewrite Sn. subst we wd wc. simpl. apply (released_nextItem _ _ Hr). }
  split; [exact Ls|].
  split.
  { intros i c Hi Hc'. rewrite (Hat i c Hi Hc'). f_equal.
    rewrite St, Sp.
    destruct Fu as [_ W _ _]. apply (f_equal baseSize) in W. simpl in W.
    rewrite W. reflexivity. }
  rewrite Hfirst. subst wc. simpl.
  rewrite (released_separators _ _ Hr). simpl.
  generalize (Keeps_sameSeparators_mountRows (visible (layout w))
                (Width (baseSize (widget w))) (Padding (theme w))
                minRow rows 0%Z offY ∅ [] (logged w)).
  rewrite Em. unfold sameSeparators. simpl. intros ->.
  rewrite logged_layout. reflexivity.
Qed.

(** What a completed pass has gone through. *)
Lemma updateList_ok_inv refresh w w1 :
  updateList refresh w = Ok tt w1 ->
  exists rows offY minRow,
    visibleItemHeights (theme w) (widget w) (Height (itemMin (widget w)))
                       (lengthOf (widget w)) = Some (rows, offY, minRow) /\
    if (length rows =? 0)%nat && (0 <? lengthOf (widget w))%Z
    then w1 = logged w
    else exists vis cells wa,
        mountRows (visible (layout w)) (Width (baseSize (widget w)))
                  (Padding (theme w)) minRow rows 0%Z offY ∅ [] (logged w)
        = Ok (vis, cells) wa.
Proof.
  intros H. unfold updateList in H. rewrite bind_run in H. cbn [get] in H.
  rewrite (bind_ok _ _ _ _ _ (log_missing_run w)) in H.
  destruct (visibleItemHeights (theme w) (widget w) (Height (itemMin (widget w)))
              (lengthOf (widget w))) as [[[rows offY] minRow]|]; [|discriminate].
  exists rows, offY, minRow. split; [reflexivity|].
  cbv beta iota in H.
  destruct ((length rows =? 0)%nat && (0 <? lengthOf (widget w))%Z).
  - injection H as <-. reflexivity.
  - rewrite bind_run in H.
    destruct (mountRows (visible (layout w)) (Width (baseSize (widget w)))
                (Padding (theme w)) minRow rows 0%Z offY ∅ [] (logged w))
      as [[vis cells] wa|]; [|discriminate].
    eauto.
Qed.

(** A pass completes as soon as the visible range is computed and rows can
    be created. *)
Lemma updateList_ok refresh w :
  is_Some (visibleItemHeights (theme w) (widget w) (Height (itemMin (widget w)))
                              (lengthOf (widget w))) ->
  is_Some (CreateItem (widget w)) ->
  exists w', updateList refresh w = Ok tt w' /\ Frame w w'.
Proof.
  intros [[[rows offY] minRow] Hvis] Hc.
  assert (Hex : exists w', updateList refresh w = Ok tt w').
  { destruct ((length rows =? 0)%nat && (0 <? lengthOf (widget w))%Z) eqn:Hgo.
    - exists (logged w). unfold updateList. rewrite bind_run. cbn [get].
      rewrite (bind_ok _ _ _ _ _ (log_missing_run w)).
      rewrite Hvis. cbv beta iota. rewrite Hgo. reflexivity.
    - destruct (mountRows_total (visible (layout w)) (Width (baseSize (widget w)))
                  (Padding (theme w)) minRow rows 0%Z offY ∅ [] (logged w))
        as ([vis cells] & wa & Em).
      { rewrite logged_widget. exact Hc. }
      destruct (updateList_after_mount refresh w rows offY minRow vis cells wa
                  Hvis Hgo Em) as (_ & _ & w' & _ & E & _).
      eauto. }
  destruct Hex as [w' E]. exists w'. split; [exact E|].
  generalize (Keeps_Frame_updateList refresh w). rewrite E. auto.
Qed.

(** ** Separators after a pass *)

Lemma placedSeparator_centre (th : Theme) (width childY : Q) :
  exists pos size,
    placedSeparator th width childY = mkSeparator (Some pos) (Some size) true /\
    X pos = 0%Q /\
    size = NewSize width (SeparatorThicknessSize th) /\
    Y pos = (childY - (Padding th + SeparatorThicknessSize th) / 2)%Q /\
    (Y pos + Height size / 2 == childY - Padding th / 2)%Q.
Proof.
  eexists _, _. split; [reflexivity|]. split; [reflexivity|].
  split; [reflexivity|]. split; [reflexivity|]. simpl. field.
Qed.

(** C4, as the code has it.  Take a pass whose visible range is computed
    and which is not cut short.  It completes whenever rows can be created
    ([CreateItem] is set).  Every such pass that completes
    leaves as many separators as there are visible rows when there are at
    least two rows, and none otherwise.  It never places the separator at
    index 0: what is at index 0 afterwards is what cutting or growing the
    slice left there, the separator that was at index 0 before, or a fresh
    one; if separator 0 was unplaced before the pass it is unplaced after
    it.  The separator at each index [i >= 1] is shown, as wide as the list
    and as thick as the theme's separator, at x = 0 and half a padding plus
    half a thickness above row [i], which centres it on the middle of the
    padding above row [i]. *)
Theorem updateList_separators refresh w rows offY minRow :
  visibleItemHeights (theme w) (widget w) (Height (itemMin (widget w)))
                     (lengthOf (widget w)) = Some (rows, offY, minRow) ->
  (length rows =? 0)%nat && (0 <? lengthOf (widget w))%Z = false ->
  (is_Some (CreateItem (widget w)) -> exists w', updateList refresh w = Ok tt w') /\
  (forall w',
     updateList refresh w = Ok tt w' ->
     length (children (layout w')) = length rows /\
     length (separators (layout w')) = separatorCount (length rows) /\
     separators (layout w') !! 0%nat
     = resizeSeparators (length rows) (separators (layout w)) !! 0%nat /\
     ((forall s, separators (layout w) !! 0%nat = Some s -> s = NewSeparator) ->
      forall s, separators (layout w') !! 0%nat = Some s -> s = NewSeparator) /\
     (forall i c, (1 <= i)%nat -> children (layout w') !! i = Some c ->
        exists pos size,
          separators (layout w') !! i = Some (mkSeparator (Some pos) (Some size) true) /\
          X pos = 0%Q /\
          size = NewSize (Width (baseSize (widget w')))
                         (SeparatorThicknessSize (theme w')) /\
          Y pos = (Y (itemPos (deref w' c))
                   - (Padding (theme w') + SeparatorThicknessSize (theme w')) / 2)%Q /\
          (Y pos + Height size / 2
           == Y (itemPos (deref w' c)) - Padding (theme w') / 2)%Q)).
Proof.
  intros Hvis Hgo. split.
  - intros Hc.
    destruct (mountRows_total (visible (layout w)) (Width (baseSize (widget w)))
                (Padding (theme w)) minRow rows 0%Z offY ∅ [] (logged w))
      as ([vis cells] & wa & Em).
    { rewrite logged_widget. exact Hc. }
    destruct (updateList_after_mount refresh w rows offY minRow vis cells wa
                Hvis Hgo Em) as (_ & _ & w' & _ & E & _).
    exists w'. exact E.
  - intros w' Hok.
    destruct (updateList_ok_inv refresh w w' Hok)
      as (rows0 & offY0 & minRow0 & Hvis0 & Hrun).
    rewrite Hvis in Hvis0. injection Hvis0 as <- <- <-.
    rewrite Hgo in Hrun. destruct Hrun as (vis & cells & wa & Em).
    destruct (updateList_after_mount refresh w rows offY minRow vis cells wa
                Hvis Hgo Em) as (wb & seps' & w1 & _ & E & Hly & _ & Ls & Hat & Hfirst).
    rewrite Hok in E. injection E as <-.
    apply mountRows_vis in Em as (Hl & _ & _). simpl in Hl.
    rewrite Hly. simpl. rewrite Hl in Ls, Hfirst.
    split; [exact Hl|]. split; [exact Ls|]. split; [exact Hfirst|].
    split.
    + intros Hold s Hs. rewrite Hfirst in Hs.
      destruct (resizeSeparators_first _ _ _ Hs) as [H0|H0]; [|exact H0].
      apply Hold, H0.
    + intros i c Hi Hcell. rewrite (Hat i c Hi Hcell).
      destruct (placedSeparator_centre (theme w') (Width (baseSize (widget w')))
                  (Y (itemPos (deref w' c))))
        as (pos & size & -> & HX & Hsz & HY & Hmid).
      exists pos, size. auto.
Qed.

Lemma updateList_separators_witness :
  (is_Some (CreateItem (widget list100)) ->
   exists w', updateList true list100 = Ok tt w') /\
  (forall w',
     updateList true list100 = Ok tt w' ->
     length (children (layout w')) = 3%nat /\
     length (separators (layout w')) = separatorCount 3 /\
     separators (layout w') !! 0%nat
     = resizeSeparators 3 (separators (layout list100)) !! 0%nat /\
     ((forall s, separators (layout list100) !! 0%nat = Some s -> s = NewSeparator) ->
      forall s, separators (layout w') !! 0%nat = Some s -> s = NewSeparator) /\
     (forall i c, (1 <= i)%nat -> children (layout w') !! i = Some c ->
        exists pos size,
          separators (layout w') !! i = Some (mkSeparator (Some pos) (Some size) true) /\
          X pos = 0%Q /\
          size = NewSize (Width (baseSize (widget w')))
                         (SeparatorThicknessSize (theme w')) /\
          Y pos = (Y (itemPos (deref w' c))
                   - (Padding (theme w') + SeparatorThicknessSize (theme w')) / 2)%Q /\
          (Y pos + Height size / 2
           == Y (itemPos (deref w' c)) - Padding (theme w') / 2)%Q)).
Proof.
  apply (updateList_separators true list100 [20%Q; 20%Q; 20%Q] 0%Q 0%Z).
  - vm_compute. reflexivity.
  - vm_compute. reflexivity.
Defined.

(** C4, as the claim states it, fails: after a pass over the example list
    three rows are visible and the layout keeps three separators, not two. *)
Lemma separators_not_one_fewer :
  exists w',
    updateList true list100 = Ok tt w' /\
    length (children (layout w')) = 3%nat /\
    length (separators (layout w')) = 3%nat /\
    length (separators (layout w')) <> (length (children (layout w')) - 1)%nat.
Proof.
  destruct (updateList true list100) as [[] w'|] eqn:E;
    [|vm_compute in E; discriminate E].
  exists w'. split; [reflexivity|].
  assert (Hw : w' = stateOf (updateList true list100)) by (rewrite E; reflexivity).
  assert (Hc : length (children (layout w')) = 3%nat)
    by (subst w'; vm_compute; reflexivity).
  assert (Hs : length (separators (layout w')) = 3%nat)
    by (subst w'; vm_compute; reflexivity).
  split; [exact Hc|]. split; [exact Hs|]. rewrite Hc, Hs. discriminate.
Qed.

(** ** Reconciling twice *)

(** C9.  When a pass has completed, a second pass over the state it left
    completes too and mounts the same views at the same rows; it takes no
    view from the pool, returns none to it and creates none. *)
Theorem updateList_twice refresh1 refresh2 w w1 :
  updateList refresh1 w = Ok tt w1 ->
  exists w2,
    updateList refresh2 w1 = Ok tt w2 /\
    visible (layout w2) = visible (layout w1) /\
    itemPool (layout w2) = itemPool (layout w1) /\
    nextItem w2 = nextItem w1.
Proof.
  intros E1.
  assert (F1 : Frame w w1).
  { generalize (Keeps_Frame_updateList refresh1 w). rewrite E1. auto. }
  pose proof (visibleItemHeights_Frame w w1 F1) as Hsame.
  assert (Hlen : lengthOf (widget w1) = lengthOf (widget w)).
  { destruct F1 as [_ W _ _]. apply (f_equal Length) in W. simpl in W.
    unfold lengthOf. rewrite W. reflexivity. }
  destruct (updateList_ok_inv refresh1 w w1 E1)
    as (rows & offY & minRow & Hvis & Hcase).
  rewrite Hvis in Hsame.
  destruct ((length rows =? 0)%nat && (0 <? lengthOf (widget w))%Z) eqn:Hgo.
  - (* both passes are cut short *)
    exists (logged w1). split.
    + unfold updateList. rewrite bind_run. cbn [get].
      rewrite (bind_ok _ _ _ _ _ (log_missing_run w1)).
      rewrite Hsame. cbv beta iota. rewrite Hlen, Hgo. reflexivity.
    + rewrite logged_layout, logged_nextItem. auto.
  - destruct Hcase as (vis & cells & wa & Em).
    destruct (updateList_after_mount refresh1 w rows offY minRow vis cells wa
                Hvis Hgo Em) as (wb & seps & w1' & _ & E1' & Hly1 & _).
    rewrite E1 in E1'. injection E1' as <-.
    apply mountRows_vis in Em as (_ & Hin & Hout).
    assert (Hv1 : visible (layout w1) = vis) by (rewrite Hly1; reflexivity).
    (* the second pass finds every row mounted *)
    destruct (mountRows_reuse (visible (layout w1)) (Width (baseSize (widget w1)))
                (Padding (theme w1)) minRow rows 0%Z offY ∅ [] (logged w1))
      as (vis2 & cells2 & wa2 & Em2 & Hly2 & Hn2 & Hre).
    { intros row Hrow. rewrite Hv1. apply Hin, Hrow. }
    assert (Hgo2 : (length rows =? 0)%nat && (0 <? lengthOf (widget w1))%Z = false)
      by (rewrite Hlen; exact Hgo).
    destruct (updateList_after_mount refresh2 w1 rows offY minRow vis2 cells2 wa2
                Hsame Hgo2 Em2) as (wb2 & seps2 & w2 & Er2 & E2 & Hlyw2 & Hnw2 & _).
    assert (Hv2 : vis2 = vis).
    { apply map_eq. intros row.
      destruct (decide (mountedRow minRow 0 (length rows) row)) as [Hrow|Hrow].
      - rewrite (Hre row Hrow), Hv1. reflexivity.
      - apply mountRows_vis in Em2 as (_ & _ & Hout2).
        rewrite (Hout2 row Hrow), (Hout row Hrow). reflexivity. }
    rewrite releaseHidden_mounted in Er2.
    2:{ intros id old Hin'. simpl. rewrite Hv2, <- Hv1.
        apply list_elem_of_In, elem_of_map_to_list in Hin'. eauto. }
    injection Er2 as <-.
    exists w2. split; [exact E2|]. rewrite Hlyw2, Hnw2, Hn2, logged_nextItem.
    simpl. rewrite Hly2, logged_layout, Hv1, Hv2. auto.
Qed.

Lemma updateList_twice_witness :
  exists w1,
    updateList true list100_scrolled = Ok tt w1 /\
    exists w2,
      updateList true w1 = Ok tt w2 /\
      visible (layout w2) = visible (layout w1) /\
      itemPool (layout w2) = itemPool (layout w1) /\
      nextItem w2 = nextItem w1.
Proof.
  destruct (updateList true list100_scrolled) as [[] w1|] eqn:E;
    [|vm_compute in E; discriminate E].
  exists w1. split; [reflexivity|].
  exact (updateList_twice true true list100_scrolled w1 E).
Defined.

(** ** States in which nothing panics *)








Lemma scrolledOffsetY_nonneg (y h : Q) (sc : Scroll) :
  (0 <= y)%Q -> (0 <= Y (Offset sc))%Q -> (0 <= scrolledOffsetY y h sc)%Q.
Proof.
  intros Hy Ho. unfold scrolledOffsetY.
  destruct (Qlt_bool y (Y (Offset sc))); [exact Hy|].
  destruct (Qlt_bool (Y (Offset sc) + Height (scrollSize sc)) (y + h)) eqn:E;
    [|exact Ho].
  apply Qlt_bool_true in E. lra.
Qed.






(** ** Selecting *)









(** * Further properties of the code *)

(** ** What the visible range returns *)

Lemma uniformRows_bounds (padding scrollY viewHeight itemHeight : Q)
    (length : Z) (rows : list Q) (offY : Q) (minRow : Z) :
  uniformRows padding scrollY viewHeight itemHeight length
  = Some (rows, offY, minRow) ->
  (0 <= minRow)%Z /\
  (rows = [] \/ (minRow + Z.of_nat (List.length rows) <= length)%Z).
Proof.
  unfold uniformRows.
  set (p := (itemHeight + padding)%Q).
  set (k := Qfloor (inject_Z (Qfloor (scrollY / p)) * p / p)).
  set (m := Qceiling ((inject_Z (Qfloor (scrollY / p)) * p + viewHeight) / p)).
  set (first := if (length - 1 <? k)%Z then (length - 1)%Z else k).
  set (last := if (length <? m)%Z then length else m).
  assert (Hlast : (last <= length)%Z)
    by (subst last; destruct (Z.ltb_spec length m); lia).
  destruct (Z.ltb_spec first 0) as [Hf|Hf].
  - destruct (Z.ltb_spec (last - 0) 0); [discriminate|].
    intros Heq. injection Heq as <- _ <-. split; [lia|]. right.
    rewrite length_replicate. lia.
  - destruct (Z.ltb_spec (last - first) 0); [discriminate|].
    intros Heq. injection Heq as <- _ <-. split; [lia|]. right.
    rewrite length_replicate. lia.
Qed.

(** X3.  On a list without height overrides, every row index that
    [visibleItemHeights] returns is an index of the list: the range
    [[minRow, minRow + len(visible))] lies inside [[0, length)].  The two
    ends of the range are clamped to the list after they are computed, so
    this holds whatever the scroll offset, the padding and the heights,
    and whatever the divisions of the function evaluate to. *)
Theorem uniform_rows_in_range
    (th : Theme) (l : List) (itemHeight : Q) (length : Z)
    (r : list Q * Q * Z) :
  size (itemHeights l) = 0%nat ->
  visibleItemHeights th l itemHeight length = Some r ->
  forall i, returnedRow r i -> (0 <= i < length)%Z.
Proof.
  intros Hsize Hvis i Hi. destruct r as [[rows offY] minRow].
  unfold returnedRow in Hi. unfold visibleItemHeights in Hvis.
  destruct (scroller l) as [sc|]; [|discriminate].
  destruct (Qle_bool (Height (scrollSize sc)) 0).
  { injection Hvis as <- _ <-. simpl in Hi. lia. }
  rewrite Hsize in Hvis. cbn [Nat.eqb] in Hvis.
  apply uniformRows_bounds in Hvis as (Hmin & [->|Hmax]); [simpl in Hi|]; lia.
Qed.

Lemma uniform_rows_in_range_witness :
  exists r,
    size (itemHeights (widget list100_scrolled)) = 0%nat /\
    visibleItemHeights theme1 (widget list100_scrolled) 20 100 = Some r /\
    forall i, returnedRow r i -> (0 <= i < 100)%Z.
Proof.
  destruct (visibleItemHeights theme1 (widget list100_scrolled) 20 100)
    as [r|] eqn:E; [|vm_compute in E; discriminate E].
  exists r.
  assert (Hs : size (itemHeights (widget list100_scrolled)) = 0%nat)
    by (vm_compute; reflexivity).
  split; [exact Hs|]. split; [reflexivity|].
  exact (uniform_rows_in_range theme1 (widget list100_scrolled) 20 100 r Hs E).
Defined.

(** X4.  For an empty list, and for a viewport without height, a call of
    [visibleItemHeights] that returns, returns no row. *)
Theorem visibleItemHeights_nothing_to_show
    (th : Theme) (l : List) (itemHeight : Q) (length : Z)
    (rows : list Q) (offY : Q) (minRow : Z) :
  visibleItemHeights th l itemHeight length = Some (rows, offY, minRow) ->
  (length <= 0)%Z \/
  (exists sc, scroller l = Some sc /\ (Height (scrollSize sc) <= 0)%Q) ->
  rows = [].
Proof.
  intros Hvis Hcase. unfold visibleItemHeights in Hvis.
  destruct (scroller l) as [sc|]; [|discriminate].
  destruct (Qle_bool (Height (scrollSize sc)) 0) eqn:Hh.
  { injection Hvis as <- _ _. reflexivity. }
  destruct Hcase as [Hlen|(sc' & Hsc & Hle)].
  2:{ injection Hsc as <-. apply Qle_bool_iff in Hle. congruence. }
  destruct (size (itemHeights l) =? 0)%nat.
  - apply uniformRows_bounds in Hvis as (Hmin & [->|Hmax]); [reflexivity|].
    destruct rows; [reflexivity|simpl in Hmax; lia].
  - replace (Z.to_nat length) with 0%nat in Hvis by lia.
    injection Hvis as <- _ _. reflexivity.
Qed.

Lemma visibleItemHeights_nothing_to_show_witness :
  let l := withScroller (Some (mkScroll (NewPos 0 0) (NewSize 100 50) []))
             (widget (NewList theme1 (Some 0%Z) (Some (NewSize 100 20)) true)) in
  visibleItemHeights theme1 l 20 0 = Some ([], 0%Q, 0%Z) /\
  ((0 <= 0)%Z \/
   (exists sc, scroller l = Some sc /\ (Height (scrollSize sc) <= 0)%Q)) /\
  @nil Q = [].
Proof.
  intros l.
  assert (H1 : visibleItemHeights theme1 l 20 0 = Some ([], 0%Q, 0%Z))
    by (vm_compute; reflexivity).
  assert (H2 : (0 <= 0)%Z \/
               (exists sc, scroller l = Some sc /\ (Height (scrollSize sc) <= 0)%Q))
    by (left; lia).
  split; [exact H1|]. split; [exact H2|].
  exact (visibleItemHeights_nothing_to_show theme1 l 20 0 [] 0%Q 0%Z H1 H2).
Defined.

(** ** What the selection operations leave *)

#[global] Instance sameSelected_preorder : PreOrder sameSelected.
Proof. split; unfold sameSelected; [auto|intros x y z; congruence]. Qed.

Lemma Keeps_sameSelected_of_SelFrame {A} (m : M A) :
  Keeps SelFrame m -> Keeps sameSelected m.
Proof. apply Keeps_weaken. intros w w' H. apply (sel_selected _ _ H). Qed.

Lemma Keeps_sameSelected_emit e : Keeps sameSelected (emit e).
Proof. apply Keeps_modify. intros w. reflexivity. Qed.

Lemma Keeps_sameSelected_selectCallbacks old id :
  Keeps sameSelected (selectCallbacks old id).
Proof. unfold selectCallbacks. keeps; apply Keeps_sameSelected_emit. Qed.

(** The deferred callbacks and the body of [Select] leave the selection
    alone. *)
Lemma Select_body_selected (old : list ListItemID) (id : ListItemID) (w : World) :
  selected (widget (stateOf (defer (selectCallbacks old id)
                                   (scrollTo id;; Refresh) w)))
  = selected (widget w).
Proof.
  assert (H : sameSelected w (stateOf (defer (selectCallbacks old id)
                                             (scrollTo id;; Refresh) w))).
  { apply Keeps_defer; [apply _| |apply Keeps_sameSelected_selectCallbacks].
    keeps; apply Keeps_sameSelected_of_SelFrame;
      [apply Keeps_SelFrame_scrollTo|apply Keeps_SelFrame_Refresh]. }
  exact H.
Qed.

(** The selection that [Select(id)] leaves for an index inside the list. *)
Lemma Select_selection (w : World) (id : ListItemID) :
  (0 <= id < lengthOf (widget w))%Z ->
  selected (widget (stateOf (Select id w)))
  = match selected (widget w) with
    | s :: _ => if (id =? s)%Z then selected (widget w) else [id]
    | [] => [id]
    end.
Proof.
  intros Hid. unfold Select. rewrite bind_run. cbn [get].
  assert (Hin : (id <? 0)%Z || (lengthOf (widget w) <=? id)%Z = false)
    by (apply orb_false_iff; split; lia).
  destruct (selected (widget w)) as [|s rest] eqn:Hsel.
  - rewrite Hin, bind_run. cbn [modify]. rewrite Select_body_selected.
    reflexivity.
  - destruct (id =? s)%Z.
    + simpl. exact Hsel.
    + rewrite Hin, bind_run. cbn [modify]. rewrite Select_body_selected.
      reflexivity.
Qed.

(** X6.  After [Select(id)] with [id] inside the list, [id] is the selected
    index, whether the call returns or panics on the way; and when [id] was
    not the selected index before, it is the only one after. *)
Theorem Select_selects (w : World) (id : ListItemID) :
  (0 <= id < lengthOf (widget w))%Z ->
  head (selected (widget (stateOf (Select id w)))) = Some id /\
  (head (selected (widget w)) <> Some id ->
   selected (widget (stateOf (Select id w))) = [id]).
Proof.
  intros Hid. rewrite (Select_selection w id Hid).
  destruct (selected (widget w)) as [|s rest].
  - split; reflexivity.
  - destruct (Z.eqb_spec id s) as [->|Hne].
    + split; [reflexivity|]. simpl. intros H. congruence.
    + split; reflexivity.
Qed.

Lemma Select_selects_witness :
  (0 <= 7 < lengthOf (widget list100))%Z /\
  head (selected (widget (stateOf (Select 7%Z list100)))) = Some 7%Z /\
  (head (selected (widget list100)) <> Some 7%Z ->
   selected (widget (stateOf (Select 7%Z list100))) = [7%Z]).
Proof.
  assert (H : (0 <= 7 < lengthOf (widget list100))%Z)
    by (split; vm_compute; [discriminate|reflexivity]).
  split; [exact H|]. exact (Select_selects list100 7%Z H).
Defined.

(** X7.  A tap on a view whose handler is bound to row [id] of the list
    selects row [id]. *)
Theorem Tapped_selects_bound_row (w : World) (li : nat) (id : ListItemID) :
  onTapped (deref w li) = Some id ->
  (0 <= id < lengthOf (widget w))%Z ->
  head (selected (widget (stateOf (Tapped li w)))) = Some id.
Proof.
  intros Hb Hid. unfold Tapped. rewrite bind_run. cbn [get]. rewrite Hb.
  rewrite bind_run, updItem_run. rewrite bind_run.
  unfold itemRefresh. rewrite updItem_run.
  rewrite Select_selection by exact Hid. cbn [widget withHeap].
  destruct (selected (widget w)) as [|s rest]; [reflexivity|].
  destruct (Z.eqb_spec id s) as [->|Hne]; reflexivity.
Qed.

Lemma Tapped_selects_bound_row_witness :
  (onTapped (deref list100 1%nat) = Some 1%Z /\
   (0 <= 1 < lengthOf (widget list100))%Z) /\
  head (selected (widget (stateOf (Tapped 1%nat list100)))) = Some 1%Z.
Proof.
  assert (H1 : onTapped (deref list100 1%nat) = Some 1%Z)
    by (vm_compute; reflexivity).
  assert (H2 : (0 <= 1 < lengthOf (widget list100))%Z)
    by (split; vm_compute; [discriminate|reflexivity]).
  split; [split; assumption|].
  exact (Tapped_selects_bound_row list100 1%nat 1%Z H1 H2).
Defined.



(** X9.  With one selected index, [UnselectAll] is [Unselect] of that index:
    the same state, the same events, the same panic if there is one. *)
Theorem UnselectAll_is_Unselect (w : World) (id : ListItemID) :
  selected (widget w) = [id] -> UnselectAll w = Unselect id w.
Proof.
  intros Hsel. unfold UnselectAll, Unselect. rewrite !bind_run. cbn [get].
  rewrite Hsel, Z.eqb_refl. cbn [negb].
  rewrite !bind_run. cbn [modify]. rewrite !bind_run.
  destruct (Refresh (withWidget (withSelected []) w)) as [[] w2|w2];
    [|reflexivity].
  destruct (OnUnselected (widget w)); reflexivity.
Qed.

Lemma UnselectAll_is_Unselect_witness :
  selected (widget list100_selected3) = [3%Z] /\
  UnselectAll list100_selected3 = Unselect 3%Z list100_selected3.
Proof.
  assert (H : selected (widget list100_selected3) = [3%Z])
    by (vm_compute; reflexivity).
  split; [exact H|]. exact (UnselectAll_is_Unselect list100_selected3 3%Z H).
Defined.

(** ** The recorded scroll position *)

#[global] Instance keepsSynced_preorder : PreOrder keepsSynced.
Proof. split; unfold keepsSynced; [auto|intros x y z; tauto]. Qed.

Lemma Frame_Synced (w w' : World) : Frame w w' -> Synced w -> Synced w'.
Proof.
  intros [_ W V _]. unfold Synced.
  pose proof (f_equal offsetY W) as E. simpl in E. rewrite E.
  destruct (scroller (widget w)) as [sc|], (scroller (widget w')) as [sc'|];
    simpl in V; try contradiction; auto.
  destruct V as [-> _]. auto.
Qed.

Lemma Keeps_keepsSynced_of_Frame {A} (m : M A) :
  Keeps Frame m -> Keeps keepsSynced m.
Proof. apply Keeps_weaken. intros w w' F. exact (Frame_Synced w w' F). Qed.

Lemma Keeps_keepsSynced_silent (f : World -> World) :
  (forall w, offsetY (widget (f w)) = offsetY (widget w)) ->
  (forall w, sameOffset w (f w) /\ sameOffset (f w) w) ->
  Keeps keepsSynced (modify f).
Proof.
  intros Ho Hs. apply Keeps_modify. intros w. unfold keepsSynced, Synced.
  rewrite Ho. destruct (Hs w) as [H1 H2]. unfold sameOffset in H1, H2.
  destruct (scroller (widget w)), (scroller (widget (f w)));
    try contradiction; auto.
  rewrite H1. auto.
Qed.

(** After [offsetUpdated(pos)] the recorded position is [pos.Y]. *)
Lemma offsetUpdated_Synced (pos : Position) (w : World) (sc : Scroll) :
  scroller (widget w) = Some sc -> (Y (Offset sc) == Y pos)%Q ->
  Synced (stateOf (offsetUpdated pos w)).
Proof.
  intros Hsc Hpos. unfold offsetUpdated. rewrite bind_run. cbn [get].
  destruct (Qeq_bool (offsetY (widget w)) (Y pos)) eqn:E.
  - apply Qeq_bool_iff in E. simpl. unfold Synced. rewrite Hsc.
    rewrite E, Hpos. reflexivity.
  - rewrite bind_run. cbn [modify].
    apply (Frame_Synced _ _ (Keeps_Frame_updateList false _)).
    unfold Synced. simpl. rewrite Hsc. symmetry. exact Hpos.
Qed.

Lemma Keeps_keepsSynced_scrollTo id : Keeps keepsSynced (scrollTo id).
Proof.
  intros w Hw. unfold scrollTo. rewrite bind_run. cbn [get].
  destruct (scroller (widget w)) as [sc|] eqn:Hsc; [|exact Hw].
  rewrite bind_run. cbn [modify].
  eapply offsetUpdated_Synced; [reflexivity|]. simpl. reflexivity.
Qed.

Lemma Keeps_keepsSynced_OnScrolled pos : Keeps keepsSynced (OnScrolled pos).
Proof.
  intros w Hw. unfold OnScrolled. rewrite bind_run. cbn [get].
  destruct (scroller (widget w)) as [sc|] eqn:Hsc; [|exact Hw].
  rewrite bind_run. cbn [modify].
  eapply offsetUpdated_Synced; [reflexivity|]. simpl. reflexivity.
Qed.

Lemma Keeps_keepsSynced_rendererLayout s : Keeps keepsSynced (rendererLayout s).
Proof.
  intros w Hw. unfold rendererLayout. rewrite bind_run. cbn [get].
  destruct (scroller (widget w)) as [sc|] eqn:Hsc; [|exact Hw].
  simpl. unfold Synced in *. rewrite Hsc in Hw. simpl. exact Hw.
Qed.

Lemma Keeps_keepsSynced_emit e : Keeps keepsSynced (emit e).
Proof. apply Keeps_modify. intros w H. exact H. Qed.

Lemma Keeps_keepsSynced_ensureRenderer : Keeps keepsSynced ensureRenderer.
Proof.
  intros w Hw. unfold ensureRenderer. rewrite bind_run. cbn [get].
  destruct (scroller (widget w)) as [sc|] eqn:Hsc; [exact Hw|].
  unfold Synced in Hw. rewrite Hsc in Hw.
  unfold CreateRenderer. rewrite bind_run. cbn [get].
  set (w1 := match CreateItem (widget w) with
             | Some sz => if IsZero (itemMin (widget w))
                          then withWidget (withItemMin sz) w else w
             | None => w
             end).
  assert (E1 : match CreateItem (widget w) with
               | Some sz => if IsZero (itemMin (widget w))
                            then modify (withWidget (withItemMin sz)) else mret tt
               | None => mret tt
               end w = Ok tt w1).
  { subst w1. destruct (CreateItem (widget w)); [|reflexivity].
    destruct (IsZero (itemMin (widget w))); reflexivity. }
  assert (Ho : offsetY (widget w1) = offsetY (widget w)).
  { subst w1. destruct (CreateItem (widget w)); [|reflexivity].
    destruct (IsZero (itemMin (widget w))); reflexivity. }
  rewrite bind_run, E1. rewrite bind_run. cbn [modify].
  rewrite bind_run. cbn [modify]. rewrite bind_run. cbn [get].
  match goal with
  | |- Synced (stateOf ((if _ then _ else _) ?w2)) =>
    assert (H2 : Synced w2) by (unfold Synced; simpl; rewrite Ho; exact Hw);
    destruct (Size_eqb (layoutMinSize (theme w2) (widget w2)) (NewSize 0 0));
      [exact H2|apply (Frame_Synced _ _ (Keeps_Frame_updateList true _)), H2]
  end.
Qed.

Ltac synced_leaf :=
  first
    [ apply Keeps_keepsSynced_emit
    | apply Keeps_keepsSynced_of_Frame, Keeps_Frame_updateList
    | apply Keeps_keepsSynced_of_Frame, Keeps_Frame_updItem
    | apply Keeps_keepsSynced_of_Frame, Keeps_Frame_itemRefresh
    | apply Keeps_keepsSynced_rendererLayout
    | apply Keeps_keepsSynced_ensureRenderer
    | apply Keeps_keepsSynced_scrollTo
    | apply Keeps_keepsSynced_silent; intros ?;
      [reflexivity|unfold sameOffset; simpl;
                   match goal with
                   | |- context [scroller ?l] => destruct (scroller l)
                   end; auto] ].

Lemma Keeps_keepsSynced_rendererRefresh : Keeps keepsSynced rendererRefresh.
Proof. unfold rendererRefresh. keeps; synced_leaf. Qed.

Lemma Refresh_ensureRenderer :
  Refresh = (emit EvRefresh;; ensureRenderer;; rendererRefresh).
Proof. reflexivity. Qed.

Lemma Keeps_keepsSynced_Refresh : Keeps keepsSynced Refresh.
Proof.
  rewrite Refresh_ensureRenderer.
  keeps; try synced_leaf. apply Keeps_keepsSynced_rendererRefresh.
Qed.

Lemma Keeps_keepsSynced_ensured {A} (k : M A) :
  Keeps keepsSynced k -> Keeps keepsSynced (ensureRenderer;; k).
Proof. intros Hk. keeps; [synced_leaf|exact Hk]. Qed.

Lemma Keeps_keepsSynced_baseResize s : Keeps keepsSynced (baseResize s).
Proof.
  intros w Hw. unfold baseResize. rewrite bind_run. cbn [get].
  destruct (Size_eqb (baseSize (widget w)) s); [exact Hw|].
  rewrite bind_run. cbn [modify].
  set (w1 := withWidget (withBaseSize s) w).
  change (Synced (stateOf ((ensureRenderer;; rendererLayout s) w1))).
  apply (Keeps_keepsSynced_ensured _ (Keeps_keepsSynced_rendererLayout s) w1).
  exact Hw.
Qed.

Lemma Keeps_keepsSynced_Resize s : Keeps keepsSynced (Resize s).
Proof.
  intros w Hw. unfold Resize. rewrite bind_run.
  pose proof (Keeps_keepsSynced_baseResize s w Hw) as H1.
  destruct (baseResize s w) as [[] w1|w1]; simpl in H1; [|exact H1].
  rewrite bind_run. cbn [get].
  destruct (scroller (widget w1)) as [sc|] eqn:Hsc; [|exact H1].
  rewrite bind_run.
  pose proof (offsetUpdated_Synced (Offset sc) w1 sc Hsc (Qeq_refl _)) as H2.
  destruct (offsetUpdated (Offset sc) w1) as [[] w2|w2]; simpl in H2; [|exact H2].
  apply (Frame_Synced _ _ (Keeps_Frame_updateList true _)), H2.
Qed.

Ltac synced_op :=
  first
    [ synced_leaf
    | apply Keeps_keepsSynced_Refresh ].

Lemma Keeps_keepsSynced_selectCallbacks old id :
  Keeps keepsSynced (selectCallbacks old id).
Proof. unfold selectCallbacks. keeps; synced_leaf. Qed.

Lemma Keeps_keepsSynced_unselectCallbacks ids :
  Keeps keepsSynced (unselectCallbacks ids).
Proof.
  induction ids as [|id ids IH]; simpl; keeps; [synced_leaf|apply IH].
Qed.

Lemma Keeps_keepsSynced_Select id : Keeps keepsSynced (Select id).
Proof.
  unfold Select. keeps; try synced_op. apply Keeps_keepsSynced_selectCallbacks.
Qed.

Lemma Keeps_keepsSynced_Unselect id : Keeps keepsSynced (Unselect id).
Proof. unfold Unselect. keeps; synced_op. Qed.

Lemma Keeps_keepsSynced_UnselectAll : Keeps keepsSynced UnselectAll.
Proof.
  unfold UnselectAll. keeps; try synced_op.
  apply Keeps_keepsSynced_unselectCallbacks.
Qed.

Lemma Keeps_keepsSynced_SetItemHeight id h : Keeps keepsSynced (SetItemHeight id h).
Proof. unfold SetItemHeight. keeps; synced_op. Qed.

Lemma Keeps_keepsSynced_Tapped li : Keeps keepsSynced (Tapped li).
Proof. unfold Tapped. keeps; try synced_op. apply Keeps_keepsSynced_Select. Qed.

Lemma Keeps_keepsSynced_runOp (o : Op) : Keeps keepsSynced (runOp o).
Proof.
  destruct o; simpl.
  - apply Keeps_keepsSynced_Select.
  - apply Keeps_keepsSynced_Unselect.
  - apply Keeps_keepsSynced_UnselectAll.
  - unfold ScrollTo. keeps; synced_op.
  - unfold ScrollToTop. keeps; synced_op.
  - unfold ScrollToBottom. keeps; synced_op.
  - apply Keeps_keepsSynced_SetItemHeight.
  - apply Keeps_keepsSynced_Resize.
  - apply Keeps_keepsSynced_Refresh.
  - apply Keeps_keepsSynced_Tapped.
  - apply Keeps_keepsSynced_OnScrolled.
Qed.

(** X10.  The scroll position that the list records in [offsetY] is the
    offset of its scroller (and zero while there is no scroller): this holds
    in a new list, and every sequence of public operations keeps it, also
    when an operation panics on the way. *)
Theorem offset_stays_synced (w : World) (os : list Op) :
  Synced w -> Synced (runOps os w).
Proof.
  revert w. induction os as [|o os IH]; intros w Hw; simpl; [exact Hw|].
  apply IH. apply (Keeps_keepsSynced_runOp o w), Hw.
Qed.

Lemma offset_stays_synced_witness :
  Synced (NewList theme1 (Some 100%Z) (Some (NewSize 100 20)) true) /\
  Synced (runOps [OpResize (NewSize 100 50); OpScrolled (NewPos 0 33);
                  OpSelect 40%Z; OpSetItemHeight 2%Z 35%Q; OpScrollToBottom]
                 (NewList theme1 (Some 100%Z) (Some (NewSize 100 20)) true)).
Proof.
  assert (H : Synced (NewList theme1 (Some 100%Z) (Some (NewSize 100 20)) true))
    by (unfold Synced; simpl; reflexivity).
  split; [exact H|]. apply (offset_stays_synced _ _ H).
Defined.

(** ** Where [scrollTo] leaves the viewport *)

#[global] Instance SameRows_preorder : PreOrder SameRows.
Proof.
  split.
  - intros w. split; reflexivity.
  - intros a b c [? ? ?] [? ? ?]. split; congruence.
Qed.

Lemma Frame_SameRows (w w' : World) : Frame w w' -> SameRows w w'.
Proof.
  intros [T W _ _]. split; [exact T| |].
  - exact (f_equal itemMin W).
  - exact (f_equal itemHeights W).
Qed.

(** [offsetUpdated] moves no row and leaves the scroller where it is. *)
Lemma offsetUpdated_view (pos : Position) (w : World) :
  sameViewport (scroller (widget w))
               (scroller (widget (stateOf (offsetUpdated pos w)))) /\
  SameRows w (stateOf (offsetUpdated pos w)).
Proof.
  unfold offsetUpdated. rewrite bind_run. cbn [get].
  destruct (Qeq_bool (offsetY (widget w)) (Y pos)).
  - simpl. split; reflexivity.
  - rewrite bind_run. cbn [modify].
    pose proof (Keeps_Frame_updateList false
                  (withWidget (withOffsetY (Y pos)) w)) as F.
    split.
    + exact (frame_viewport _ _ F).
    + destruct (Frame_SameRows _ _ F) as [R1 R2 R3]. split; assumption.
Qed.

(** The scroller that [scrollTo] leaves. *)
Lemma scrollTo_scroller (id : ListItemID) (w : World) (sc : Scroll) :
  scroller (widget w) = Some sc ->
  exists sc',
    scroller (widget (stateOf (scrollTo id w))) = Some sc' /\
    Offset sc' = NewPos (X (Offset sc))
                        (scrolledOffsetY (rowY (theme w) (widget w) id)
                                         (Height (itemMin (widget w))) sc) /\
    scrollSize sc' = scrollSize sc /\
    SameRows w (stateOf (scrollTo id w)).
Proof.
  intros Hsc. unfold scrollTo. rewrite bind_run. cbn [get]. rewrite Hsc.
  rewrite bind_run. cbn [modify].
  match goal with
  | |- context [offsetUpdated ?pos ?w1] =>
    destruct (offsetUpdated_view pos w1) as [V R];
    destruct (scroller (widget (stateOf (offsetUpdated pos w1)))) as [sc'|]
  end; simpl in V; [|contradiction].
  destruct V as [Vo Vs]. exists sc'. split; [reflexivity|].
  split; [exact Vo|]. split; [exact Vs|].
  destruct R as [R1 R2 R3]. split; assumption.
Qed.

(** X11.  [scrollTo(id)] on a list whose template row fits the viewport
    leaves the viewport, at its old size, around the template-high span
    that starts at the position computed for row [id]: the offset is at or
    above that position and the span ends at or above the lower edge.  This
    holds whether or not the re-layout that follows panics. *)
Theorem scrollTo_shows_template_span (w : World) (id : ListItemID) (sc : Scroll) :
  scroller (widget w) = Some sc ->
  (Height (itemMin (widget w)) <= Height (scrollSize sc))%Q ->
  exists sc',
    scroller (widget (stateOf (scrollTo id w))) = Some sc' /\
    scrollSize sc' = scrollSize sc /\
    X (Offset sc') = X (Offset sc) /\
    (Y (Offset sc') <= rowY (theme w) (widget w) id)%Q /\
    (rowY (theme w) (widget w) id + Height (itemMin (widget w))
     <= Y (Offset sc') + Height (scrollSize sc'))%Q.
Proof.
  intros Hsc Hfit.
  destruct (scrollTo_scroller id w sc Hsc) as (sc' & E & Ho & Hs & _).
  exists sc'. split; [exact E|]. split; [exact Hs|].
  rewrite Ho, Hs. cbn [X Y]. split; [reflexivity|].
  apply scrolledOffsetY_shows_template, Hfit.
Qed.

Lemma scrollTo_shows_template_span_witness :
  (scroller (widget list100) = Some (mkScroll (NewPos 0 0) (NewSize 100 50)
      (default [] (Content <$> scroller (widget list100)))) /\
   (Height (itemMin (widget list100)) <= 50)%Q) /\
  exists sc',
    scroller (widget (stateOf (scrollTo 30%Z list100))) = Some sc' /\
    scrollSize sc' = NewSize 100 50 /\
    X (Offset sc') = 0%Q /\
    (Y (Offset sc') <= rowY (theme list100) (widget list100) 30%Z)%Q /\
    (rowY (theme list100) (widget list100) 30%Z + Height (itemMin (widget list100))
     <= Y (Offset sc') + Height (scrollSize sc'))%Q.
Proof.
  assert (H1 : scroller (widget list100)
               = Some (mkScroll (NewPos 0 0) (NewSize 100 50)
                    (default [] (Content <$> scroller (widget list100)))))
    by (vm_compute; reflexivity).
  assert (H2 : (Height (itemMin (widget list100)) <= 50)%Q)
    by (vm_compute; discriminate).
  split; [split; assumption|].
  exact (scrollTo_shows_template_span list100 30%Z _ H1 H2).
Defined.

Lemma withScroller_same (l : List) (sc : Scroll) :
  scroller l = Some sc ->
  withScroller (Some (mkScroll (NewPos (X (Offset sc)) (Y (Offset sc)))
                               (scrollSize sc) (Content sc))) l = l.
Proof.
  intros H. destruct l; simpl in *. subst. destruct sc as [[x y] s c].
  reflexivity.
Qed.

(** X12.  [scrollTo(id)] changes nothing when the template-high span at the
    position computed for row [id] is already inside the viewport: the
    scroller stays where it is, nothing is laid out again, and the call
    returns the state it was given. *)
Theorem scrollTo_in_view_changes_nothing (w : World) (id : ListItemID) (sc : Scroll) :
  scroller (widget w) = Some sc ->
  Synced w ->
  (Y (Offset sc) <= rowY (theme w) (widget w) id)%Q ->
  (rowY (theme w) (widget w) id + Height (itemMin (widget w))
   <= Y (Offset sc) + Height (scrollSize sc))%Q ->
  scrollTo id w = Ok tt w.
Proof.
  intros Hsc Hsy Htop Hbot. unfold scrollTo. rewrite bind_run. cbn [get].
  rewrite Hsc. rewrite bind_run. cbn [modify].
  assert (E : scrolledOffsetY (rowY (theme w) (widget w) id)
                              (Height (itemMin (widget w))) sc = Y (Offset sc)).
  { unfold scrolledOffsetY, Qlt_bool.
    replace (Qle_bool (Y (Offset sc)) (rowY (theme w) (widget w) id)) with true
      by (symmetry; apply Qle_bool_iff; exact Htop).
    replace (Qle_bool (rowY (theme w) (widget w) id + Height (itemMin (widget w)))
                      (Y (Offset sc) + Height (scrollSize sc))) with true
      by (symmetry; apply Qle_bool_iff; exact Hbot).
    reflexivity. }
  rewrite E.
  assert (Ew : withWidget
            (withScroller
               (Some (mkScroll (NewPos (X (Offset sc)) (Y (Offset sc)))
                               (scrollSize sc) (Content sc)))) w = w).
  { destruct w as [th l ly hp nx cf tr]. unfold withWidget. simpl in *.
    rewrite (withScroller_same l sc Hsc). reflexivity. }
  rewrite Ew. unfold offsetUpdated. rewrite bind_run. cbn [get]. cbn [Y].
  unfold Synced in Hsy. rewrite Hsc in Hsy.
  replace (Qeq_bool (offsetY (widget w)) (Y (Offset sc))) with true
    by (symmetry; apply Qeq_bool_iff; exact Hsy).
  reflexivity.
Qed.

Lemma scrollTo_in_view_changes_nothing_witness :
  (scroller (widget list100) = Some (mkScroll (NewPos 0 0) (NewSize 100 50)
      (default [] (Content <$> scroller (widget list100)))) /\
   Synced list100 /\
   (0 <= rowY (theme list100) (widget list100) 1%Z)%Q /\
   (rowY (theme list100) (widget list100) 1%Z + Height (itemMin (widget list100))
    <= 0 + 50)%Q) /\
  scrollTo 1%Z list100 = Ok tt list100.
Proof.
  assert (H1 : scroller (widget list100)
               = Some (mkScroll (NewPos 0 0) (NewSize 100 50)
                    (default [] (Content <$> scroller (widget list100)))))
    by (vm_compute; reflexivity).
  assert (H2 : Synced list100) by (vm_compute; reflexivity).
  assert (H3 : (0 <= rowY (theme list100) (widget list100) 1%Z)%Q)
    by (vm_compute; discriminate).
  assert (H4 : (rowY (theme list100) (widget list100) 1%Z
                + Height (itemMin (widget list100)) <= 0 + 50)%Q)
    by (vm_compute; discriminate).
  split; [split_conj; assumption|].
  exact (scrollTo_in_view_changes_nothing list100 1%Z _ H1 H2 H3 H4).
Defined.

(** ** The ends of the list *)

#[global] Instance sameOffset_preorder : PreOrder sameOffset.
Proof.
  split.
  - intros w. unfold sameOffset. destruct (scroller (widget w)); reflexivity.
  - intros a b c. unfold sameOffset.
    destruct (scroller (widget a)), (scroller (widget b)), (scroller (widget c));
      try tauto. congruence.
Qed.

Lemma Frame_sameOffset (w w' : World) : Frame w w' -> sameOffset w w'.
Proof.
  intros [_ _ V _]. unfold sameOffset.
  destruct (scroller (widget w)), (scroller (widget w')); simpl in V; tauto.
Qed.

Lemma Keeps_sameOffset_of_Frame {A} (m : M A) : Keeps Frame m -> Keeps sameOffset m.
Proof. apply Keeps_weaken. intros w w' F. exact (Frame_sameOffset w w' F). Qed.

Lemma Keeps_sameOffset_rendererLayout s : Keeps sameOffset (rendererLayout s).
Proof.
  intros w. unfold rendererLayout. rewrite bind_run. cbn [get].
  unfold sameOffset.
  destruct (scroller (widget w)) as [sc|] eqn:Hsc; simpl; rewrite ?Hsc; auto.
Qed.

Lemma Keeps_sameOffset_ensureRenderer : Keeps sameOffset ensureRenderer.
Proof.
  intros w. unfold ensureRenderer. rewrite bind_run. cbn [get].
  unfold sameOffset.
  destruct (scroller (widget w)) as [sc|] eqn:Hsc; simpl; rewrite ?Hsc; auto.
Qed.

Ltac offset_leaf :=
  first
    [ apply Keeps_sameOffset_of_Frame, Keeps_Frame_updateList
    | apply Keeps_sameOffset_rendererLayout
    | apply Keeps_sameOffset_ensureRenderer
    | apply Keeps_modify; intros ?; unfold sameOffset; simpl;
      match goal with
      | |- context [scroller ?l] => destruct (scroller l)
      end; auto ].

Lemma Keeps_sameOffset_Refresh : Keeps sameOffset Refresh.
Proof.
  rewrite Refresh_ensureRenderer. unfold rendererRefresh, emit.
  keeps; offset_leaf.
Qed.

(** The scroller after [scrollTo(id)] and a refresh. *)
Lemma scrollTo_Refresh_scroller (id : ListItemID) (w : World) (sc : Scroll) :
  scroller (widget w) = Some sc ->
  exists sc',
    scroller (widget (stateOf ((scrollTo id;; Refresh) w))) = Some sc' /\
    Offset sc' = NewPos (X (Offset sc))
                        (scrolledOffsetY (rowY (theme w) (widget w) id)
                                         (Height (itemMin (widget w))) sc).
Proof.
  intros Hsc.
  destruct (scrollTo_scroller id w sc Hsc) as (sc1 & E1 & Ho & _ & _).
  rewrite bind_run.
  destruct (scrollTo id w) as [[] w1|w1]; simpl in E1.
  - pose proof (Keeps_sameOffset_Refresh w1) as H. unfold sameOffset in H.
    rewrite E1 in H.
    destruct (scroller (widget (stateOf (Refresh w1)))) as [sc'|];
      [|contradiction].
    exists sc'. split; [reflexivity|]. rewrite H. exact Ho.
  - exists sc1. split; [exact E1|exact Ho].
Qed.

Lemma rowY_0 (th : Theme) (l : List) : (rowY th l 0%Z == 0)%Q.
Proof.
  unfold rowY. destruct (size (itemHeights l) =? 0)%nat; [|reflexivity].
  change (inject_Z 0) with 0%Q. ring.
Qed.

(** X13.  [ScrollToTop] on a list whose template row fits the viewport and
    whose scroller is not above the content leaves the scroller at vertical
    offset 0, also when the call panics. *)
Theorem ScrollToTop_reaches_top (w : World) (sc : Scroll) :
  scroller (widget w) = Some sc ->
  (0 <= Y (Offset sc))%Q ->
  (Height (itemMin (widget w)) <= Height (scrollSize sc))%Q ->
  exists sc',
    scroller (widget (stateOf (ScrollToTop w))) = Some sc' /\
    (Y (Offset sc') == 0)%Q.
Proof.
  intros Hsc Hoff Hfit. unfold ScrollToTop.
  destruct (scrollTo_Refresh_scroller 0%Z w sc Hsc) as (sc' & E & Ho).
  exists sc'. split; [exact E|]. rewrite Ho. cbn [Y].
  pose proof (rowY_0 (theme w) (widget w)) as H0.
  destruct (scrolledOffsetY_shows_template (rowY (theme w) (widget w) 0%Z)
              (Height (itemMin (widget w))) sc Hfit) as [Hle _].
  assert (Hge : (0 <= scrolledOffsetY (rowY (theme w) (widget w) 0%Z)
                                      (Height (itemMin (widget w))) sc)%Q).
  { apply scrolledOffsetY_nonneg; [rewrite H0; apply Qle_refl|exact Hoff]. }
  lra.
Qed.

Lemma ScrollToTop_reaches_top_witness :
  (scroller (widget list100_scrolled)
   = Some (mkScroll (NewPos 0 20) (NewSize 100 50)
        (default [] (Content <$> scroller (widget list100_scrolled)))) /\
   (0 <= 20)%Q /\
   (Height (itemMin (widget list100_scrolled)) <= 50)%Q) /\
  exists sc',
    scroller (widget (stateOf (ScrollToTop list100_scrolled))) = Some sc' /\
    (Y (Offset sc') == 0)%Q.
Proof.
  assert (H1 : scroller (widget list100_scrolled)
               = Some (mkScroll (NewPos 0 20) (NewSize 100 50)
                    (default [] (Content <$> scroller (widget list100_scrolled)))))
    by (vm_compute; reflexivity).
  assert (H2 : (0 <= 20)%Q) by discriminate.
  assert (H3 : (Height (itemMin (widget list100_scrolled)) <= 50)%Q)
    by (vm_compute; discriminate).
  split; [split_conj; assumption|].
  exact (ScrollToTop_reaches_top list100_scrolled _ H1 H2 H3).
Defined.

(** X14.  [ScrollToBottom] scrolls to the last index of the list: index
    [n - 1] of a list of [n >= 1] rows.  On a list whose template row fits
    the viewport it leaves the scroller at an offset from which the
    viewport, at the height it had, holds the template-high span at the
    position that [scrollTo] computes for that index; this holds also when
    the call panics. *)
Theorem ScrollToBottom_scrolls_to_last_index (w : World) (sc : Scroll) (n : Z) :
  scroller (widget w) = Some sc ->
  Length (widget w) = Some n -> (1 <= n)%Z ->
  (Height (itemMin (widget w)) <= Height (scrollSize sc))%Q ->
  exists sc',
    scroller (widget (stateOf (ScrollToBottom w))) = Some sc' /\
    (Y (Offset sc') <= rowY (theme w) (widget w) (n - 1)%Z)%Q /\
    (rowY (theme w) (widget w) (n - 1)%Z + Height (itemMin (widget w))
     <= Y (Offset sc') + Height (scrollSize sc))%Q.
Proof.
  intros Hsc Hl Hn Hfit. unfold ScrollToBottom.
  rewrite bind_run. cbn [get]. unfold lengthOf. rewrite Hl.
  replace (0 <? n)%Z with true by (symmetry; apply Z.ltb_lt; lia).
  destruct (scrollTo_Refresh_scroller (n - 1)%Z w sc Hsc) as (sc' & E & Ho).
  exists sc'. split; [exact E|]. rewrite Ho. cbn [Y].
  apply scrolledOffsetY_shows_template, Hfit.
Qed.

Lemma ScrollToBottom_scrolls_to_last_index_witness :
  (scroller (widget list100_tall5)
   = Some (mkScroll (NewPos 0 0) (NewSize 100 50)
        (default [] (Content <$> scroller (widget list100_tall5)))) /\
   Length (widget list100_tall5) = Some 100%Z /\ (1 <= 100)%Z /\
   (Height (itemMin (widget list100_tall5)) <= 50)%Q) /\
  exists sc',
    scroller (widget (stateOf (ScrollToBottom list100_tall5))) = Some sc' /\
    (Y (Offset sc')
     <= rowY (theme list100_tall5) (widget list100_tall5) (100 - 1)%Z)%Q /\
    (rowY (theme list100_tall5) (widget list100_tall5) (100 - 1)%Z
     + Height (itemMin (widget list100_tall5))
     <= Y (Offset sc') + 50)%Q.
Proof.
  assert (H1 : scroller (widget list100_tall5)
               = Some (mkScroll (NewPos 0 0) (NewSize 100 50)
                    (default [] (Content <$> scroller (widget list100_tall5)))))
    by (vm_compute; reflexivity).
  assert (H2 : Length (widget list100_tall5) = Some 100%Z)
    by (vm_compute; reflexivity).
  assert (H3 : (1 <= 100)%Z) by discriminate.
  assert (H4 : (Height (itemMin (widget list100_tall5)) <= 50)%Q)
    by (vm_compute; discriminate).
  split; [split_conj; assumption|].
  exact (ScrollToBottom_scrolls_to_last_index list100_tall5 _ 100%Z H1 H2 H3 H4).
Defined.

(** ** The renderer of a new list *)

(** A pass over an empty layout in a viewport without height mounts
    nothing. *)
Lemma updateList_empty_layout (refresh : bool) (w : World) (sc : Scroll) :
  layout w = mkLayout [] [] [] ∅ ->
  scroller (widget w) = Some sc ->
  Qle_bool (Height (scrollSize sc)) 0 = true ->
  exists w',
    updateList refresh w = Ok tt w' /\
    layout w' = mkLayout [] [] [] ∅ /\
    scroller (widget w')
    = Some (mkScroll (Offset sc) (scrollSize sc)
              (if (0 <? lengthOf (widget w))%Z then Content sc else [])) /\
    withScroller None (widget w') = withScroller None (widget w) /\
    heap w' = heap w /\ nextItem w' = nextItem w /\
    canvasFocus w' = canvasFocus w /\ trace w' = trace (logged w).
Proof.
  intros Hly Hsc Hh. unfold updateList. rewrite bind_run. cbn [get].
  rewrite (bind_ok _ _ _ _ _ (log_missing_run w)).
  unfold visibleItemHeights. rewrite Hsc, Hh. cbv beta iota.
  change (length (@nil Q) =? 0)%nat with true. cbn [andb].
  destruct (0 <? lengthOf (widget w))%Z.
  - exists (logged w). split; [reflexivity|].
    rewrite logged_layout, logged_widget, logged_nextItem.
    split; [exact Hly|]. split.
    { rewrite Hsc. destruct sc; reflexivity. }
    unfold logged. destruct (UpdateItem (widget w)); auto.
  - cbn [mountRows]. rewrite bind_run. cbn [mret M_ret].
    rewrite bind_run. cbn [modify]. rewrite bind_run. cbn [get].
    rewrite Hly. cbn [visible]. rewrite map_to_list_empty.
    cbn [releaseHidden]. rewrite bind_run. cbn [mret M_ret].
    rewrite bind_run. cbn [modify].
    match goal with
    | |- context [updateSeparators ≫= ?k] =>
      match goal with
      | |- context [(updateSeparators ≫= k) ?w0] =>
        destruct (updateSeparators_run w0) as (seps' & Es & Ls & _);
        rewrite (bind_ok _ _ _ _ _ Es)
      end
    end.
    cbn [layout withLayout withChildren children length] in Ls.
    destruct seps' as [|s seps']; [|discriminate Ls].
    erewrite bind_ok
      by (apply publish_run; cbn [widget withLayout];
          rewrite logged_widget; exact Hsc).
    cbn [setupRows mret M_ret].
    eexists. split; [reflexivity|].
    cbn [layout withLayout withWidget withSeparators withChildren withVisible
         separators children itemPool visible widget withScroller scroller
         heap nextItem canvasFocus trace fmap list_fmap app].
    rewrite logged_layout, Hly, logged_widget, logged_nextItem.
    cbn [separators children itemPool visible].
    split; [reflexivity|]. split; [reflexivity|].
    split; [destruct (widget w); reflexivity|].
    unfold logged. destruct (UpdateItem (widget w)); auto.
Qed.

(** X15.  [CreateRenderer] never panics, whatever the callbacks and the
    state: it returns with a scroller at offset zero and of size zero that
    shows nothing, and with a layout that has no row, no separator and an
    empty pool.  It creates no row and calls neither [UpdateItem] nor a
    selection callback; the only event it can cause is the logged warning
    about a missing [UpdateItem].  The template size is measured only when
    [CreateItem] is installed and no size is known yet. *)
Theorem CreateRenderer_makes_empty_renderer (w : World) :
  exists w',
    CreateRenderer w = Ok tt w' /\
    layout w' = mkLayout [] [] [] ∅ /\
    scroller (widget w') = Some (mkScroll (NewPos 0 0) (NewSize 0 0) []) /\
    itemMin (widget w')
    = match CreateItem (widget w) with
      | Some sz => if IsZero (itemMin (widget w)) then sz else itemMin (widget w)
      | None => itemMin (widget w)
      end /\
    heap w' = heap w /\ nextItem w' = nextItem w /\
    (trace w' = trace w \/ trace w' = trace w ++ [EvLogError]).
Proof.
  unfold CreateRenderer. rewrite bind_run. cbn [get].
  set (w1 := match CreateItem (widget w) with
             | Some sz => if IsZero (itemMin (widget w))
                          then withWidget (withItemMin sz) w else w
             | None => w
             end).
  assert (E1 : match CreateItem (widget w) with
               | Some sz => if IsZero (itemMin (widget w))
                            then modify (withWidget (withItemMin sz)) else mret tt
               | None => mret tt
               end w = Ok tt w1).
  { subst w1. destruct (CreateItem (widget w)); [|reflexivity].
    destruct (IsZero (itemMin (widget w))); reflexivity. }
  assert (H1 : itemMin (widget w1)
               = match CreateItem (widget w) with
                 | Some sz => if IsZero (itemMin (widget w)) then sz
                              else itemMin (widget w)
                 | None => itemMin (widget w)
                 end /\
               heap w1 = heap w /\ nextItem w1 = nextItem w /\ trace w1 = trace w).
  { subst w1. destruct (CreateItem (widget w)); [|auto].
    destruct (IsZero (itemMin (widget w))); auto. }
  destruct H1 as (Hm & Hh & Hn & Ht).
  rewrite (bind_ok _ _ _ _ _ E1).
  rewrite bind_run. cbn [modify]. rewrite bind_run. cbn [modify].
  rewrite bind_run. cbn [get].
  match goal with
  | |- context [(if _ then _ else updateList true) ?w0] => set (w2 := w0)
  end.
  destruct (Size_eqb (layoutMinSize (theme w2) (widget w2)) (NewSize 0 0)).
  - exists w2. subst w2. simpl. rewrite Hm, Hh, Hn, Ht. auto 10.
  - destruct (updateList_empty_layout true w2
                (mkScroll (NewPos 0 0) (NewSize 0 0) []))
      as (w' & E & Hly & Hsc & Hw & Hhp & Hnx & _ & Htr);
      [reflexivity|reflexivity|reflexivity|].
    exists w'. split; [exact E|]. split; [exact Hly|].
    split; [rewrite Hsc; cbn [Content Offset scrollSize];
            destruct (0 <? lengthOf (widget w2))%Z; reflexivity|].
    split; [rewrite <- Hm; exact (f_equal itemMin Hw)|].
    split; [rewrite Hhp; exact Hh|]. split; [rewrite Hnx; exact Hn|].
    rewrite Htr. unfold logged.
    destruct (UpdateItem (widget w2)); [left|right]; simpl; rewrite Ht; reflexivity.
Qed.

(** ** Views: idle, mounted, never both *)

Lemma elem_of_viewsOf (m : gmap Z nat) (c : nat) :
  c ∈ viewsOf m <-> exists k, m !! k = Some c.
Proof.
  unfold viewsOf. rewrite list_elem_of_fmap. split.
  - intros ([k c'] & -> & H). apply elem_of_map_to_list in H. eauto.
  - intros (k & H). exists (k, c). split; [reflexivity|].
    apply elem_of_map_to_list, H.
Qed.

Lemma viewsOf_empty : viewsOf ∅ = [].
Proof. unfold viewsOf. rewrite map_to_list_empty. reflexivity. Qed.

Lemma viewsOf_insert (m : gmap Z nat) (k : Z) (c : nat) :
  m !! k = None -> viewsOf (<[k := c]> m) ≡ₚ c :: viewsOf m.
Proof.
  intros H. unfold viewsOf. rewrite (map_to_list_insert m k c H). reflexivity.
Qed.

Lemma viewsOf_inj (m : gmap Z nat) (k1 k2 : Z) (c : nat) :
  NoDup (viewsOf m) -> m !! k1 = Some c -> m !! k2 = Some c -> k1 = k2.
Proof.
  revert k1 k2 c. induction m as [|k v m Hk IH] using map_ind; intros k1 k2 c Hnd H1 H2.
  - rewrite lookup_empty in H1. discriminate.
  - rewrite (viewsOf_insert m k v Hk) in Hnd. apply NoDup_cons in Hnd as [Hv Hnd].
    rewrite elem_of_viewsOf in Hv.
    destruct (decide (k1 = k)) as [->|N1], (decide (k2 = k)) as [->|N2]; auto.
    + rewrite lookup_insert_eq in H1. rewrite lookup_insert_ne in H2 by auto.
      injection H1 as ->. exfalso. apply Hv. eauto.
    + rewrite lookup_insert_eq in H2. rewrite lookup_insert_ne in H1 by auto.
      injection H2 as ->. exfalso. apply Hv. eauto.
    + rewrite lookup_insert_ne in H1, H2 by auto. eauto.
Qed.

(** The views of a union: those of the left map and those of the right map
    at the keys that the left map does not have. *)
Lemma viewsOf_union (vis was : gmap Z nat) :
  viewsOf (vis ∪ was)
  ≡ₚ viewsOf vis
     ++ (filter (fun kv : Z * nat => vis !! kv.1 = None) (map_to_list was)).*2.
Proof.
  induction was as [|k v was Hk IH] using map_ind.
  - rewrite map_to_list_empty, (right_id_L ∅ (∪)). simpl. rewrite app_nil_r. reflexivity.
  - rewrite (map_to_list_insert was k v Hk). rewrite filter_cons. simpl.
    destruct (decide (vis !! k = None)) as [Hn|Hs].
    + rewrite <- (insert_union_r vis was k v Hn).
      rewrite viewsOf_insert by (apply lookup_union_None; auto).
      rewrite IH. simpl. rewrite Permutation_middle. reflexivity.
    + rewrite <- IH. replace (vis ∪ <[k:=v]> was) with (vis ∪ was); [reflexivity|].
      apply map_eq. intros i. destruct (decide (i = k)) as [->|N].
      * destruct (vis !! k) as [c|] eqn:E; [|congruence].
        rewrite !(lookup_union_Some_l _ _ _ _ E). reflexivity.
      * rewrite !lookup_union, lookup_insert_ne by auto. reflexivity.
Qed.

Lemma cellY_app sep hs hs' : forall y0 j,
  (j <= length hs)%nat -> cellY sep y0 (hs ++ hs') j = cellY sep y0 hs j.
Proof.
  induction hs as [|h hs IH]; intros y0 j Hj; simpl in *.
  - assert (j = 0%nat) as -> by lia. destruct hs'; reflexivity.
  - destruct j as [|j]; [reflexivity|]. simpl. apply IH. lia.
Qed.

Lemma cellY_snoc sep hs h : forall y0,
  cellY sep y0 (hs ++ [h]) (S (length hs))
  = (cellY sep y0 hs (length hs) + (h + sep))%Q.
Proof.
  induction hs as [|h' hs IH]; intros y0; simpl; [reflexivity|].
  apply IH.
Qed.

Lemma deref_alter_eq w c f :
  is_Some (heap w !! c) ->
  deref (withHeap (alter f c) w) c = f (deref w c).
Proof.
  intros [it H]. unfold deref. simpl. rewrite lookup_alter_eq, H. reflexivity.
Qed.

Lemma deref_alter_ne w c p f :
  p <> c -> deref (withHeap (alter f c) w) p = deref w p.
Proof.
  intros H. unfold deref. simpl. rewrite lookup_alter_ne by auto. reflexivity.
Qed.

Lemma heap_alter_is_Some (hp : gmap nat listItem) c p f :
  is_Some (alter f c hp !! p) <-> is_Some (hp !! p).
Proof.
  destruct (decide (p = c)) as [->|N].
  - rewrite lookup_alter_eq. rewrite fmap_is_Some. reflexivity.
  - rewrite lookup_alter_ne by auto. reflexivity.
Qed.

(** The choice of the view for a row that [vis] does not hold yet. *)
Lemma mount_choice was minRow vis cells w size c w1 :
  Mounting was minRow vis cells w ->
  match was !! (Z.of_nat (length cells) + minRow)%Z with
  | Some c => mret c
  | None => c ← getItem; updItem c (withItemSize size);; mret c
  end w = Ok c w1 ->
  Mounting was minRow (<[(Z.of_nat (length cells) + minRow)%Z := c]> vis)
           (cells ++ [c]) w1 /\
  (c ∉ cells) /\
  (forall p, p <> c -> deref w1 p = deref w p).
Proof.
  intros [Hv Hh Hc Hk] E.
  set (row := (Z.of_nat (length cells) + minRow)%Z) in *.
  assert (Hrow : vis !! row = None).
  { destruct (vis !! row) eqn:E'; [|reflexivity].
    destruct (Hk row) as [_ H]; [eauto|]. subst row. lia. }
  assert (Hnd : NoDup (itemPool (layout w) ++ viewsOf (vis ∪ was))).
  { rewrite Hv. apply NoDup_seq. }
  apply NoDup_app in Hnd as (Hnd1 & Hnd2 & Hnd3).
  assert (Hcells : forall j cj, cells !! j = Some cj ->
            (vis ∪ was) !! (minRow + Z.of_nat j)%Z = Some cj).
  { intros j cj Hj. apply lookup_union_Some_l. rewrite Hc. exact Hj. }
  assert (Hstep : forall w1',
    itemPool (layout w1') ++ viewsOf (<[row := c]> vis ∪ was)
      ≡ₚ seq 0 (nextItem w1') ->
    (forall p, (p < nextItem w1')%nat -> is_Some (heap w1' !! p)) ->
    Mounting was minRow (<[row := c]> vis) (cells ++ [c]) w1').
  { intros w1' P1 P2. split; [exact P1|exact P2| |].
    - intros j. destruct (decide (j = length cells)) as [->|N].
      + replace (minRow + Z.of_nat (length cells))%Z with row by (subst row; lia).
        rewrite lookup_insert_eq. rewrite lookup_app_r by lia.
        rewrite Nat.sub_diag. reflexivity.
      + rewrite lookup_insert_ne by (subst row; lia). rewrite Hc.
        destruct (Nat.lt_ge_cases j (length cells)).
        * rewrite lookup_app_l by lia. reflexivity.
        * rewrite !lookup_ge_None_2; [reflexivity| |lia].
          rewrite length_app. simpl. lia.
    - intros k Hk'. rewrite length_app. simpl.
      destruct (decide (k = row)) as [->|N]; [subst row; lia|].
      rewrite lookup_insert_ne in Hk' by auto. apply Hk in Hk'. lia. }
  destruct (was !! row) as [c0|] eqn:Hwas.
  - (* the row keeps its view *)
    injection E as <- <-.
    assert (Hu : <[row := c0]> vis ∪ was = vis ∪ was).
    { rewrite <- insert_union_l. apply insert_id.
      rewrite lookup_union_r by exact Hrow. exact Hwas. }
    split; [apply Hstep; [rewrite Hu; exact Hv|exact Hh]|].
    split; [|reflexivity].
    intros Hin. apply list_elem_of_lookup in Hin as [j Hj].
    pose proof (lookup_lt_Some _ _ _ Hj) as Hlt.
    apply Hcells in Hj.
    assert (Hr : (vis ∪ was) !! row = Some c0)
      by (rewrite lookup_union_r by exact Hrow; exact Hwas).
    pose proof (viewsOf_inj _ _ _ _ Hnd3 Hj Hr) as Heq.
    subst row. lia.
  - (* the row takes a view from the pool, or a new one *)
    assert (Hnone : (vis ∪ was) !! row = None)
      by (apply lookup_union_None; auto).
    assert (Hu : viewsOf (<[row := c]> vis ∪ was) ≡ₚ c :: viewsOf (vis ∪ was)).
    { rewrite <- insert_union_l. apply viewsOf_insert, Hnone. }
    rewrite bind_run in E. unfold getItem in E. rewrite bind_run in E.
    cbn [get] in E. unfold Obtain in E.
    destruct (itemPool (layout w)) as [|p pool'] eqn:Hpool.
    + destruct (CreateItem (widget w)); [|discriminate E].
      rewrite bind_run in E. cbn [modify mret M_ret] in E.
      rewrite bind_run in E. unfold updItem in E. cbn [modify mret M_ret] in E.
      injection E as <- <-.
      split; [apply Hstep|split].
      * simpl. rewrite Hpool. simpl. rewrite Hu.
        simpl in Hv. rewrite Hv.
        change (0%nat :: seq 1 (nextItem w)) with (seq 0 (S (nextItem w))).
        rewrite seq_S. cbn [Nat.add].
        rewrite Permutation_cons_append. reflexivity.
      * simpl. intros p Hp. apply heap_alter_is_Some.
        destruct (decide (p = nextItem w)) as [->|N].
        -- rewrite lookup_insert_eq. eauto.
        -- rewrite lookup_insert_ne by auto. apply Hh. lia.
      * intros Hin. apply list_elem_of_lookup in Hin as [j Hj].
        apply Hcells in Hj.
        assert (Hin : nextItem w ∈ seq 0 (nextItem w)).
        { rewrite <- Hv. simpl. apply elem_of_viewsOf. eauto. }
        apply elem_of_seq in Hin. lia.
      * intros p Hp. unfold deref. simpl.
        rewrite lookup_alter_ne, lookup_insert_ne by auto. reflexivity.
    + rewrite bind_run in E. cbn [modify mret M_ret] in E.
      rewrite bind_run in E. unfold updItem in E. cbn [modify mret M_ret] in E.
      injection E as <- <-.
      split; [apply Hstep|split].
      * simpl. rewrite Hu. rewrite <- Hv. simpl.
        rewrite <- Permutation_middle. reflexivity.
      * simpl. intros q Hq. apply heap_alter_is_Some, Hh, Hq.
      * intros Hin. apply list_elem_of_lookup in Hin as [j Hj].
        apply Hcells in Hj. apply (Hnd2 p); [left|apply elem_of_viewsOf; eauto].
      * intros q Hq. unfold deref. simpl.
        rewrite lookup_alter_ne by auto. reflexivity.
Qed.

(** The first loop of [updateList], row by row. *)
Lemma mountRows_Mounting was width sep minRow y0 hs :
  forall done vis cells w vis' cells' w',
    Mounting was minRow vis cells w ->
    Placed width sep y0 done cells w ->
    length done = length cells ->
    mountRows was width sep minRow hs (Z.of_nat (length cells))
              (cellY sep y0 done (length done)) vis cells w
    = Ok (vis', cells') w' ->
    Mounting was minRow vis' cells' w' /\
    Placed width sep y0 (done ++ hs) cells' w' /\
    length cells' = (length cells + length hs)%nat.
Proof.
  induction hs as [|h hs IH]; intros done vis cells w vis' cells' w' Hm Hp Hl E.
  - simpl in E. injection E as <- <- <-. rewrite app_nil_r.
    split; [exact Hm|]. split; [exact Hp|]. simpl. lia.
  - cbn [mountRows] in E. rewrite bind_run in E.
    match type of E with
    | match ?m w with _ => _ end = _ =>
      destruct (m w) as [c w1|w1] eqn:Ec; [|discriminate E]
    end.
    destruct (mount_choice was minRow vis cells w (NewSize width h) c w1 Hm Ec)
      as (Hm1 & Hnew & Hsame).
    rewrite bind_run in E. unfold updItem in E at 1. cbn [modify] in E.
    rewrite bind_run in E. unfold updItem in E at 1. cbn [modify] in E.
    match type of E with
    | mountRows _ _ _ _ _ _ _ _ _ ?w0 = _ => set (w2 := w0) in *
    end.
    assert (Hc1 : is_Some (heap w1 !! c)).
    { apply (mounting_heap _ _ _ _ _ Hm1).
      assert (Hin : c ∈ seq 0 (nextItem w1)).
      { rewrite <- (mounting_views _ _ _ _ _ Hm1). apply elem_of_app. right.
        apply elem_of_viewsOf. exists (Z.of_nat (length cells) + minRow)%Z.
        apply lookup_union_Some_l. apply lookup_insert_eq. }
      apply elem_of_seq in Hin. lia. }
    assert (Hm2 : Mounting was minRow
                    (<[(Z.of_nat (length cells) + minRow)%Z := c]> vis)
                    (cells ++ [c]) w2).
    { destruct Hm1 as [A B C D]. split; [exact A| |exact C|exact D].
      intros p Hp'. subst w2. simpl. apply heap_alter_is_Some, heap_alter_is_Some.
      apply B. exact Hp'. }
    assert (Hp2 : Placed width sep y0 (done ++ [h]) (cells ++ [c]) w2).
    { intros j cj hj Hj Hhj.
      destruct (Nat.lt_ge_cases j (length cells)) as [Hlt|Hge].
      - rewrite lookup_app_l in Hj by lia. rewrite lookup_app_l in Hhj by lia.
        assert (cj <> c).
        { intros ->. apply Hnew. apply list_elem_of_lookup. eauto. }
        subst w2. rewrite !deref_alter_ne by auto. rewrite Hsame by auto.
        rewrite cellY_app by lia. apply (Hp j cj hj Hj Hhj).
      - assert (j = length cells).
        { apply lookup_lt_Some in Hj. rewrite length_app in Hj. simpl in Hj. lia. }
        subst j. rewrite lookup_app_r in Hj by lia.
        rewrite Nat.sub_diag in Hj. injection Hj as <-.
        rewrite <- Hl in Hhj. rewrite lookup_app_r in Hhj by lia.
        rewrite Nat.sub_diag in Hhj. injection Hhj as <-.
        subst w2. rewrite deref_alter_eq.
        2:{ simpl. apply heap_alter_is_Some. exact Hc1. }
        rewrite deref_alter_eq by exact Hc1. simpl.
        rewrite <- Hl, cellY_app by lia. split; reflexivity. }
    replace (Z.of_nat (length cells) + 1)%Z
      with (Z.of_nat (length (cells ++ [c]))) in E
      by (rewrite length_app; simpl; lia).
    replace (cellY sep y0 done (length done) + (h + sep))%Q
      with (cellY sep y0 (done ++ [h]) (length (done ++ [h]))) in E.
    2:{ rewrite length_app. simpl. rewrite Nat.add_1_r. apply cellY_snoc. }
    apply (IH (done ++ [h])) in E; [|exact Hm2|exact Hp2|].
    2:{ rewrite !length_app. simpl. lia. }
    destruct E as (A & B & C). split; [exact A|].
    rewrite <- app_assoc in B. simpl in B. split; [exact B|].
    rewrite C, length_app. simpl. lia.
Qed.

(** What [setupListItem] does to the view, and that it does it to no other. *)
Lemma setupListItem_spec (li : nat) (id : ListItemID) (focus : bool) (w : World) :
  exists w',
    setupListItem li id focus w = Ok tt w' /\
    widget w' = widget w /\
    (forall p, p <> li -> heap w' !! p = heap w !! p) /\
    (is_Some (heap w' !! li) <-> is_Some (heap w !! li)) /\
    itemSize (deref w' li) = itemSize (deref w li) /\
    trace w' = trace w ++ (if UpdateItem (widget w)
                           then [EvUpdateItem id li] else []) /\
    (is_Some (heap w !! li) ->
     itemSelected (deref w' li) = existsb (Z.eqb id) (selected (widget w)) /\
     onTapped (deref w' li) = Some id /\
     hovered (deref w' li) = focus).
Proof.
  unfold setupListItem, itemRefresh, updItem, emit.
  rewrite bind_run. cbn [get]. rewrite bind_run. cbn [modify].
  destruct focus.
  - rewrite !bind_run. cbn [modify].
    destruct (UpdateItem (widget w)); cbn [modify mret M_ret];
      (eexists; split; [reflexivity|]);
      (split; [reflexivity|]);
      (split; [intros p Hp; simpl; rewrite !lookup_alter_ne by auto; reflexivity|]);
      (split; [simpl; rewrite !heap_alter_is_Some; reflexivity|]);
      (split; [unfold deref; simpl; rewrite !lookup_alter_eq;
               destruct (heap w !! li); reflexivity|]);
      (split; [simpl; rewrite ?app_nil_r; reflexivity|]);
      intros [it Hit]; unfold deref; simpl; rewrite !lookup_alter_eq, Hit; simpl;
      auto.
  - destruct (xorb (itemSelected (deref w li))
                   (existsb (Z.eqb id) (selected (widget w)))
              || hovered (deref w li)) eqn:Hc.
    + rewrite !bind_run. cbn [modify].
      destruct (UpdateItem (widget w)); cbn [modify mret M_ret];
        (eexists; split; [reflexivity|]);
        (split; [reflexivity|]);
        (split; [intros p Hp; simpl; rewrite !lookup_alter_ne by auto; reflexivity|]);
        (split; [simpl; rewrite !heap_alter_is_Some; reflexivity|]);
        (split; [unfold deref; simpl; rewrite !lookup_alter_eq;
                 destruct (heap w !! li); reflexivity|]);
        (split; [simpl; rewrite ?app_nil_r; reflexivity|]);
        intros [it Hit]; unfold deref; simpl; rewrite !lookup_alter_eq, Hit; simpl;
        auto.
    + apply orb_false_iff in Hc as [_ Hh].
      rewrite !bind_run. cbn [modify mret M_ret].
      destruct (UpdateItem (widget w)); cbn [modify mret M_ret];
        (eexists; split; [reflexivity|]);
        (split; [reflexivity|]);
        (split; [intros p Hp; simpl; rewrite !lookup_alter_ne by auto; reflexivity|]);
        (split; [simpl; rewrite !heap_alter_is_Some; reflexivity|]);
        (split; [unfold deref; simpl; rewrite !lookup_alter_eq;
                 destruct (heap w !! li); reflexivity|]);
        (split; [simpl; rewrite ?app_nil_r; reflexivity|]);
        intros [it Hit]; unfold deref in *; simpl; rewrite !lookup_alter_eq, Hit;
        rewrite Hit in Hh; simpl in *;
        auto.
Qed.

Lemma deref_heap (w w' : World) (p : nat) :
  heap w' !! p = heap w !! p -> deref w' p = deref w p.
Proof. unfold deref. intros ->. reflexivity. Qed.

(** The last loop of [updateList] over views that are all different. *)
Lemma setupRows_spec (focused : option nat) (kvs : list (Z * nat)) :
  forall w,
    NoDup kvs.*2 ->
    (forall kv, kv ∈ kvs -> is_Some (heap w !! kv.2)) ->
    exists w',
      setupRows focused kvs w = Ok tt w' /\
      widget w' = widget w /\
      (forall p, p ∉ kvs.*2 -> heap w' !! p = heap w !! p) /\
      (forall p, is_Some (heap w' !! p) <-> is_Some (heap w !! p)) /\
      (forall p, itemSize (deref w' p) = itemSize (deref w p)) /\
      trace w' = trace w ++ (if UpdateItem (widget w)
                             then (fun kv : Z * nat => EvUpdateItem kv.1 kv.2) <$> kvs
                             else []) /\
      (forall row c, (row, c) ∈ kvs ->
         boundTo (widget w) focused row c (deref w' c)).
Proof.
  induction kvs as [|[row obj] kvs IH]; intros w Hnd Hheap.
  - exists w. split; [reflexivity|]. split; [reflexivity|].
    split; [reflexivity|]. split; [reflexivity|]. split; [reflexivity|].
    split; [destruct (UpdateItem (widget w)); simpl; rewrite app_nil_r; reflexivity|].
    intros row c Hin. apply elem_of_nil in Hin. contradiction.
  - cbn [fmap list_fmap] in Hnd. apply NoDup_cons in Hnd as [Hobj Hnd].
    destruct (setupListItem_spec obj row (bool_decide (focused = Some obj)) w)
      as (w1 & E1 & W1 & O1 & D1 & S1 & T1 & B1).
    assert (Dom1 : forall p, is_Some (heap w1 !! p) <-> is_Some (heap w !! p)).
    { intros p. destruct (decide (p = obj)) as [->|N]; [exact D1|].
      rewrite (O1 p N). reflexivity. }
    destruct (IH w1 Hnd) as (w' & E & W & O & D & S & T & B).
    { intros kv Hkv. apply Dom1. apply Hheap. right. exact Hkv. }
    exists w'. split.
    { cbn [setupRows]. rewrite (bind_ok _ _ _ _ _ E1). exact E. }
    split; [congruence|]. split.
    { intros p Hp. cbn [fmap list_fmap] in Hp. apply not_elem_of_cons in Hp as [N Hp].
      rewrite (O p Hp). apply O1, N. }
    split; [intros p; rewrite D; apply Dom1|]. split.
    { intros p. rewrite S. destruct (decide (p = obj)) as [->|N]; [exact S1|].
      rewrite (deref_heap _ _ _ (O1 p N)). reflexivity. }
    split.
    { rewrite T, T1, W1. destruct (UpdateItem (widget w)); simpl;
        rewrite <- ?app_assoc; reflexivity. }
    intros r c Hin. apply elem_of_cons in Hin as [Heq|Hin].
    + injection Heq as -> ->.
      rewrite (deref_heap _ _ _ (O obj Hobj)).
      destruct B1 as (B1 & B2 & B3); [apply (Hheap (row, obj)); left|].
      split; [exact B1|]. split; [exact B2|exact B3].
    + rewrite <- W1. apply B, Hin.
Qed.

(** The second loop of [updateList]: the views of the rows that are no
    longer mounted go to the pool, and the focus is dropped if one of them
    had it. *)
Lemma releaseHidden_spec (focused : option nat) (was : list (Z * nat)) :
  forall w,
    exists w',
      releaseHidden focused was w = Ok tt w' /\
      Released w w' /\
      itemPool (layout w')
      ≡ₚ itemPool (layout w)
         ++ (filter (fun kv : Z * nat => visible (layout w) !! kv.1 = None) was).*2 /\
      (canvasFocus w' = canvasFocus w \/
       canvasFocus w' = None /\
       exists kv, kv ∈ was /\ visible (layout w) !! kv.1 = None /\
                  focused = Some kv.2) /\
      ((exists kv, kv ∈ was /\ visible (layout w) !! kv.1 = None /\
                   focused = Some kv.2) ->
       canvasFocus w' = None).
Proof.
  induction was as [|[id old] was IH]; intros w.
  - exists w. split; [reflexivity|]. split; [reflexivity|].
    split; [simpl; rewrite app_nil_r; reflexivity|].
    split; [left; reflexivity|].
    intros (kv & Hin & _). apply elem_of_nil in Hin. contradiction.
  - cbn [releaseHidden]. rewrite bind_run. cbn [get]. rewrite bind_run.
    rewrite filter_cons. cbn [fst].
    destruct (visible (layout w) !! id) as [c|] eqn:Hv.
    + cbn [mret M_ret]. destruct (IH w) as (w' & E & R & P & F & G).
      exists w'. split; [exact E|]. split; [exact R|].
      rewrite decide_False by discriminate.
      split; [exact P|]. split.
      { destruct F as [F|(F & kv & Hin & Hk & Hf)]; [left; exact F|].
        right. split; [exact F|]. exists kv. split; [right; exact Hin|]. auto. }
      intros (kv & Hin & Hk & Hf). apply G. exists kv.
      apply elem_of_cons in Hin as [->|Hin]; [|auto].
      cbn [fst] in Hk. rewrite Hv in Hk. discriminate Hk.
    + rewrite decide_True by reflexivity.
      rewrite bind_run.
      set (w1 := if bool_decide (focused = Some old)
                 then withCanvasFocus None w else w).
      assert (E1 : (if bool_decide (focused = Some old)
                    then modify (withCanvasFocus None) else mret tt) w
                   = Ok tt w1).
      { subst w1. destruct (bool_decide (focused = Some old)); reflexivity. }
      rewrite E1. cbn [modify].
      match goal with
      | |- context [releaseHidden focused was ?w0] => set (w2 := w0)
      end.
      assert (L1 : layout w1 = layout w /\ theme w1 = theme w /\
                   widget w1 = widget w /\ heap w1 = heap w /\
                   nextItem w1 = nextItem w /\ trace w1 = trace w).
      { subst w1. destruct (bool_decide (focused = Some old)); auto 10. }
      destruct L1 as (L1 & T1 & W1 & H1' & N1 & Tr1).
      destruct (IH w2) as (w' & E & R & P & F & G).
      exists w'. split; [exact E|]. split.
      { destruct R as [R1 R2 R3 R4 R5 R6 R7 R8]. subst w2. simpl in *.
        split; try congruence. }
      split.
      { rewrite P. subst w2.
        cbn [layout withLayout withItemPool itemPool visible].
        rewrite L1. cbn [fmap list_fmap snd]. unfold Release.
        rewrite <- Permutation_middle. reflexivity. }
      split.
      { destruct F as [F|(F & kv & Hin & Hk & Hf)].
        * subst w2. simpl in F. rewrite F. subst w1.
          destruct (bool_decide (focused = Some old)) eqn:Hb; [|left; reflexivity].
          right. split; [reflexivity|]. exists (id, old).
          split; [left|]. split; [exact Hv|].
          apply bool_decide_eq_true in Hb. exact Hb.
        * right. split; [exact F|]. exists kv. split; [right; exact Hin|].
          subst w2. simpl in Hk. rewrite L1 in Hk. auto. }
      intros (kv & Hin & Hk & Hf).
      apply elem_of_cons in Hin as [->|Hin].
      * cbn [snd] in Hf.
        assert (F1 : canvasFocus w2 = None).
        { subst w2 w1. rewrite bool_decide_eq_true_2 by exact Hf. reflexivity. }
        destruct F as [F|(F & _)]; [rewrite F; exact F1|exact F].
      * apply G. exists kv. split; [exact Hin|]. split; [|exact Hf].
        subst w2. simpl. rewrite L1. exact Hk.
Qed.

Lemma deref_same_heap (w w' : World) (p : nat) :
  heap w' = heap w -> deref w' p = deref w p.
Proof. unfold deref. intros ->. reflexivity. Qed.

#[global] Instance sameTrace_preorder : PreOrder sameTrace.
Proof. split; unfold sameTrace; [auto|intros x y z; congruence]. Qed.

#[global] Instance sameFocus_preorder : PreOrder sameFocus.
Proof. split; unfold sameFocus; [auto|intros x y z; congruence]. Qed.

(** The first loop leaves the focus alone. *)
Lemma Keeps_sameFocus_mountRows was width sep minRow hs :
  forall index y vis cells,
    Keeps sameFocus (mountRows was width sep minRow hs index y vis cells).
Proof.
  induction hs as [|h hs IH]; intros index y vis cells; simpl.
  - keeps.
  - unfold getItem, updItem.
    keeps; try (apply Keeps_modify; intros ?; reflexivity). apply IH.
Qed.

(** The first loop calls nothing. *)
Lemma Keeps_sameTrace_mountRows was width sep minRow hs :
  forall index y vis cells,
    Keeps sameTrace (mountRows was width sep minRow hs index y vis cells).
Proof.
  induction hs as [|h hs IH]; intros index y vis cells; simpl.
  - keeps.
  - unfold getItem, updItem.
    keeps; try (apply Keeps_modify; intros ?; reflexivity). apply IH.
Qed.

(** A pass that is not cut short, from a state in which every view is
    accounted for. *)
Lemma updateList_pass refresh w rows offY minRow w' :
  Recycling w ->
  visibleItemHeights (theme w) (widget w) (Height (itemMin (widget w)))
                     (lengthOf (widget w)) = Some (rows, offY, minRow) ->
  (length rows =? 0)%nat && (0 <? lengthOf (widget w))%Z = false ->
  updateList refresh w = Ok tt w' ->
  Recycling w' /\
  (forall row c, visible (layout w') !! row = Some c ->
     boundTo (widget w') (canvasFocus w') row c (deref w' c)) /\
  Mounting ∅ minRow (visible (layout w')) (children (layout w')) w' /\
  length (children (layout w')) = length rows /\
  Placed (Width (baseSize (widget w))) (Padding (theme w)) offY rows
         (children (layout w')) w' /\
  trace w'
  = trace (logged w)
    ++ (if UpdateItem (widget w)
        then (fun kv : Z * nat => EvUpdateItem kv.1 kv.2)
               <$> map_to_list (visible (layout w'))
        else []) /\
  (canvasFocus w' = canvasFocus w \/
   canvasFocus w' = None /\
   exists row c, visible (layout w) !! row = Some c /\
                 visible (layout w') !! row = None /\
                 canvasFocus w = Some c) /\
  (forall row c, visible (layout w) !! row = Some c ->
     visible (layout w') !! row = None ->
     canvasFocus w = Some c -> canvasFocus w' = None).
Proof.
  intros [Rv Rh Rs] Hvis Hgo E.
  destruct (updateList_ok_inv refresh w w' E) as (rows' & offY' & minRow' & Hvis' & Hcase).
  rewrite Hvis in Hvis'. injection Hvis' as <- <- <-. rewrite Hgo in Hcase.
  destruct Hcase as (vis & cells & wa & Em).
  set (was := visible (layout w)) in *.
  (* the first loop *)
  assert (M0 : Mounting was minRow ∅ [] (logged w)).
  { split.
    - rewrite logged_layout, logged_nextItem, (left_id_L ∅ (∪)). exact Rv.
    - rewrite logged_nextItem. intros p Hp. unfold logged.
      destruct (UpdateItem (widget w)); simpl; apply Rh, Hp.
    - intros j. rewrite lookup_empty. reflexivity.
    - intros k [c Hk]. rewrite lookup_empty in Hk. discriminate Hk. }
  assert (P0 : Placed (Width (baseSize (widget w))) (Padding (theme w)) offY
                      [] [] (logged w)).
  { intros j c h Hj. discriminate Hj. }
  destruct (mountRows_Mounting was (Width (baseSize (widget w)))
              (Padding (theme w)) minRow offY rows [] ∅ [] (logged w) vis cells wa
              M0 P0 eq_refl Em) as (Ma & Pa & La).
  cbn [app length Nat.add] in Pa, La.
  assert (Fa : Frame (logged w) wa).
  { generalize (Keeps_Frame_mountRows was (Width (baseSize (widget w)))
                  (Padding (theme w)) minRow rows 0%Z offY ∅ [] (logged w)).
    rewrite Em. auto. }
  assert (Hsc : is_Some (scroller (widget w))).
  { unfold visibleItemHeights in Hvis.
    destruct (scroller (widget w)); [eauto|discriminate]. }
  (* the rows that left *)
  destruct (releaseHidden_spec (canvasFocus wa) (map_to_list was)
              (withLayout (withVisible vis) wa))
    as (wb & Er & Hr & Hpool & Hfocus & Hdrop).
  cbn [layout withLayout withVisible visible itemPool canvasFocus]
    in Hpool, Hfocus, Hdrop.
  set (wc := withLayout (withChildren cells) wb).
  destruct (updateSeparators_run wc) as (seps' & Es & _ & _).
  set (wd := withLayout (withSeparators seps') wc) in *.
  assert (Hscd : is_Some (scroller (widget wd))).
  { simpl. rewrite (released_widget _ _ Hr). simpl.
    destruct Fa as [_ _ V _]. rewrite logged_widget in V.
    destruct Hsc as [sc0 Hsc0]. rewrite Hsc0 in V.
    destruct (scroller (widget wa)); [eauto|contradiction]. }
  destruct Hscd as [sc Hscd].
  pose proof (publish_run wd sc Hscd) as Ep.
  match type of Ep with publish _ = Ok tt ?x => set (we := x) in * end.
  assert (Hheap_e : heap we = heap wa).
  { subst we wd wc. simpl. rewrite (released_heap _ _ Hr). reflexivity. }
  assert (Hnd : NoDup (itemPool (layout wa) ++ viewsOf (vis ∪ was))).
  { rewrite (mounting_views _ _ _ _ _ Ma). apply NoDup_seq. }
  apply NoDup_app in Hnd as (_ & _ & Hnd).
  assert (Hndv : NoDup (viewsOf vis)).
  { rewrite viewsOf_union in Hnd. apply NoDup_app in Hnd as (Hnd & _). exact Hnd. }
  assert (Hon : forall row c, vis !! row = Some c -> is_Some (heap wa !! c)).
  { intros row c Hc. apply (mounting_heap _ _ _ _ _ Ma).
    assert (Hin : c ∈ seq 0 (nextItem wa)).
    { rewrite <- (mounting_views _ _ _ _ _ Ma). apply elem_of_app. right.
      apply elem_of_viewsOf. exists row. apply lookup_union_Some_l, Hc. }
    apply elem_of_seq in Hin. lia. }
  destruct (setupRows_spec (canvasFocus wa) (map_to_list vis) we Hndv)
    as (wf & Eu & Wf & Of & Df & Sf & Tf & Bf).
  { intros [row c] Hin. apply elem_of_map_to_list in Hin. cbn [snd].
    rewrite Hheap_e. apply (Hon row c Hin). }
  pose proof (Keeps_Settled_setupRows (canvasFocus wa) (map_to_list vis) we) as Su.
  rewrite Eu in Su. cbn [stateOf] in Su. destruct Su as [St Sl Sn Sc Sp].
  (* the pass, step by step *)
  assert (Ew : updateList refresh w = Ok tt wf).
  { unfold updateList. rewrite bind_run. cbn [get].
    rewrite (bind_ok _ _ _ _ _ (log_missing_run w)).
    rewrite Hvis. cbv beta iota. rewrite Hgo.
    fold was. rewrite (bind_ok _ _ _ _ _ Em). cbv beta iota.
    rewrite bind_run. cbn [modify]. rewrite bind_run. cbn [get].
    cbn [canvasFocus withLayout].
    rewrite (bind_ok _ _ _ _ _ Er).
    rewrite bind_run. cbn [modify]. fold wc.
    rewrite (bind_ok _ _ _ _ _ Es). fold wd.
    rewrite (bind_ok _ _ _ _ _ Ep). exact Eu. }
  rewrite E in Ew. injection Ew as ->.
  assert (Lf : layout wf = mkLayout seps' cells (itemPool (layout wb)) vis).
  { rewrite Sl. subst we wd wc. simpl.
    pose proof (released_visible _ _ Hr) as Hv. simpl in Hv. rewrite <- Hv.
    reflexivity. }
  assert (Nf : nextItem wf = nextItem wa).
  { rewrite Sn. subst we wd wc. simpl. apply (released_nextItem _ _ Hr). }
  assert (Hhf : forall p, is_Some (heap wf !! p) <-> is_Some (heap wa !! p)).
  { intros p. rewrite Df, Hheap_e. reflexivity. }
  assert (Hviews : itemPool (layout wb) ++ viewsOf vis ≡ₚ seq 0 (nextItem wa)).
  { rewrite <- (mounting_views _ _ _ _ _ Ma), Hpool, viewsOf_union.
    rewrite <- !app_assoc. apply Permutation_app_head, Permutation_app_comm. }
  assert (Rf : Recycling wf).
  { split.
    - rewrite Lf, Nf. exact Hviews.
    - intros p Hp. apply Hhf. apply (mounting_heap _ _ _ _ _ Ma).
      rewrite <- Nf. exact Hp.
    - intros Hnone. exfalso. rewrite Wf in Hnone. subst we. simpl in Hnone.
      discriminate Hnone. }
  split; [exact Rf|]. split.
  { intros row c Hc. rewrite Lf in Hc. cbn [visible] in Hc.
    destruct (Bf row c) as (B1 & B2 & B3); [apply elem_of_map_to_list, Hc|].
    split; [rewrite Wf; exact B1|]. split; [exact B2|].
    rewrite B3. rewrite Sc.
    assert (Hce : canvasFocus we = canvasFocus wb) by reflexivity.
    rewrite Hce.
    destruct Hfocus as [->|(-> & [k old] & Hin & Hk & Hf)]; [reflexivity|].
    cbn [fst snd] in Hk, Hf. rewrite Hf.
    apply elem_of_map_to_list in Hin.
    rewrite !bool_decide_eq_false_2; [reflexivity|discriminate|].
    intros Heq. injection Heq as ->.
    assert (H1 : (vis ∪ was) !! k = Some c)
      by (rewrite lookup_union_r by exact Hk; exact Hin).
    assert (H2 : (vis ∪ was) !! row = Some c)
      by (apply lookup_union_Some_l, Hc).
    pose proof (viewsOf_inj _ _ _ _ Hnd H1 H2) as ->.
    pose proof (eq_trans (eq_sym Hc) Hk) as Hx. discriminate Hx. }
  split.
  { rewrite Lf. cbn [visible children]. split.
    - rewrite (right_id_L ∅ (∪)), Lf, Nf. cbn [itemPool]. exact Hviews.
    - apply (recycling_heap _ Rf).
    - apply (mounting_cells _ _ _ _ _ Ma).
    - apply (mounting_keys _ _ _ _ _ Ma). }
  split; [rewrite Lf; exact La|].
  split.
  { rewrite Lf. cbn [children]. intros j c h Hj Hh.
    destruct (Pa j c h Hj Hh) as [Hp Hs]. rewrite Sp, Sf.
    rewrite (deref_same_heap wa we c Hheap_e). split; assumption. }
  rewrite Lf. cbn [visible]. rewrite Tf.
  assert (Hta : trace wa = trace (logged w)).
  { generalize (Keeps_sameTrace_mountRows was (Width (baseSize (widget w)))
                  (Padding (theme w)) minRow rows 0%Z offY ∅ [] (logged w)).
    rewrite Em. auto. }
  assert (Hte : trace we = trace wa).
  { subst we wd wc. simpl. apply (released_trace _ _ Hr). }
  assert (Hue : UpdateItem (widget we) = UpdateItem (widget w)).
  { subst we wd wc. simpl. rewrite (released_widget _ _ Hr). simpl.
    destruct Fa as [_ W _ _]. apply (f_equal UpdateItem) in W. simpl in W.
    rewrite W, logged_widget. reflexivity. }
  split; [rewrite Hte, Hta, Hue; reflexivity|].
  assert (Hfa : canvasFocus wa = canvasFocus w).
  { generalize (Keeps_sameFocus_mountRows was (Width (baseSize (widget w)))
                  (Padding (theme w)) minRow rows 0%Z offY ∅ [] (logged w)).
    rewrite Em. unfold sameFocus. cbn [stateOf]. intros ->.
    unfold logged. destruct (UpdateItem (widget w)); reflexivity. }
  assert (Hfb : canvasFocus wf = canvasFocus wb) by (rewrite Sc; reflexivity).
  rewrite Hfb, <- Hfa. split.
  - destruct Hfocus as [F|(F & [k old] & Hin & Hk & Hf)]; [left; exact F|].
    right. split; [exact F|]. exists k, old.
    apply elem_of_map_to_list in Hin. auto.
  - intros row c Hw Hv Hf. apply Hdrop. exists (row, c).
    split; [apply elem_of_map_to_list; exact Hw|]. auto.
Qed.

(** ** Invariants over the operations *)

#[global] Instance SameViews_preorder : PreOrder SameViews.
Proof.
  split.
  - intros w. split; auto; reflexivity.
  - intros a b c [A1 A2 A3 A4 A5] [B1 B2 B3 B4 B5]. split.
    + congruence.
    + congruence.
    + auto.
    + intros p. rewrite B4. apply A4.
    + intros p. rewrite B5. apply A5.
Qed.

Lemma SameViews_Recycling (w w' : World) :
  SameViews w w' -> Recycling w -> Recycling w'.
Proof.
  intros [L N S H _] [Rv Rh Rs]. split.
  - rewrite L, N. exact Rv.
  - intros p Hp. apply H, Rh. rewrite <- N. exact Hp.
  - intros Hn. rewrite N. apply Rs, S, Hn.
Qed.

Lemma SameViews_Bound (w w' : World) : SameViews w w' -> Bound w -> Bound w'.
Proof.
  intros [L _ _ _ T] B row c Hc. rewrite L in Hc. rewrite T. apply B, Hc.
Qed.

Lemma Keeps_SameViews_emit (e : Event) : Keeps SameViews (emit e).
Proof. apply Keeps_modify. intros w. split; auto; reflexivity. Qed.

Lemma Keeps_SameViews_updItem (p : nat) (f : listItem -> listItem) :
  (forall it, onTapped (f it) = onTapped it) -> Keeps SameViews (updItem p f).
Proof.
  intros Hf. apply Keeps_modify. intros w. split; try reflexivity; try tauto.
  - intros q. simpl. apply heap_alter_is_Some.
  - intros q. unfold deref. simpl. destruct (decide (q = p)) as [->|N].
    + rewrite lookup_alter_eq. destruct (heap w !! p); simpl; [apply Hf|reflexivity].
    + rewrite lookup_alter_ne by auto. reflexivity.
Qed.

Lemma Keeps_SameViews_itemRefresh (p : nat) : Keeps SameViews (itemRefresh p).
Proof. apply Keeps_SameViews_updItem. reflexivity. Qed.

(** A write to the widget that does not drop the scroller. *)
Lemma Keeps_SameViews_widget (f : List -> List) :
  (forall l, scroller (f l) = None -> scroller l = None) ->
  Keeps SameViews (modify (withWidget f)).
Proof.
  intros Hf. apply Keeps_modify. intros w. split; try reflexivity.
  simpl. apply Hf.
Qed.

Section Invariant.
Context (I : World -> Prop).

Lemma Maintains_ret {A} (a : A) : Maintains I (mret a).
Proof. intros w a' w' H E. injection E as _ <-. exact H. Qed.

Lemma Maintains_get : Maintains I get.
Proof. intros w a' w' H E. injection E as _ <-. exact H. Qed.

Lemma Maintains_panic {A} : Maintains I (@panic A).
Proof. intros w a' w' H E. discriminate E. Qed.

Lemma Maintains_bind {A B} (m : M A) (k : A -> M B) :
  Maintains I m -> (forall a, Maintains I (k a)) -> Maintains I (m ≫= k).
Proof.
  intros Hm Hk w b w' H E. rewrite bind_run in E.
  destruct (m w) as [a w1|w1] eqn:E1; [|discriminate E].
  apply (Hk a w1 b w'); [apply (Hm w a w1 H E1)|exact E].
Qed.

Lemma Maintains_defer (d b : M unit) :
  Maintains I b -> Maintains I d -> Maintains I (defer d b).
Proof.
  intros Hb Hd w a w' H E. unfold defer in E.
  destruct (b w) as [[] w1|w1] eqn:E1; [|discriminate E].
  apply (Hd w1 a w'); [apply (Hb w tt w1 H E1)|exact E].
Qed.

Lemma Maintains_Keeps {A} (R : World -> World -> Prop) (m : M A) :
  (forall w w', R w w' -> I w -> I w') -> Keeps R m -> Maintains I m.
Proof.
  intros HR Hk w a w' H E. specialize (Hk w). rewrite E in Hk.
  apply (HR w w' Hk H).
Qed.
End Invariant.

Ltac maintains_step :=
  lazymatch goal with
  | |- Maintains _ (mbind _ _) => apply Maintains_bind; [|intros ?]
  | |- Maintains _ (mret _) => apply Maintains_ret
  | |- Maintains _ get => apply Maintains_get
  | |- Maintains _ panic => apply Maintains_panic
  | |- Maintains _ (match ?x with _ => _ end) => destruct x eqn:?
  | |- Maintains _ (defer _ _) => apply Maintains_defer
  end.
Ltac maintains := repeat maintains_step.

(** ** Invariants of the layout under the operations of the list *)

Section LayoutInvariant.
Context (I : World -> Prop).
Hypothesis I_same : forall w w', SameViews w w' -> I w -> I w'.
Hypothesis I_updateList : forall refresh, Maintains I (updateList refresh).
Hypothesis I_reset : forall w w',
  I w -> scroller (widget w) = None ->
  layout w' = mkLayout [] [] [] ∅ -> heap w' = heap w ->
  nextItem w' = nextItem w -> I w'.

Lemma Maintains_SameViews {A} (m : M A) : Keeps SameViews m -> Maintains I m.
Proof. apply Maintains_Keeps. exact I_same. Qed.

Ltac views_leaf :=
  first
    [ apply I_updateList
    | apply Maintains_SameViews, Keeps_SameViews_emit
    | apply Maintains_SameViews, Keeps_SameViews_itemRefresh
    | apply Maintains_SameViews, Keeps_SameViews_updItem; reflexivity
    | apply Maintains_SameViews, Keeps_SameViews_widget;
      intros ? ?; simpl in *; first [assumption|discriminate] ].

Lemma Maintains_offsetUpdated pos : Maintains I (offsetUpdated pos).
Proof. unfold offsetUpdated. maintains; views_leaf. Qed.

Lemma Maintains_scrollTo id : Maintains I (scrollTo id).
Proof.
  unfold scrollTo. maintains; try views_leaf. apply Maintains_offsetUpdated.
Qed.

Lemma Maintains_rendererLayout s : Maintains I (rendererLayout s).
Proof. unfold rendererLayout. maintains; views_leaf. Qed.

Lemma Maintains_ensureRenderer : Maintains I ensureRenderer.
Proof.
  intros w a w' H E. unfold ensureRenderer in E. rewrite bind_run in E.
  cbn [get] in E.
  destruct (scroller (widget w)) as [sc|] eqn:Hsc.
  { injection E as _ <-. exact H. }
  unfold CreateRenderer in E. rewrite bind_run in E. cbn [get] in E.
  set (w1 := match CreateItem (widget w) with
             | Some sz => if IsZero (itemMin (widget w))
                          then withWidget (withItemMin sz) w else w
             | None => w
             end).
  assert (E1 : match CreateItem (widget w) with
               | Some sz => if IsZero (itemMin (widget w))
                            then modify (withWidget (withItemMin sz)) else mret tt
               | None => mret tt
               end w = Ok tt w1).
  { subst w1. destruct (CreateItem (widget w)); [|reflexivity].
    destruct (IsZero (itemMin (widget w))); reflexivity. }
  assert (H1 : heap w1 = heap w /\ nextItem w1 = nextItem w).
  { subst w1. destruct (CreateItem (widget w)); [|auto].
    destruct (IsZero (itemMin (widget w))); auto. }
  destruct H1 as (Hh & Hn).
  rewrite (bind_ok _ _ _ _ _ E1) in E.
  rewrite bind_run in E. cbn [modify] in E. rewrite bind_run in E.
  cbn [modify] in E. rewrite bind_run in E. cbn [get] in E.
  match type of E with
  | (if _ then _ else updateList true) ?w0 = _ => set (w2 := w0) in *
  end.
  assert (H2 : I w2).
  { apply (I_reset w w2 H Hsc); subst w2; simpl; auto. }
  destruct (Size_eqb (layoutMinSize (theme w2) (widget w2)) (NewSize 0 0)).
  - injection E as _ <-. exact H2.
  - apply (I_updateList true w2 a w' H2 E).
Qed.

Lemma Maintains_rendererRefresh : Maintains I rendererRefresh.
Proof.
  unfold rendererRefresh. maintains; try views_leaf.
  apply Maintains_rendererLayout.
Qed.

Lemma Maintains_Refresh : Maintains I Refresh.
Proof.
  rewrite Refresh_ensureRenderer. maintains; try views_leaf.
  - apply Maintains_ensureRenderer.
  - apply Maintains_rendererRefresh.
Qed.

Lemma Maintains_baseResize s : Maintains I (baseResize s).
Proof.
  intros w a w' H E. unfold baseResize in E. rewrite bind_run in E.
  cbn [get] in E.
  destruct (Size_eqb (baseSize (widget w)) s).
  { injection E as _ <-. exact H. }
  rewrite bind_run in E. cbn [modify] in E.
  set (w1 := withWidget (withBaseSize s) w) in *.
  assert (H1 : I w1).
  { apply (I_same w w1); [|exact H]. split; auto; reflexivity. }
  change ((ensureRenderer;; rendererLayout s) w1 = Ok a w') in E.
  revert E. apply Maintains_bind; [apply Maintains_ensureRenderer| |exact H1].
  intros _. apply Maintains_rendererLayout.
Qed.

Lemma Maintains_Resize s : Maintains I (Resize s).
Proof.
  unfold Resize. maintains; try views_leaf.
  - apply Maintains_baseResize.
  - apply Maintains_offsetUpdated.
Qed.

Lemma Maintains_selectCallbacks old id : Maintains I (selectCallbacks old id).
Proof. unfold selectCallbacks. maintains; views_leaf. Qed.

Lemma Maintains_unselectCallbacks ids : Maintains I (unselectCallbacks ids).
Proof.
  induction ids as [|id ids IH]; simpl; maintains; [views_leaf|apply IH].
Qed.

Lemma Maintains_Select id : Maintains I (Select id).
Proof.
  unfold Select. maintains; try views_leaf.
  - apply Maintains_scrollTo.
  - apply Maintains_Refresh.
  - apply Maintains_selectCallbacks.
Qed.

Lemma Maintains_runOp (o : Op) : Maintains I (runOp o).
Proof.
  destruct o; simpl.
  - apply Maintains_Select.
  - unfold Unselect. maintains; try views_leaf; apply Maintains_Refresh.
  - unfold UnselectAll. maintains; try views_leaf;
      first [apply Maintains_Refresh|apply Maintains_unselectCallbacks].
  - unfold ScrollTo. maintains; try views_leaf;
      first [apply Maintains_scrollTo|apply Maintains_Refresh].
  - unfold ScrollToTop. maintains;
      first [apply Maintains_scrollTo|apply Maintains_Refresh].
  - unfold ScrollToBottom. maintains;
      first [apply Maintains_scrollTo|apply Maintains_Refresh].
  - unfold SetItemHeight. maintains; try views_leaf; apply Maintains_Refresh.
  - apply Maintains_Resize.
  - apply Maintains_Refresh.
  - unfold Tapped. maintains; try views_leaf. apply Maintains_Select.
  - unfold OnScrolled. maintains; try views_leaf. apply Maintains_offsetUpdated.
Qed.

Lemma Maintains_runOps (os : list Op) :
  forall w w', I w -> runOpsOk os w = Some w' -> I w'.
Proof.
  induction os as [|o os IH]; intros w w' H E; simpl in E.
  - injection E as <-. exact H.
  - destruct (runOp o w) as [[] w1|w1] eqn:E1; [|discriminate E].
    apply (IH w1 w'); [|exact E]. apply (Maintains_runOp o w tt w1 H E1).
Qed.
End LayoutInvariant.

(** ** No view is lost, none is mounted twice *)

Lemma SameViews_logged (w : World) : SameViews w (logged w).
Proof.
  unfold logged. destruct (UpdateItem (widget w)); [reflexivity|].
  split; try reflexivity; auto.
Qed.

Lemma Recycling_reset (w w' : World) :
  Recycling w -> scroller (widget w) = None ->
  layout w' = mkLayout [] [] [] ∅ -> heap w' = heap w ->
  nextItem w' = nextItem w -> Recycling w'.
Proof.
  intros [Rv Rh Rs] Hsc L H N. pose proof (Rs Hsc) as H0. split.
  - rewrite L, N, H0. cbn [itemPool visible]. rewrite viewsOf_empty. reflexivity.
  - intros p Hp. rewrite N, H0 in Hp. lia.
  - intros _. rewrite N. exact H0.
Qed.

Lemma Maintains_Recycling_updateList refresh :
  Maintains Recycling (updateList refresh).
Proof.
  intros w [] w' H E.
  destruct (updateList_ok_inv refresh w w' E)
    as (rows & offY & minRow & Hvis & Hcase).
  destruct ((length rows =? 0)%nat && (0 <? lengthOf (widget w))%Z) eqn:Hgo.
  - subst w'. apply (SameViews_Recycling _ _ (SameViews_logged w) H).
  - apply (updateList_pass refresh w rows offY minRow w' H Hvis Hgo E).
Qed.

Lemma Coherent_same (w w' : World) : SameViews w w' -> Coherent w -> Coherent w'.
Proof.
  intros S [R B]. split; [apply (SameViews_Recycling w w' S R)|].
  apply (SameViews_Bound w w' S B).
Qed.

Lemma Coherent_reset (w w' : World) :
  Coherent w -> scroller (widget w) = None ->
  layout w' = mkLayout [] [] [] ∅ -> heap w' = heap w ->
  nextItem w' = nextItem w -> Coherent w'.
Proof.
  intros [R _] Hsc L H N. split; [apply (Recycling_reset w w' R Hsc L H N)|].
  intros row c Hc. rewrite L in Hc. cbn [visible] in Hc.
  rewrite lookup_empty in Hc. discriminate Hc.
Qed.

Lemma Maintains_Coherent_updateList refresh :
  Maintains Coherent (updateList refresh).
Proof.
  intros w [] w' [R B] E.
  destruct (updateList_ok_inv refresh w w' E)
    as (rows & offY & minRow & Hvis & Hcase).
  destruct ((length rows =? 0)%nat && (0 <? lengthOf (widget w))%Z) eqn:Hgo.
  - subst w'. apply (Coherent_same _ _ (SameViews_logged w)). split; assumption.
  - destruct (updateList_pass refresh w rows offY minRow w' R Hvis Hgo E)
      as (R' & Hb & _).
    split; [exact R'|]. intros row c Hc. apply (Hb row c Hc).
Qed.

Lemma Recycling_NewList th length createItem updateItem :
  Recycling (NewList th length createItem updateItem).
Proof.
  split; simpl.
  - rewrite viewsOf_empty. reflexivity.
  - intros p Hp. lia.
  - reflexivity.
Qed.

Lemma Coherent_NewList th length createItem updateItem :
  Coherent (NewList th length createItem updateItem).
Proof.
  split; [apply Recycling_NewList|].
  intros row c Hc. simpl in Hc. rewrite lookup_empty in Hc. discriminate Hc.
Qed.

(** X16.  Every view that the list has created is either idle in the pool
    or mounted at exactly one row, never both and never twice, and every
    view is on the heap: the pool and the mounted views together are a
    rearrangement of all views created so far.  This holds in a new list
    and after every sequence of public operations that return. *)
Theorem views_are_recycled (w : World) (os : list Op) (w' : World) :
  Recycling w -> runOpsOk os w = Some w' -> Recycling w'.
Proof.
  intros H E.
  apply (Maintains_runOps Recycling SameViews_Recycling
           Maintains_Recycling_updateList Recycling_reset os w w'); assumption.
Qed.

Lemma views_are_recycled_witness :
  (Recycling list100_new /\ runOpsOk session1 list100_new = Some list100_session1) /\
  Recycling list100_session1.
Proof.
  assert (H1 : Recycling list100_new) by apply Recycling_NewList.
  assert (H2 : runOpsOk session1 list100_new = Some list100_session1)
    by (vm_compute; reflexivity).
  split; [split; assumption|].
  exact (views_are_recycled list100_new session1 list100_session1 H1 H2).
Defined.

Lemma Recycling_session1 : Recycling list100_session1.
Proof.
  apply (Maintains_runOps Recycling SameViews_Recycling
           Maintains_Recycling_updateList Recycling_reset
           session1 list100_new list100_session1).
  - apply Recycling_NewList.
  - vm_compute. reflexivity.
Qed.

(** ** What a completed pass leaves *)

(** X17.  A pass that is not cut short and can create rows completes, and
    then every mounted view is set up for the row it is mounted at: it
    shows the selection indicator exactly when its row is the selected
    index, its tap handler selects its row, and it is shown as hovered
    exactly when it is the view that has the focus.  The views start out
    accounted for (pool and mounted views are all the views created). *)
Theorem updateList_binds_views refresh w rows offY minRow :
  Recycling w ->
  visibleItemHeights (theme w) (widget w) (Height (itemMin (widget w)))
                     (lengthOf (widget w)) = Some (rows, offY, minRow) ->
  (length rows =? 0)%nat && (0 <? lengthOf (widget w))%Z = false ->
  is_Some (CreateItem (widget w)) ->
  exists w',
    updateList refresh w = Ok tt w' /\
    forall row c, visible (layout w') !! row = Some c ->
      boundTo (widget w') (canvasFocus w') row c (deref w' c).
Proof.
  intros R Hvis Hgo Hc.
  destruct (updateList_ok refresh w) as (w' & E & _);
    [rewrite Hvis; eauto|exact Hc|].
  exists w'. split; [exact E|].
  apply (updateList_pass refresh w rows offY minRow w' R Hvis Hgo E).
Qed.

Lemma updateList_binds_views_witness :
  (Recycling list100_session1 /\
   visibleItemHeights (theme list100_session1) (widget list100_session1)
                      (Height (itemMin (widget list100_session1)))
                      (lengthOf (widget list100_session1))
   = Some ([40%Q; 20%Q; 20%Q], 105%Q, 5%Z) /\
   (length [40%Q; 20%Q; 20%Q] =? 0)%nat
   && (0 <? lengthOf (widget list100_session1))%Z = false /\
   is_Some (CreateItem (widget list100_session1))) /\
  exists w',
    updateList true list100_session1 = Ok tt w' /\
    forall row c, visible (layout w') !! row = Some c ->
      boundTo (widget w') (canvasFocus w') row c (deref w' c).
Proof.
  assert (H1 : Recycling list100_session1) by apply Recycling_session1.
  assert (H2 : visibleItemHeights (theme list100_session1) (widget list100_session1)
                 (Height (itemMin (widget list100_session1)))
                 (lengthOf (widget list100_session1))
               = Some ([40%Q; 20%Q; 20%Q], 105%Q, 5%Z))
    by (vm_compute; reflexivity).
  assert (H3 : (length [40%Q; 20%Q; 20%Q] =? 0)%nat
               && (0 <? lengthOf (widget list100_session1))%Z = false)
    by reflexivity.
  assert (H4 : is_Some (CreateItem (widget list100_session1)))
    by (vm_compute; eauto).
  split; [split_conj; assumption|].
  exact (updateList_binds_views true list100_session1 _ _ _ H1 H2 H3 H4).
Defined.

Lemma Mounting_NoDup was minRow vis cells w :
  Mounting was minRow vis cells w -> NoDup cells.
Proof.
  intros [Hv _ Hc _].
  assert (Hnd : NoDup (itemPool (layout w) ++ viewsOf (vis ∪ was))).
  { rewrite Hv. apply NoDup_seq. }
  apply NoDup_app in Hnd as (_ & _ & Hnd).
  apply NoDup_alt. intros i j c Hi Hj.
  rewrite <- Hc in Hi, Hj.
  pose proof (viewsOf_inj (vis ∪ was) _ _ c Hnd
                (lookup_union_Some_l _ _ _ _ Hi)
                (lookup_union_Some_l _ _ _ _ Hj)).
  lia.
Qed.

(** X18.  A pass that is not cut short and can create rows completes, and
    then the mounted rows are exactly the rows that [visibleItemHeights]
    returned; the children of the layout are their views in row order, one
    view per row and no view twice. *)
Theorem updateList_mounts_returned_rows refresh w rows offY minRow :
  Recycling w ->
  visibleItemHeights (theme w) (widget w) (Height (itemMin (widget w)))
                     (lengthOf (widget w)) = Some (rows, offY, minRow) ->
  (length rows =? 0)%nat && (0 <? lengthOf (widget w))%Z = false ->
  is_Some (CreateItem (widget w)) ->
  exists w',
    updateList refresh w = Ok tt w' /\
    length (children (layout w')) = length rows /\
    NoDup (children (layout w')) /\
    (forall j, visible (layout w') !! (minRow + Z.of_nat j)%Z
               = children (layout w') !! j) /\
    (forall row, is_Some (visible (layout w') !! row)
                 <-> returnedRow (rows, offY, minRow) row).
Proof.
  intros R Hvis Hgo Hc.
  destruct (updateList_ok refresh w) as (w' & E & _);
    [rewrite Hvis; eauto|exact Hc|].
  exists w'. split; [exact E|].
  destruct (updateList_pass refresh w rows offY minRow w' R Hvis Hgo E)
    as (_ & _ & Hm & Hl & _).
  split; [exact Hl|]. split; [apply (Mounting_NoDup _ _ _ _ _ Hm)|].
  split; [apply (mounting_cells _ _ _ _ _ Hm)|].
  intros row. unfold returnedRow. rewrite <- Hl. split.
  - apply (mounting_keys _ _ _ _ _ Hm).
  - intros Hrow.
    replace row with (minRow + Z.of_nat (Z.to_nat (row - minRow)))%Z by lia.
    rewrite (mounting_cells _ _ _ _ _ Hm).
    apply lookup_lt_is_Some. lia.
Qed.

Lemma updateList_mounts_returned_rows_witness :
  (Recycling list100_session1 /\
   visibleItemHeights (theme list100_session1) (widget list100_session1)
                      (Height (itemMin (widget list100_session1)))
                      (lengthOf (widget list100_session1))
   = Some ([40%Q; 20%Q; 20%Q], 105%Q, 5%Z) /\
   (length [40%Q; 20%Q; 20%Q] =? 0)%nat
   && (0 <? lengthOf (widget list100_session1))%Z = false /\
   is_Some (CreateItem (widget list100_session1))) /\
  exists w',
    updateList false list100_session1 = Ok tt w' /\
    length (children (layout w')) = 3%nat /\
    NoDup (children (layout w')) /\
    (forall j, visible (layout w') !! (5 + Z.of_nat j)%Z
               = children (layout w') !! j) /\
    (forall row, is_Some (visible (layout w') !! row)
                 <-> returnedRow ([40%Q; 20%Q; 20%Q], 105%Q, 5%Z) row).
Proof.
  assert (H1 : Recycling list100_session1) by apply Recycling_session1.
  assert (H2 : visibleItemHeights (theme list100_session1) (widget list100_session1)
                 (Height (itemMin (widget list100_session1)))
                 (lengthOf (widget list100_session1))
               = Some ([40%Q; 20%Q; 20%Q], 105%Q, 5%Z))
    by (vm_compute; reflexivity).
  assert (H3 : (length [40%Q; 20%Q; 20%Q] =? 0)%nat
               && (0 <? lengthOf (widget list100_session1))%Z = false)
    by reflexivity.
  assert (H4 : is_Some (CreateItem (widget list100_session1)))
    by (vm_compute; eauto).
  split; [split_conj; assumption|].
  exact (updateList_mounts_returned_rows false list100_session1 _ _ _ H1 H2 H3 H4).
Defined.

(** In a column of cells, each cell starts where the cell before it ends,
    one [sep] further. *)
Lemma cellY_S (sep : Q) (hs : list Q) :
  forall (j : nat) (y0 h : Q),
    hs !! j = Some h ->
    cellY sep y0 hs (S j) = (cellY sep y0 hs j + (h + sep))%Q.
Proof.
  induction hs as [|h0 hs IH]; intros j y0 h Hj; [discriminate Hj|].
  destruct j as [|j].
  - injection Hj as <-. destruct hs; reflexivity.
  - cbn [cellY]. apply IH. exact Hj.
Qed.

(** X19.  A pass that is not cut short and can create rows completes, and
    then the mounted views are stacked in the order of the children: the
    view at place [j] has x = 0, the width of the list and the height that
    [visibleItemHeights] returned at place [j]; the first view is at the
    returned offset, and every further view is at the [y] of the view before
    it plus that view's height plus one padding.  No view keeps a position
    or a size of an earlier pass, and none is moved twice. *)
Theorem updateList_stacks_rows refresh w rows offY minRow :
  Recycling w ->
  visibleItemHeights (theme w) (widget w) (Height (itemMin (widget w)))
                     (lengthOf (widget w)) = Some (rows, offY, minRow) ->
  (length rows =? 0)%nat && (0 <? lengthOf (widget w))%Z = false ->
  is_Some (CreateItem (widget w)) ->
  exists w',
    updateList refresh w = Ok tt w' /\
    length (children (layout w')) = length rows /\
    forall j c, children (layout w') !! j = Some c ->
      exists h,
        rows !! j = Some h /\
        X (itemPos (deref w' c)) = 0%Q /\
        itemSize (deref w' c) = NewSize (Width (baseSize (widget w))) h /\
        (j = 0%nat -> Y (itemPos (deref w' c)) = offY) /\
        (forall c', children (layout w') !! S j = Some c' ->
           Y (itemPos (deref w' c'))
           = (Y (itemPos (deref w' c)) + (h + Padding (theme w)))%Q).
Proof.
  intros R Hvis Hgo Hc.
  destruct (updateList_ok refresh w) as (w' & E & _);
    [rewrite Hvis; eauto|exact Hc|].
  exists w'. split; [exact E|].
  destruct (updateList_pass refresh w rows offY minRow w' R Hvis Hgo E)
    as (_ & _ & _ & Hl & Hp & _).
  split; [exact Hl|].
  intros j c Hj.
  pose proof (lookup_lt_Some _ _ _ Hj) as Hlt. rewrite Hl in Hlt.
  destruct (lookup_lt_is_Some_2 rows j Hlt) as [h Hrow].
  exists h. split; [exact Hrow|].
  destruct (Hp j c h Hj Hrow) as [Hpos Hsize]. rewrite Hpos, Hsize. cbn [X Y].
  split; [reflexivity|]. split; [reflexivity|]. split.
  - intros ->. destruct rows; reflexivity.
  - intros c' Hj'.
    pose proof (lookup_lt_Some _ _ _ Hj') as Hlt'. rewrite Hl in Hlt'.
    destruct (lookup_lt_is_Some_2 rows (S j) Hlt') as [h' Hrow'].
    destruct (Hp (S j) c' h' Hj' Hrow') as [Hpos' _]. rewrite Hpos'. cbn [Y].
    apply cellY_S. exact Hrow.
Qed.

Lemma updateList_stacks_rows_witness :
  (Recycling list100_session1 /\
   visibleItemHeights (theme list100_session1) (widget list100_session1)
                      (Height (itemMin (widget list100_session1)))
                      (lengthOf (widget list100_session1))
   = Some ([40%Q; 20%Q; 20%Q], 105%Q, 5%Z) /\
   (length [40%Q; 20%Q; 20%Q] =? 0)%nat
   && (0 <? lengthOf (widget list100_session1))%Z = false /\
   is_Some (CreateItem (widget list100_session1))) /\
  exists w',
    updateList true list100_session1 = Ok tt w' /\
    length (children (layout w')) = length [40%Q; 20%Q; 20%Q] /\
    forall j c, children (layout w') !! j = Some c ->
      exists h,
        [40%Q; 20%Q; 20%Q] !! j = Some h /\
        X (itemPos (deref w' c)) = 0%Q /\
        itemSize (deref w' c)
        = NewSize (Width (baseSize (widget list100_session1))) h /\
        (j = 0%nat -> Y (itemPos (deref w' c)) = 105%Q) /\
        (forall c', children (layout w') !! S j = Some c' ->
           Y (itemPos (deref w' c'))
           = (Y (itemPos (deref w' c))
              + (h + Padding (theme list100_session1)))%Q).
Proof.
  assert (H1 : Recycling list100_session1) by apply Recycling_session1.
  assert (H4 : visibleItemHeights (theme list100_session1) (widget list100_session1)
                 (Height (itemMin (widget list100_session1)))
                 (lengthOf (widget list100_session1))
               = Some ([40%Q; 20%Q; 20%Q], 105%Q, 5%Z))
    by (vm_compute; reflexivity).
  assert (H5 : (length [40%Q; 20%Q; 20%Q] =? 0)%nat
               && (0 <? lengthOf (widget list100_session1))%Z = false)
    by reflexivity.
  assert (H6 : is_Some (CreateItem (widget list100_session1)))
    by (vm_compute; eauto).
  split; [split_conj; assumption|].
  exact (updateList_stacks_rows true list100_session1 _ _ _ H1 H4 H5 H6).
Defined.

(** ** A tap on a mounted row *)

(** X20.  In every state that a new list reaches by public operations that
    return, a tap on the view mounted at a row of the list selects that
    row: the tap handler of a view always belongs to the row at which the
    view is mounted, also after the view has been recycled from another
    row. *)
Theorem tap_selects_mounted_row (w0 : World) (os : list Op) (w : World)
    (row : ListItemID) (c : nat) :
  Coherent w0 -> runOpsOk os w0 = Some w ->
  visible (layout w) !! row = Some c ->
  (0 <= row < lengthOf (widget w))%Z ->
  head (selected (widget (stateOf (Tapped c w)))) = Some row.
Proof.
  intros H0 E Hc Hrow.
  assert (H : Coherent w).
  { apply (Maintains_runOps Coherent Coherent_same
             Maintains_Coherent_updateList Coherent_reset os w0 w); assumption. }
  destruct H as [_ B]. pose proof (B row c Hc) as Hb.
  unfold Tapped. rewrite bind_run. cbn [get]. rewrite Hb.
  rewrite bind_run, updItem_run. rewrite bind_run.
  unfold itemRefresh. rewrite updItem_run.
  rewrite Select_selection by exact Hrow. cbn [widget withHeap].
  destruct (selected (widget w)) as [|s rest]; [reflexivity|].
  destruct (Z.eqb_spec row s) as [->|Hne]; reflexivity.
Qed.

Lemma tap_selects_mounted_row_witness :
  (Coherent list100_new /\
   runOpsOk session1 list100_new = Some list100_session1 /\
   visible (layout list100_session1) !! 5%Z = Some 3%nat /\
   (0 <= 5 < lengthOf (widget list100_session1))%Z) /\
  head (selected (widget (stateOf (Tapped 3%nat list100_session1)))) = Some 5%Z.
Proof.
  assert (H1 : Coherent list100_new) by apply Coherent_NewList.
  assert (H2 : runOpsOk session1 list100_new = Some list100_session1)
    by (vm_compute; reflexivity).
  assert (H3 : visible (layout list100_session1) !! 5%Z = Some 3%nat)
    by (vm_compute; reflexivity).
  assert (H4 : (0 <= 5 < lengthOf (widget list100_session1))%Z)
    by (split; vm_compute; [discriminate|reflexivity]).
  split; [split; [exact H1|split; [exact H2|split; [exact H3|exact H4]]]|].
  exact (tap_selects_mounted_row list100_new session1 list100_session1
           5%Z 3%nat H1 H2 H3 H4).
Defined.

(** X21.  A pass that is not cut short and can create rows completes, and
    it calls [UpdateItem] exactly once for every row that it leaves
    mounted, with the view mounted at that row, and calls nothing else;
    without an [UpdateItem] callback its only event is the logged
    warning. *)
Theorem updateList_updates_each_row_once refresh w rows offY minRow :
  Recycling w ->
  visibleItemHeights (theme w) (widget w) (Height (itemMin (widget w)))
                     (lengthOf (widget w)) = Some (rows, offY, minRow) ->
  (length rows =? 0)%nat && (0 <? lengthOf (widget w))%Z = false ->
  is_Some (CreateItem (widget w)) ->
  exists w' evs,
    updateList refresh w = Ok tt w' /\
    trace w' = trace w ++ evs /\
    if UpdateItem (widget w)
    then NoDup evs /\
         forall e, e ∈ evs <->
           exists row c, e = EvUpdateItem row c /\
                         visible (layout w') !! row = Some c
    else evs = [EvLogError].
Proof.
  intros R Hvis Hgo Hc.
  destruct (updateList_ok refresh w) as (w' & E & _);
    [rewrite Hvis; eauto|exact Hc|].
  destruct (updateList_pass refresh w rows offY minRow w' R Hvis Hgo E)
    as (_ & _ & _ & _ & _ & Ht & _).
  unfold logged in Ht. destruct (UpdateItem (widget w)).
  - eexists w', _. split; [exact E|]. split; [exact Ht|]. split.
    + apply NoDup_fmap_2; [|apply NoDup_map_to_list].
      intros [r1 c1] [r2 c2] Heq. injection Heq as -> ->. reflexivity.
    + intros e. rewrite list_elem_of_fmap. split.
      * intros ([row c] & -> & Hin). apply elem_of_map_to_list in Hin.
        exists row, c. auto.
      * intros (row & c & -> & Hin). exists (row, c). split; [reflexivity|].
        apply elem_of_map_to_list, Hin.
  - exists w', [EvLogError]. split; [exact E|]. split; [|reflexivity].
    rewrite Ht. simpl. rewrite app_nil_r. reflexivity.
Qed.

Lemma updateList_updates_each_row_once_witness :
  (Recycling list100_session1 /\
   visibleItemHeights (theme list100_session1) (widget list100_session1)
                      (Height (itemMin (widget list100_session1)))
                      (lengthOf (widget list100_session1))
   = Some ([40%Q; 20%Q; 20%Q], 105%Q, 5%Z) /\
   (length [40%Q; 20%Q; 20%Q] =? 0)%nat
   && (0 <? lengthOf (widget list100_session1))%Z = false /\
   is_Some (CreateItem (widget list100_session1))) /\
  exists w' evs,
    updateList true list100_session1 = Ok tt w' /\
    trace w' = trace list100_session1 ++ evs /\
    if UpdateItem (widget list100_session1)
    then NoDup evs /\
         forall e, e ∈ evs <->
           exists row c, e = EvUpdateItem row c /\
                         visible (layout w') !! row = Some c
    else evs = [EvLogError].
Proof.
  assert (H1 : Recycling list100_session1) by apply Recycling_session1.
  assert (H2 : visibleItemHeights (theme list100_session1) (widget list100_session1)
                 (Height (itemMin (widget list100_session1)))
                 (lengthOf (widget list100_session1))
               = Some ([40%Q; 20%Q; 20%Q], 105%Q, 5%Z))
    by (vm_compute; reflexivity).
  assert (H3 : (length [40%Q; 20%Q; 20%Q] =? 0)%nat
               && (0 <? lengthOf (widget list100_session1))%Z = false)
    by reflexivity.
  assert (H4 : is_Some (CreateItem (widget list100_session1)))
    by (vm_compute; eauto).
  split; [split_conj; assumption|].
  exact (updateList_updates_each_row_once true list100_session1 _ _ _ H1 H2 H3 H4).
Defined.

(** ** Selecting and scrolling show the row *)

Lemma selectCallbacks_widget (old : list ListItemID) (id : ListItemID) (w : World) :
  widget (stateOf (selectCallbacks old id w)) = widget w.
Proof.
  unfold selectCallbacks, emit. rewrite bind_run. cbn [get]. rewrite bind_run.
  destruct old as [|o old]; cbn [mret M_ret];
    [|destruct (OnUnselected (widget w)); cbn [modify mret M_ret]];
    destruct (OnSelected (widget w)); reflexivity.
Qed.

(** X22.  [ScrollTo(id)], and [Select(id)] when it changes the selection,
    with [id] inside the list and a template that fits the viewport, leave
    the scroller at an offset from which the viewport, at the height it
    had, holds the template-high span at the position computed for row
    [id]; this holds also when the call panics.  ([Select] of the index
    that is selected already does not scroll.) *)
Theorem ScrollTo_and_Select_show_row (w : World) (id : ListItemID) (sc : Scroll) :
  scroller (widget w) = Some sc ->
  (0 <= id < lengthOf (widget w))%Z ->
  (Height (itemMin (widget w)) <= Height (scrollSize sc))%Q ->
  (exists sc',
     scroller (widget (stateOf (ScrollTo id w))) = Some sc' /\
     (Y (Offset sc') <= rowY (theme w) (widget w) id)%Q /\
     (rowY (theme w) (widget w) id + Height (itemMin (widget w))
      <= Y (Offset sc') + Height (scrollSize sc))%Q) /\
  (head (selected (widget w)) <> Some id ->
   exists sc',
     scroller (widget (stateOf (Select id w))) = Some sc' /\
     (Y (Offset sc') <= rowY (theme w) (widget w) id)%Q /\
     (rowY (theme w) (widget w) id + Height (itemMin (widget w))
      <= Y (Offset sc') + Height (scrollSize sc))%Q).
Proof.
  intros Hsc Hid Hfit.
  assert (Hin : (id <? 0)%Z || (lengthOf (widget w) <=? id)%Z = false)
    by (apply orb_false_iff; split; lia).
  pose proof (scrolledOffsetY_shows_template (rowY (theme w) (widget w) id)
                (Height (itemMin (widget w))) sc Hfit) as [Hle Hge].
  split.
  - unfold ScrollTo. rewrite bind_run. cbn [get]. rewrite Hin.
    destruct (scrollTo_Refresh_scroller id w sc Hsc) as (sc' & E & Ho).
    exists sc'. split; [exact E|]. rewrite Ho. cbn [Y]. split; assumption.
  - intros Hsel. unfold Select. rewrite bind_run. cbn [get].
    replace (match selected (widget w) with
             | [] => false
             | s :: _ => (id =? s)%Z
             end) with false.
    2:{ destruct (selected (widget w)) as [|s rest]; [reflexivity|].
        destruct (Z.eqb_spec id s) as [->|]; [|reflexivity].
        exfalso. apply Hsel. reflexivity. }
    rewrite Hin, bind_run. cbn [modify].
    set (w1 := withWidget (withSelected [id]) w).
    destruct (scrollTo_Refresh_scroller id w1 sc Hsc) as (sc' & E & Ho).
    exists sc'. split.
    + unfold defer.
      destruct ((scrollTo id;; Refresh) w1) as [[] w2|w2]; cbn [stateOf] in *;
        rewrite selectCallbacks_widget; exact E.
    + rewrite Ho. cbn [Y]. split; assumption.
Qed.

Lemma ScrollTo_and_Select_show_row_witness :
  (scroller (widget list100) = Some (mkScroll (NewPos 0 0) (NewSize 100 50)
      (default [] (Content <$> scroller (widget list100)))) /\
   (0 <= 30 < lengthOf (widget list100))%Z /\
   (Height (itemMin (widget list100)) <= 50)%Q) /\
  (exists sc',
     scroller (widget (stateOf (ScrollTo 30%Z list100))) = Some sc' /\
     (Y (Offset sc') <= rowY (theme list100) (widget list100) 30%Z)%Q /\
     (rowY (theme list100) (widget list100) 30%Z + Height (itemMin (widget list100))
      <= Y (Offset sc') + 50)%Q) /\
  (head (selected (widget list100)) <> Some 30%Z ->
   exists sc',
     scroller (widget (stateOf (Select 30%Z list100))) = Some sc' /\
     (Y (Offset sc') <= rowY (theme list100) (widget list100) 30%Z)%Q /\
     (rowY (theme list100) (widget list100) 30%Z + Height (itemMin (widget list100))
      <= Y (Offset sc') + 50)%Q).
Proof.
  assert (H1 : scroller (widget list100)
               = Some (mkScroll (NewPos 0 0) (NewSize 100 50)
                    (default [] (Content <$> scroller (widget list100)))))
    by (vm_compute; reflexivity).
  assert (H2 : (0 <= 30 < lengthOf (widget list100))%Z)
    by (split; vm_compute; [discriminate|reflexivity]).
  assert (H3 : (Height (itemMin (widget list100)) <= 50)%Q)
    by (vm_compute; discriminate).
  split; [split; [exact H1|split; [exact H2|exact H3]]|].
  exact (ScrollTo_and_Select_show_row list100 30%Z _ H1 H2 H3).
Defined.

(** ** Pointer, focus and key events on a row *)

(** X24.  [FocusGained] does what [MouseIn] does and [FocusLost] what
    [MouseOut] does.  When the pointer or the focus enters a row, its
    background is shown, in the selection colour if the row shows as
    selected and in the hover colour otherwise; when it leaves, the
    background stays shown exactly when the row shows as selected, and
    then in the selection colour.  The selection indicator and the tap
    handler of the row are not touched. *)
Theorem hover_keeps_selection_colour (w : World) (li : nat) (it : listItem) :
  heap w !! li = Some it ->
  FocusGained li w = MouseIn li w /\
  FocusLost li w = MouseOut li w /\
  (exists w1,
     MouseIn li w = Ok tt w1 /\
     hovered (deref w1 li) = true /\
     background (deref w1 li)
     = Some (mkRectangle (if itemSelected it then SelectionColor else HoverColor)
                         true) /\
     itemSelected (deref w1 li) = itemSelected it /\
     onTapped (deref w1 li) = onTapped it) /\
  (exists w2 colour,
     MouseOut li w = Ok tt w2 /\
     hovered (deref w2 li) = false /\
     background (deref w2 li) = Some (mkRectangle colour (itemSelected it)) /\
     (itemSelected it = true -> colour = SelectionColor) /\
     itemSelected (deref w2 li) = itemSelected it /\
     onTapped (deref w2 li) = onTapped it).
Proof.
  intros Hit. split; [reflexivity|]. split; [reflexivity|]. split.
  - eexists. split; [reflexivity|].
    unfold deref. simpl. rewrite !lookup_alter_eq, Hit. simpl.
    unfold refreshedBackground. simpl.
    destruct (itemSelected it); split_conj; reflexivity.
  - unfold MouseOut, itemRefresh. rewrite bind_run, !updItem_run.
    eexists _, (FillColor (refreshedBackground (withHovered false it))).
    split; [reflexivity|].
    unfold deref. simpl. rewrite !lookup_alter_eq, Hit. simpl.
    unfold refreshedBackground. simpl.
    destruct (itemSelected it); simpl; split_conj; try reflexivity;
      intros H; first [discriminate H|reflexivity].
Qed.

Lemma hover_keeps_selection_colour_witness :
  heap list100_session1 !! 5%nat
  = Some (default newListItem (heap list100_session1 !! 5%nat)) /\
  FocusGained 5%nat list100_session1 = MouseIn 5%nat list100_session1 /\
  FocusLost 5%nat list100_session1 = MouseOut 5%nat list100_session1 /\
  (exists w1,
     MouseIn 5%nat list100_session1 = Ok tt w1 /\
     hovered (deref w1 5%nat) = true /\
     background (deref w1 5%nat)
     = Some (mkRectangle
               (if itemSelected (default newListItem (heap list100_session1 !! 5%nat))
                then SelectionColor else HoverColor) true) /\
     itemSelected (deref w1 5%nat)
     = itemSelected (default newListItem (heap list100_session1 !! 5%nat)) /\
     onTapped (deref w1 5%nat)
     = onTapped (default newListItem (heap list100_session1 !! 5%nat))) /\
  (exists w2 colour,
     MouseOut 5%nat list100_session1 = Ok tt w2 /\
     hovered (deref w2 5%nat) = false /\
     background (deref w2 5%nat)
     = Some (mkRectangle colour
               (itemSelected (default newListItem (heap list100_session1 !! 5%nat)))) /\
     (itemSelected (default newListItem (heap list100_session1 !! 5%nat)) = true ->
      colour = SelectionColor) /\
     itemSelected (deref w2 5%nat)
     = itemSelected (default newListItem (heap list100_session1 !! 5%nat)) /\
     onTapped (deref w2 5%nat)
     = onTapped (default newListItem (heap list100_session1 !! 5%nat))).
Proof.
  assert (H : heap list100_session1 !! 5%nat
              = Some (default newListItem (heap list100_session1 !! 5%nat)))
    by (vm_compute; reflexivity).
  split; [exact H|].
  exact (hover_keeps_selection_colour list100_session1 5%nat _ H).
Defined.

(** X25.  [TypedKey] ignores every key but the space key.  The space key
    on a row that has a tap handler does what a tap on the row does.  On a
    row without a tap handler it makes the row show as selected and leaves
    the selection of the list as it is. *)
Theorem TypedKey_space_is_tap (w : World) (li : nat) :
  TypedKey false li w = Ok tt w /\
  (is_Some (onTapped (deref w li)) -> TypedKey true li w = Tapped li w) /\
  (is_Some (heap w !! li) -> onTapped (deref w li) = None ->
   exists w',
     TypedKey true li w = Ok tt w' /\
     itemSelected (deref w' li) = true /\
     widget w' = widget w /\ trace w' = trace w).
Proof.
  split; [reflexivity|].
  assert (Hsame : forall w2,
    w2 = withHeap (alter (fun it => withBackground (Some (refreshedBackground it)) it) li)
           (withHeap (alter (withItemSelected true) li) w) ->
    onTapped (deref w2 li) = onTapped (deref w li)).
  { intros w2 ->. unfold deref. simpl. rewrite !lookup_alter_eq.
    destruct (heap w !! li); reflexivity. }
  split.
  - intros [id Hid]. unfold TypedKey, Tapped, itemRefresh.
    rewrite !bind_run, !updItem_run. cbn [get]. rewrite !bind_run, updItem_run.
    cbn [get]. rewrite Hid, bind_run. cbn [get].
    rewrite (Hsame _ eq_refl), Hid.
    rewrite bind_run, updItem_run, bind_run, updItem_run. reflexivity.
  - intros [it Hit] Hnone. unfold TypedKey, itemRefresh.
    rewrite !bind_run, !updItem_run. cbn [get]. rewrite !bind_run, updItem_run.
    cbn [get]. rewrite bind_run. cbn [get]. rewrite (Hsame _ eq_refl), Hnone.
    eexists. split; [reflexivity|]. split; [|split; reflexivity].
    unfold deref. simpl. rewrite !lookup_alter_eq, Hit. reflexivity.
Qed.

Lemma TypedKey_space_is_tap_witness :
  TypedKey false 5%nat list100_session1 = Ok tt list100_session1 /\
  (is_Some (onTapped (deref list100_session1 5%nat)) ->
   TypedKey true 5%nat list100_session1 = Tapped 5%nat list100_session1) /\
  (is_Some (heap list100_session1 !! 5%nat) ->
   onTapped (deref list100_session1 5%nat) = None ->
   exists w',
     TypedKey true 5%nat list100_session1 = Ok tt w' /\
     itemSelected (deref w' 5%nat) = true /\
     widget w' = widget list100_session1 /\ trace w' = trace list100_session1).
Proof. exact (TypedKey_space_is_tap list100_session1 5%nat). Defined.

(** ** No operation panics *)




























(** ** The focus after a pass *)

(** The focus and the recorded offset are no part of the layout. *)
Lemma SameViews_focus_offset (w : World) (focus : option nat) (y : Q) :
  SameViews w (withWidget (withOffsetY y) (withCanvasFocus focus w)).
Proof. split; try reflexivity; auto. Qed.

(** Nor are the selection callbacks. *)
Lemma SameViews_hooks (w : World) (onSelected onUnselected : bool) :
  SameViews w (withWidget (withHooks onSelected onUnselected) w).
Proof. split; try reflexivity; auto. Qed.

Lemma Recycling_list100_focused : Recycling list100_focused.
Proof.
  assert (H0 : Recycling (withWidget (withHooks true true) list100_new)).
  { exact (SameViews_Recycling list100_new _
             (SameViews_hooks list100_new true true)
             (Recycling_NewList _ _ _ _)). }
  assert (H1 : Recycling list100).
  { apply (Maintains_Resize Recycling SameViews_Recycling
             Maintains_Recycling_updateList Recycling_reset
             (NewSize 100 50) _ tt list100 H0).
    vm_compute. reflexivity. }
  exact (SameViews_Recycling list100 list100_focused
           (SameViews_focus_offset list100 (Some 1%nat) 120%Q) H1).
Qed.

(** X28.  A pass that is not cut short and can create rows completes, and
    it takes the focus away exactly when the view that had it was mounted
    at a row that is no longer mounted: that view goes back to the pool
    without the focus.  In every other case the focus stays where it
    was. *)
Theorem updateList_drops_focus_of_released_row refresh w rows offY minRow :
  Recycling w ->
  visibleItemHeights (theme w) (widget w) (Height (itemMin (widget w)))
                     (lengthOf (widget w)) = Some (rows, offY, minRow) ->
  (length rows =? 0)%nat && (0 <? lengthOf (widget w))%Z = false ->
  is_Some (CreateItem (widget w)) ->
  exists w',
    updateList refresh w = Ok tt w' /\
    (forall row c, visible (layout w) !! row = Some c ->
       canvasFocus w = Some c ->
       visible (layout w') !! row = None -> canvasFocus w' = None) /\
    (forall c, canvasFocus w = Some c ->
       (forall row, visible (layout w) !! row = Some c ->
          is_Some (visible (layout w') !! row)) ->
       canvasFocus w' = Some c) /\
    (canvasFocus w = None -> canvasFocus w' = None).
Proof.
  intros R Hvis Hgo Hc.
  destruct (updateList_ok refresh w) as (w' & E & _);
    [rewrite Hvis; eauto|exact Hc|].
  exists w'. split; [exact E|].
  destruct (updateList_pass refresh w rows offY minRow w' R Hvis Hgo E)
    as (_ & _ & _ & _ & _ & _ & Hf & Hdrop).
  split; [intros row c Hw Hfc Hv; apply (Hdrop row c Hw Hv Hfc)|]. split.
  - intros c Hfc Hkept.
    destruct Hf as [->|(_ & row & c' & Hw & Hv & Hfc')]; [exact Hfc|].
    rewrite Hfc in Hfc'. injection Hfc' as <-.
    destruct (Hkept row Hw) as [c' Hc']. rewrite Hv in Hc'. discriminate Hc'.
  - intros Hnone. destruct Hf as [->|[-> _]]; [exact Hnone|reflexivity].
Qed.

Lemma updateList_drops_focus_of_released_row_witness :
  (Recycling list100_focused /\
   visibleItemHeights (theme list100_focused) (widget list100_focused)
                      (Height (itemMin (widget list100_focused)))
                      (lengthOf (widget list100_focused))
   = Some ([20%Q; 20%Q; 20%Q], 105%Q, 5%Z) /\
   (length [20%Q; 20%Q; 20%Q] =? 0)%nat
   && (0 <? lengthOf (widget list100_focused))%Z = false /\
   is_Some (CreateItem (widget list100_focused))) /\
  exists w',
    updateList false list100_focused = Ok tt w' /\
    (forall row c, visible (layout list100_focused) !! row = Some c ->
       canvasFocus list100_focused = Some c ->
       visible (layout w') !! row = None -> canvasFocus w' = None) /\
    (forall c, canvasFocus list100_focused = Some c ->
       (forall row, visible (layout list100_focused) !! row = Some c ->
          is_Some (visible (layout w') !! row)) ->
       canvasFocus w' = Some c) /\
    (canvasFocus list100_focused = None -> canvasFocus w' = None).
Proof.
  assert (H1 : Recycling list100_focused) by apply Recycling_list100_focused.
  assert (H2 : visibleItemHeights (theme list100_focused) (widget list100_focused)
                 (Height (itemMin (widget list100_focused)))
                 (lengthOf (widget list100_focused))
               = Some ([20%Q; 20%Q; 20%Q], 105%Q, 5%Z))
    by (vm_compute; reflexivity).
  assert (H3 : (length [20%Q; 20%Q; 20%Q] =? 0)%nat
               && (0 <? lengthOf (widget list100_focused))%Z = false)
    by reflexivity.
  assert (H4 : is_Some (CreateItem (widget list100_focused)))
    by (vm_compute; eauto).
  split; [split_conj; assumption|].
  exact (updateList_drops_focus_of_released_row false list100_focused
           _ _ _ H1 H2 H3 H4).
Defined.
